(** * MKBAReservation-Backend: the reservation booking engine

    A shallow embedding of [routes/reservations.js] and [services/sendSMS.js]
    and the properties of the booking engine proved on it.

    Conventions of the embedding.
    - Calendar dates are day numbers and times of day are minutes since
      midnight (the value the handlers compute with
      [parseInt(h.split(':')[0]) * 60 + parseInt(h.split(':')[1])]); both are
      integers, compared the way PostgreSQL compares DATE and TIME values.
    - An instant (a JavaScript [Date]) is a number of minutes since the
      epoch. The [date] of a request is a date without a time of day, which
      [new Date(date)] reads as the midnight UTC of that day; the midnight
      the server's clock shows depends on its time zone.
    - An [async] function is a computation in the monad [M]: it reads and
      writes the [world] (the database behind the pool, the SMS gateway, the
      log of what happened) and either returns or throws.
    - The text of an SMS or of a notification is kept as the template it is
      built from; the characters of the text are not modelled. *)

From Stdlib Require Import Ascii String.
From stdpp Require Import gmap strings list sorting.

Open Scope Z_scope.

(** ** Tables *)

(** A row of [reservations]. *)
Record reservation := Reservation {
  id : Z;
  utilisateur_id : Z;
  salle_id : Z;
  date : Z;
  heure_debut : Z;
  heure_fin : Z;
  motif : option string;
  statut : string;
  created_at : Z;
  updated_at : Z
}.

(** A row of [salles], keyed by its id in the table. *)
Record salle := Salle {
  salle_nom : string;
  salle_statut : string
}.

(** A row of [utilisateurs], keyed by its id in the table. A missing phone
    number is [None] (SQL NULL, JavaScript null). *)
Record utilisateur := Utilisateur {
  utilisateur_nom : string;
  utilisateur_telephone : option string
}.

(** The four notification texts the handlers write. *)
Inductive notification_message :=
  | ReservationConfirmee
  | ReservationAnnulee
  | ReservationAnnuleePrioritaire
  | ReservationPrioritaireConfirmee.

(** A row of [notifications]. *)
Record notification := Notification {
  notification_utilisateur_id : Z;
  notification_reservation_id : Z;
  notification_message_text : notification_message;
  notification_type : string;
  lu : bool
}.

(** The database. [salles] and [utilisateurs] are maps from their primary
    key; [reservations] keeps its rows in insertion order, which is the
    order a SELECT without ORDER BY hands them to the handlers in. *)
Record database := Database {
  reservations : list reservation;
  reservations_id_seq : Z;
  salles : gmap Z salle;
  utilisateurs : gmap Z utilisateur;
  notifications : list notification
}.

Definition with_reservations (rs : list reservation) (db : database) : database :=
  {| reservations := rs;
     reservations_id_seq := reservations_id_seq db;
     salles := salles db;
     utilisateurs := utilisateurs db;
     notifications := notifications db |}.

(** ** Requests and responses *)

(** [req.user], set by the authentication middleware. *)
Record principal := Principal {
  user_id : Z;
  user_nom : string;
  user_telephone : option string;
  user_role : string
}.

(** [req.body] after [reservationSchema.validate]. *)
Record request := Request {
  body_salle_id : Z;
  body_date : Z;
  body_heure_debut : Z;
  body_heure_fin : Z;
  body_motif : option string
}.

(** What JavaScript throws. *)
Inductive exn :=
  | Error (message : string)
  | TypeError
  | DatabaseError
  | RestException.

Definition error_message (e : exn) : string :=
  match e with
  | Error message => message
  | TypeError => "Cannot read properties of null"
  | DatabaseError => "query failed"
  | RestException => "The SMS could not be sent"
  end.

(** The templates of the SMS texts of [services/sendSMS.js]. *)
Inductive sms_text :=
  | NouvelleReservation (nomSalle : string) (jour heureDebut heureFin : Z)
  | ReservationConfirmeeSMS (nomUtilisateur nomSalle : string) (jour heureDebut heureFin : Z)
  | ReservationAnnuleeSMS (nomUtilisateur nomSalle : string) (jour heureDebut heureFin : Z)
  | ReservationModifieeSMS (nomUtilisateur nomSalle : string) (jour heureDebut heureFin : Z).

(** The object [sendSMS] returns. *)
Record sms_result := SmsResult {
  success : bool;
  sms_error : option exn;
  sms_to : option string;
  sms_message : sms_text
}.

(** The [summary] of [sendReservationSMS]. *)
Record sms_summary := SmsSummary {
  total : nat;
  successes : nat;
  failures : nat;
  failedNumbers : list (option string * option exn)
}.

(** The object [sendReservationSMS] returns; [summary] is absent from the
    two objects with an [error]. *)
Record roster_result := RosterResult {
  roster_success : bool;
  roster_error : option string;
  results : list sms_result;
  summary : option sms_summary
}.

(** The JSON bodies the three handlers send. The reservation of a
    response is the inserted row (the handlers return the columns named by
    RETURNING) with the names of the room and of the requester. *)
Inductive body :=
  | ErrorBody (error : string)
  | ReservationCreee (reservation_ : reservation) (salle_nom_ utilisateur_nom_ : string)
      (smsStatus : bool) (smsDetails : option sms_summary) (notificationStatus : bool)
  | ReservationPrioritaireCreee (reservation_ : reservation)
      (salle_nom_ utilisateur_nom_ : string) (reservations_annulees : nat)
      (smsStatus notificationStatus : bool)
  | ReservationAnnuleeAvecSucces (smsStatus notificationStatus : bool).

Record response := Response {
  status : Z;
  json : body
}.

(** ** The world *)

(** The statements sent through [pool.query]. *)
Inductive statement :=
  | BEGIN
  | COMMIT
  | ROLLBACK
  | SELECT_salle
  | SELECT_conflict
  | SELECT_conflict_joined
  | SELECT_reservation_joined
  | SELECT_utilisateurs
  | INSERT_reservation
  | INSERT_notification
  | UPDATE_statut.

(** What an execution leaves in the log, in the order it happened:
    a statement and whether it succeeded, or a call of [sendSMS] with its
    recipient and its outcome. *)
Inductive event :=
  | Query (s : statement) (ok : bool)
  | SMS (recipient : option string) (delivered : bool).

(** Modelled from the spec: the storage behind [getPool()] ([db/init]) is
    not part of the sources. Following section 6 of the specification it is
    a durable transactional store with demarcated transactions: [committed]
    is the durable database, [transaction] the working copy of the open
    transaction, which COMMIT makes durable and ROLLBACK discards. A statement
    may fail; [db_faults] says for the statements to come, in order, which of
    them fail (none once the list is exhausted), and a failed statement changes
    nothing. [gateway] is the outcome of the n-th call of
    [client.messages.create], and [dispatched] counts the calls made. *)
Record world := World {
  committed : database;
  transaction : option database;
  db_faults : list bool;
  gateway : nat → bool;
  dispatched : nat;
  trace : list event
}.

Definition current (w : world) : database :=
  default (committed w) (transaction w).

Definition log (e : event) (w : world) : world :=
  {| committed := committed w; transaction := transaction w;
     db_faults := db_faults w; gateway := gateway w;
     dispatched := dispatched w; trace := trace w ++ [e] |}.

(** The fate of the next statement under a script of faults. *)
Definition fault_of (script : list bool) : bool :=
  match script with
  | b :: _ => b
  | [] => false
  end.

(** The next statement's fate and the world with the faults left for the
    statements after it. *)
Definition next_fault (w : world) : bool * world :=
  (fault_of (db_faults w),
   {| committed := committed w; transaction := transaction w;
      db_faults := tail (db_faults w); gateway := gateway w;
      dispatched := dispatched w; trace := trace w |}).

(** Writes go to the open transaction, or straight to the durable database
    when there is none (autocommit). *)
Definition store (db : database) (w : world) : world :=
  match transaction w with
  | Some _ =>
      {| committed := committed w; transaction := Some db;
         db_faults := db_faults w; gateway := gateway w;
         dispatched := dispatched w; trace := trace w |}
  | None =>
      {| committed := db; transaction := None;
         db_faults := db_faults w; gateway := gateway w;
         dispatched := dispatched w; trace := trace w |}
  end.

Definition set_transaction (t : option database) (c : database) (w : world) : world :=
  {| committed := c; transaction := t;
     db_faults := db_faults w; gateway := gateway w;
     dispatched := dispatched w; trace := trace w |}.

(** ** The monad of asynchronous computations *)

Inductive outcome (A : Type) :=
  | Returned (a : A)
  | Thrown (e : exn).
Arguments Returned {A} a.
Arguments Thrown {A} e.

Definition M (A : Type) : Type := world → outcome A * world.

Definition ret {A} (a : A) : M A := λ w, (Returned a, w).

Definition throw {A} (e : exn) : M A := λ w, (Thrown e, w).

Definition bind {A B} (m : M A) (k : A → M B) : M B := λ w,
  match m w with
  | (Returned a, w') => k a w'
  | (Thrown e, w') => (Thrown e, w')
  end.

(** [try { m } catch (e) { handler e }] *)
Definition try_catch {A} (m : M A) (handler : exn → M A) : M A := λ w,
  match m w with
  | (Returned a, w') => (Returned a, w')
  | (Thrown e, w') => handler e w'
  end.

(** [if (c) { m }] *)
Definition when (c : bool) (m : M unit) : M unit :=
  if c then m else ret tt.

Declare Scope js_scope.
Delimit Scope js_scope with js.
Notation "'let*' x ':=' c1 'in' c2" := (bind c1 (λ x, c2))
  (at level 10, x name, c1 at level 100, c2 at level 200) : js_scope.
Notation "'let*' ' p ':=' c1 'in' c2" := (bind c1 (λ x, let 'p := x in c2))
  (at level 10, p pattern, c1 at level 100, c2 at level 200) : js_scope.
Notation "'await' c1 'in' c2" := (bind c1 (λ _, c2))
  (at level 10, c1 at level 100, c2 at level 200) : js_scope.
Open Scope js_scope.

(** [for (const x of xs) { acc = body x acc }] *)
Fixpoint for_of {A S} (xs : list A) (body : A → S → M S) (acc : S) : M S :=
  match xs with
  | [] => ret acc
  | x :: rest => let* acc' := body x acc in for_of rest body acc'
  end.

(** [await Promise.all(xs.map(f))] for an [f] whose calls do not wait on each
    other: the calls are started in the order of [xs], and the results come
    back in that order. *)
Fixpoint promise_all_map {A B} (f : A → M B) (xs : list A) : M (list B) :=
  match xs with
  | [] => ret []
  | x :: rest =>
      let* y := f x in let* ys := promise_all_map f rest in ret (y :: ys)
  end.

(** ** [pool.query] *)

(** A statement that reads or writes rows: it fails when the storage says so,
    and otherwise runs on the current database. *)
Definition pool_query {A} (s : statement) (exec : database → A * database) : M A := λ w,
  let '(fault, w1) := next_fault w in
  if fault then (Thrown DatabaseError, log (Query s false) w1)
  else
    let result := exec (current w1) in
    (Returned result.1, log (Query s true) (store result.2 w1)).

(** [pool.query('BEGIN')]: opens a transaction on the durable state; inside
    an open transaction it changes nothing. *)
Definition pool_begin : M unit := λ w,
  let '(fault, w1) := next_fault w in
  if fault then (Thrown DatabaseError, log (Query BEGIN false) w1)
  else (Returned tt, log (Query BEGIN true)
                       (set_transaction (Some (current w1)) (committed w1) w1)).

(** [pool.query('COMMIT')] *)
Definition pool_commit : M unit := λ w,
  let '(fault, w1) := next_fault w in
  if fault then (Thrown DatabaseError, log (Query COMMIT false) w1)
  else (Returned tt, log (Query COMMIT true) (set_transaction None (current w1) w1)).

(** [pool.query('ROLLBACK')] *)
Definition pool_rollback : M unit := λ w,
  let '(fault, w1) := next_fault w in
  if fault then (Thrown DatabaseError, log (Query ROLLBACK false) w1)
  else (Returned tt, log (Query ROLLBACK true) (set_transaction None (committed w1) w1)).

(** ** [services/sendSMS.js] *)

Definition is_digit (c : ascii) : bool :=
  ((48 <=? nat_of_ascii c) && (nat_of_ascii c <=? 57))%nat.

(** [to.match(/^\+\d{10,15}$/)] on a string. *)
Definition matches_international (to : string) : bool :=
  match to with
  | String "+" digits =>
      forallb is_digit (list_ascii_of_string digits)
      && ((10 <=? String.length digits) && (String.length digits <=? 15))%nat
  | _ => false
  end.

Definition log_sms (to : option string) (delivered : bool) : M unit := λ w,
  (Returned tt, log (SMS to delivered) w).

(** [client.messages.create]: the gateway accepts or rejects the message. *)
Definition messages_create (to : string) (message : sms_text) : M unit := λ w,
  let w' := {| committed := committed w; transaction := transaction w;
               db_faults := db_faults w; gateway := gateway w;
               dispatched := S (dispatched w); trace := trace w |} in
  if gateway w (dispatched w) then (Returned tt, w') else (Thrown RestException, w').

(** [sendSMS]: the whole body is inside [try], so a missing number (the
    TypeError of [to.match] on null), an ill-formed number and a rejection by
    the gateway all end in the [catch], which returns a result whose
    [success] is false. The console output is not modelled, and the [sid]
    and [errorDetails] of the result are left out. *)
Definition sendSMS (to : option string) (message : sms_text) : M sms_result :=
  try_catch
    (let* number :=
       match to with
       | None => throw TypeError
       | Some number =>
           if negb (matches_international number)
           then throw (Error ("Numéro de téléphone invalide: " ++ number
                              ++ ". Attendu format international (ex. +237677865607)"))
           else ret number
       end in
     await messages_create number message in
     await log_sms to true in
     ret {| success := true; sms_error := None; sms_to := to; sms_message := message |})
    (λ error,
     await log_sms to false in
     ret {| success := false; sms_error := Some error; sms_to := to;
            sms_message := message |}).

Definition select_utilisateurs : M (list utilisateur) :=
  pool_query SELECT_utilisateurs (λ db, ((map_to_list (utilisateurs db)).*2, db)).

(** [sendReservationSMS]: one message to every row of [utilisateurs]. The
    calls of [sendSMS] made by [users.map] are run in the order of the rows;
    none of them rejects, so [Promise.all] resolves with all the results.
    [message.replace('Utilisateur', nom)] changes characters of the text only
    and is not modelled. *)
Definition sendReservationSMS (nomSalle : string) (jour heureDebut heureFin : Z)
    : M roster_result :=
  try_catch
    (let* users := select_utilisateurs in
     match users with
     | [] =>
         ret {| roster_success := false; roster_error := Some "Aucun utilisateur trouvé";
                results := []; summary := None |}
     | _ =>
         let message := NouvelleReservation nomSalle jour heureDebut heureFin in
         let* results :=
           promise_all_map (λ user, sendSMS (utilisateur_telephone user) message) users in
         let successes := length (List.filter success results) in
         let failures := List.filter (λ r, negb (success r)) results in
         ret {| roster_success := (0 <? successes)%nat;
                roster_error := None;
                results := results;
                summary := Some {| total := length users;
                                   successes := successes;
                                   failures := length failures;
                                   failedNumbers :=
                                     map (λ f, (sms_to f, sms_error f)) failures |} |}
     end)
    (λ error,
     ret {| roster_success := false; roster_error := Some (error_message error);
            results := []; summary := None |}).

Definition sendSingleReservationSMS (telephone : option string)
    (nomUtilisateur nomSalle : string) (jour heureDebut heureFin : Z) : M sms_result :=
  sendSMS telephone (ReservationConfirmeeSMS nomUtilisateur nomSalle jour heureDebut heureFin).

Definition sendCancellationSMS (telephone : option string)
    (nomUtilisateur nomSalle : string) (jour heureDebut heureFin : Z) : M sms_result :=
  sendSMS telephone (ReservationAnnuleeSMS nomUtilisateur nomSalle jour heureDebut heureFin).

Definition sendPriorityReservationSMS (telephone : option string)
    (nomUtilisateur nomSalle : string) (jour heureDebut heureFin : Z) : M sms_result :=
  sendSMS telephone (ReservationModifieeSMS nomUtilisateur nomSalle jour heureDebut heureFin).

(** ** [routes/reservations.js] *)

(** The three-clause condition of the conflict query; [p3] and [p4] are the
    parameters [$3] (start) and [$4] (end) of the requested window. *)
Definition conflict_clause (r : reservation) (p3 p4 : Z) : bool :=
  ((heure_debut r <? p4) && (heure_fin r >? p3))
  || ((heure_debut r <? p4) && (heure_fin r >? p4))
  || ((heure_debut r >=? p3) && (heure_debut r <? p4)).

(** The WHERE clause of [checkReservationConflict]. *)
Definition conflict_where (p1 p2 p3 p4 : Z) (r : reservation) : bool :=
  (salle_id r =? p1) && (date r =? p2) && String.eqb (statut r) "active"
  && conflict_clause r p3 p4.

(** [excludeReservationId] is tested for truthiness: null and 0 add no
    condition. *)
Definition checkReservationConflict (idSalle jour debut fin : Z)
    (excludeReservationId : option Z) : M bool :=
  let where_ r :=
    conflict_where idSalle jour debut fin r
    && match excludeReservationId with
       | Some p5 => if p5 =? 0 then true else negb (id r =? p5)
       | None => true
       end in
  let* rows :=
    pool_query SELECT_conflict
      (λ db, (map id (List.filter where_ (reservations db)), db)) in
  ret (0 <? length rows)%nat.

(** [SELECT nom, statut FROM salles WHERE id = $1] *)
Definition select_salle (idSalle : Z) : M (list salle) :=
  pool_query SELECT_salle (λ db, (option_list (salles db !! idSalle), db)).

(** Modelled from the spec: the schema of [reservations] ([db/init]) is not
    part of the sources. The INSERT of the handlers names neither [statut]
    nor the timestamps nor [id]; following sections 3 and 4.3 of the
    specification a new row gets a fresh identifier from the table's sequence,
    the status [active] and the current time as both timestamps. *)
Definition new_reservation (now : Z) (db : database)
    (idUtilisateur idSalle jour debut fin : Z) (raison : option string) : reservation :=
  {| id := reservations_id_seq db;
     utilisateur_id := idUtilisateur;
     salle_id := idSalle;
     date := jour;
     heure_debut := debut;
     heure_fin := fin;
     motif := raison;
     statut := "active";
     created_at := now;
     updated_at := now |}.

(** [INSERT INTO reservations (...) VALUES (...) RETURNING ...] *)
Definition insert_reservation (now idUtilisateur idSalle jour debut fin : Z)
    (raison : option string) : M reservation :=
  pool_query INSERT_reservation
    (λ db,
     let r := new_reservation now db idUtilisateur idSalle jour debut fin raison in
     (r, {| reservations := reservations db ++ [r];
            reservations_id_seq := reservations_id_seq db + 1;
            salles := salles db;
            utilisateurs := utilisateurs db;
            notifications := notifications db |})).

(** [INSERT INTO notifications (...) VALUES ($1, $2, $3, $4, false)] with
    [$4 = sent ? 'sms_envoye' : 'sms_echec']. *)
Definition insert_notification (idUtilisateur idReservation : Z)
    (message : notification_message) (sent : bool) : M unit :=
  pool_query INSERT_notification
    (λ db,
     (tt, {| reservations := reservations db;
             reservations_id_seq := reservations_id_seq db;
             salles := salles db;
             utilisateurs := utilisateurs db;
             notifications :=
               notifications db ++
               [ {| notification_utilisateur_id := idUtilisateur;
                    notification_reservation_id := idReservation;
                    notification_message_text := message;
                    notification_type := if sent then "sms_envoye" else "sms_echec";
                    lu := false |} ] |})).

(** [SET statut = 'annulee', updated_at = CURRENT_TIMESTAMP] on one row. *)
Definition annuler (now : Z) (r : reservation) : reservation :=
  {| id := id r;
     utilisateur_id := utilisateur_id r;
     salle_id := salle_id r;
     date := date r;
     heure_debut := heure_debut r;
     heure_fin := heure_fin r;
     motif := motif r;
     statut := "annulee";
     created_at := created_at r;
     updated_at := now |}.

(** [UPDATE reservations SET statut = 'annulee', updated_at = CURRENT_TIMESTAMP
    WHERE ...] *)
Definition update_statut (now : Z) (where_ : reservation → bool) : M unit :=
  pool_query UPDATE_statut
    (λ db,
     (tt, with_reservations
            (map (λ r, if where_ r then annuler now r else r) (reservations db)) db)).

(** A row of [reservations r JOIN utilisateurs u ON r.utilisateur_id = u.id
    JOIN salles s ON r.salle_id = s.id], selected as
    [r.*, u.nom, u.telephone, s.nom]. *)
Record joined_reservation := Joined {
  row : reservation;
  joined_utilisateur_nom : string;
  joined_utilisateur_telephone : option string;
  joined_salle_nom : string
}.

(** The rows the two inner joins produce for one reservation: one when its
    user and its room both exist, none otherwise. *)
Definition join (db : database) (x : reservation) : list joined_reservation :=
  match utilisateurs db !! utilisateur_id x, salles db !! salle_id x with
  | Some u, Some s =>
      [ {| row := x;
           joined_utilisateur_nom := utilisateur_nom u;
           joined_utilisateur_telephone := utilisateur_telephone u;
           joined_salle_nom := salle_nom s |} ]
  | _, _ => []
  end.

Definition select_joined (s : statement) (where_ : reservation → bool)
    : M (list joined_reservation) :=
  pool_query s
    (λ db, (flat_map (join db) (List.filter where_ (reservations db)), db)).

(** The WHERE clause of the conflict query written out in the priority
    handler. *)
Definition priority_conflict_where (p1 p2 p3 p4 : Z) (r : reservation) : bool :=
  (salle_id r =? p1) && (date r =? p2) && String.eqb (statut r) "active"
  && (((heure_debut r <? p4) && (heure_fin r >? p3))
      || ((heure_debut r <? p4) && (heure_fin r >? p4))
      || ((heure_debut r >=? p3) && (heure_debut r <? p4))).

Definition msg_past : string := "Impossible de réserver dans le passé".
Definition msg_duration : string :=
  "L'heure de fin doit être au moins 1 heure après l'heure de début".
Definition msg_no_room : string := "Salle non trouvée".
Definition msg_unavailable : string := "Salle non disponible".
Definition msg_conflict : string := "Créneau déjà réservé".
Definition msg_internal : string := "Erreur interne du serveur".

(** The status chosen by the [catch] of the two booking handlers. *)
Definition status_of_error (error : exn) : Z :=
  if String.eqb (error_message error) msg_no_room then 404
  else if String.eqb (error_message error) msg_conflict then 409
  else if String.eqb (error_message error) msg_unavailable then 400
  else if String.eqb (error_message error) msg_past then 400
  else if String.eqb (error_message error) msg_duration then 400
  else 500.

(** [error.message || 'Erreur interne du serveur'] *)
Definition message_or_internal (error : exn) : string :=
  if String.eqb (error_message error) "" then msg_internal else error_message error.

Definition booking_catch (error : exn) : M response :=
  await pool_rollback in
  ret {| status := status_of_error error;
         json := ErrorBody (message_or_internal error) |}.

Definition internal_error : response :=
  {| status := 500; json := ErrorBody msg_internal |}.

(** [new Date(date)] for a date without a time of day: the instant of the
    midnight UTC that starts the day [jour]. *)
Definition utc_midnight (jour : Z) : Z := jour * 1440.

(** [new Date()] after [setHours(0, 0, 0, 0)] on the day [jour] of a server
    whose clock is [tz] minutes ahead of UTC (behind, when [tz] is negative):
    the instant of the midnight that starts the day on that clock. *)
Definition local_midnight (jour tz : Z) : Z := jour * 1440 - tz.

(** [router.post('/')], after the schema validation. [today] is the instant
    of the server's local midnight ([new Date()] after
    [setHours(0, 0, 0, 0)]) and [now] is CURRENT_TIMESTAMP.
    [reservationDate < today] compares two instants: the midnight UTC of the
    requested date and the local midnight of the server. A time of day inside
    the requested date is not modelled. *)
Definition createReservation (today now : Z) (user : principal) (value : request)
    : M response :=
  try_catch
    (await pool_begin in
     try_catch
       (let reservationDate := utc_midnight (body_date value) in
        await when (reservationDate <? today) (throw (Error msg_past)) in
        let startTimeMinutes := body_heure_debut value in
        let endTimeMinutes := body_heure_fin value in
        await when (endTimeMinutes <? startTimeMinutes + 60)
                (throw (Error msg_duration)) in
        let* salleResult := select_salle (body_salle_id value) in
        match salleResult with
        | [] => throw (Error msg_no_room)
        | salle0 :: _ =>
            await when (negb (String.eqb (salle_statut salle0) "disponible"))
                    (throw (Error msg_unavailable)) in
            let* hasConflict :=
              checkReservationConflict (body_salle_id value) (body_date value)
                (body_heure_debut value) (body_heure_fin value) None in
            await when hasConflict (throw (Error msg_conflict)) in
            let* reservation_ :=
              insert_reservation now (user_id user) (body_salle_id value)
                (body_date value) (body_heure_debut value) (body_heure_fin value)
                (body_motif value) in
            let* '(smsResult, smsStatus) :=
              try_catch
                (let* smsResult :=
                   sendReservationSMS (salle_nom salle0) (body_date value)
                     (body_heure_debut value) (body_heure_fin value) in
                 ret (Some smsResult, roster_success smsResult))
                (λ smsError, ret (None, false)) in
            let* notificationStatus :=
              try_catch
                (await insert_notification (user_id user) (id reservation_)
                         ReservationConfirmee smsStatus in
                 ret true)
                (λ notificationError, ret false) in
            await pool_commit in
            match smsResult with
            | None => throw TypeError
            | Some smsResult =>
                ret {| status := 201;
                       json := ReservationCreee reservation_ (salle_nom salle0)
                                 (user_nom user) smsStatus
                                 (summary smsResult) notificationStatus |}
            end
        end)
       booking_catch)
    (λ error, ret internal_error).

(** [router.delete('/:id')]. [pool] is a [const] of the [try] block, so it
    is not in scope in the [catch]: [await pool.query('ROLLBACK')] there
    throws the ReferenceError [pool is not defined] before any statement is
    sent, and the lines after it, which would answer 500, are not reached; the
    handler rejects and the request gets no answer. *)
Definition cancelReservation (now : Z) (user : principal) (reservationId : Z)
    : M response :=
  try_catch
    (await pool_begin in
     let* result :=
       select_joined SELECT_reservation_joined (λ x, id x =? reservationId) in
     match result with
     | [] =>
         await pool_rollback in
         ret {| status := 404; json := ErrorBody "Réservation non trouvée" |}
     | reservation_ :: _ =>
         if negb (String.eqb (user_role user) "admin")
            && negb (utilisateur_id (row reservation_) =? user_id user)
         then
           await pool_rollback in
           ret {| status := 403; json := ErrorBody "Accès non autorisé" |}
         else if negb (String.eqb (statut (row reservation_)) "active")
         then
           await pool_rollback in
           ret {| status := 400;
                  json := ErrorBody "Cette réservation ne peut pas être annulée" |}
         else
           await update_statut now (λ x, id x =? reservationId) in
           let* smsStatus :=
             try_catch
               (let* smsResult :=
                  sendCancellationSMS (joined_utilisateur_telephone reservation_)
                    (joined_utilisateur_nom reservation_) (joined_salle_nom reservation_)
                    (date (row reservation_)) (heure_debut (row reservation_))
                    (heure_fin (row reservation_)) in
                ret (success smsResult))
               (λ smsError, ret false) in
           let* notificationStatus :=
             try_catch
               (await insert_notification (utilisateur_id (row reservation_))
                        (id (row reservation_)) ReservationAnnulee smsStatus in
                ret true)
               (λ notificationError, ret false) in
           await pool_commit in
           ret {| status := 200;
                  json := ReservationAnnuleeAvecSucces smsStatus notificationStatus |}
     end)
    (λ error, throw (Error "pool is not defined")).

(** The body of the loop over the preempted reservations of the priority
    handler; the accumulator is [(smsStatus, notificationStatus)]. *)
Definition notify_preempted (conflict : joined_reservation) (acc : bool * bool)
    : M (bool * bool) :=
  let '(smsStatus, notificationStatus) := acc in
  try_catch
    (let* smsResult :=
       sendPriorityReservationSMS (joined_utilisateur_telephone conflict)
         (joined_utilisateur_nom conflict) (joined_salle_nom conflict)
         (date (row conflict)) (heure_debut (row conflict)) (heure_fin (row conflict)) in
     let smsStatus := if negb (success smsResult) then false else smsStatus in
     let* notificationStatus :=
       try_catch
         (await insert_notification (utilisateur_id (row conflict)) (id (row conflict))
                  ReservationAnnuleePrioritaire (success smsResult) in
          ret notificationStatus)
         (λ notificationError, ret false) in
     ret (smsStatus, notificationStatus))
    (λ smsError, ret (false, notificationStatus)).

(** [router.post('/prioritaire')], after [requireAdmin] and the schema
    validation; [today] is the instant of the server's local midnight, as in
    [createReservation]. *)
Definition createPriorityReservation (today now : Z) (user : principal)
    (value : request) : M response :=
  try_catch
    (await pool_begin in
     try_catch
       (let reservationDate := utc_midnight (body_date value) in
        await when (reservationDate <? today) (throw (Error msg_past)) in
        let startTimeMinutes := body_heure_debut value in
        let endTimeMinutes := body_heure_fin value in
        await when (endTimeMinutes <? startTimeMinutes + 60)
                (throw (Error msg_duration)) in
        let* salleResult := select_salle (body_salle_id value) in
        match salleResult with
        | [] => throw (Error msg_no_room)
        | salle0 :: _ =>
            await when (negb (String.eqb (salle_statut salle0) "disponible"))
                    (throw (Error msg_unavailable)) in
            let* conflictResult :=
              select_joined SELECT_conflict_joined
                (priority_conflict_where (body_salle_id value) (body_date value)
                   (body_heure_debut value) (body_heure_fin value)) in
            let* '(smsStatus, notificationStatus) :=
              if (0 <? length conflictResult)%nat then
                let conflictIds := map (λ c, id (row c)) conflictResult in
                await update_statut now (λ x, existsb (Z.eqb (id x)) conflictIds) in
                for_of conflictResult notify_preempted (true, true)
              else ret (true, true) in
            let* reservation_ :=
              insert_reservation now (user_id user) (body_salle_id value)
                (body_date value) (body_heure_debut value) (body_heure_fin value)
                (body_motif value) in
            let* '(smsStatus, notificationStatus) :=
              try_catch
                (let* smsResult :=
                   sendSingleReservationSMS (user_telephone user) (user_nom user)
                     (salle_nom salle0) (body_date value) (body_heure_debut value)
                     (body_heure_fin value) in
                 let smsStatus := if negb (success smsResult) then false else smsStatus in
                 let* notificationStatus :=
                   try_catch
                     (await insert_notification (user_id user) (id reservation_)
                              ReservationPrioritaireConfirmee (success smsResult) in
                      ret notificationStatus)
                     (λ notificationError, ret false) in
                 ret (smsStatus, notificationStatus))
                (λ smsError, ret (false, notificationStatus)) in
            await pool_commit in
            ret {| status := 201;
                   json := ReservationPrioritaireCreee reservation_ (salle_nom salle0)
                             (user_nom user) (length conflictResult)
                             smsStatus notificationStatus |}
        end)
       booking_catch)
    (λ error, ret internal_error).

(** ** The overlap predicate of the specification *)

(** Two half-open windows [(s1, e1)] and [(s2, e2)] of one day overlap. *)
Definition overlap (s1 e1 s2 e2 : Z) : bool := (s1 <? e2) && (s2 <? e1).

(** ** Vocabulary of the statements *)

(** The recipient is present and matches the international format. *)
Definition well_formed (to : option string) : bool :=
  match to with
  | Some number => matches_international number
  | None => false
  end.

(** The outcome of a call of [sendSMS] to [to] in the world [w]. *)
Definition delivered (to : option string) (w : world) : bool :=
  well_formed to && gateway w (dispatched w).

(** The world after calls of [sendSMS]: the storage is untouched, the
    gateway has been called [n] more times and [evs] has been logged. *)
Definition after_sms (n : nat) (evs : list event) (w : world) : world :=
  {| committed := committed w; transaction := transaction w;
     db_faults := db_faults w; gateway := gateway w;
     dispatched := (n + dispatched w)%nat; trace := trace w ++ evs |}.

(** The log entry of a result of [sendSMS]. *)
Definition sms_event (res : sms_result) : event := SMS (sms_to res) (success res).

(** The outcomes of the calls of [sendSMS] in a log. *)
Fixpoint sms_outcomes (evs : list event) : list bool :=
  match evs with
  | [] => []
  | SMS _ d :: rest => d :: sms_outcomes rest
  | Query _ _ :: rest => sms_outcomes rest
  end.

(** ** Reasoning about computations *)

(** [wp m Q w]: running [m] in the world [w] ends in an outcome and a world
    that satisfy [Q]. Computations are total functions of the world, so this
    is both a weakest precondition and a statement of termination. *)
Definition wp {A} (m : M A) (Q : outcome A → world → Prop) (w : world) : Prop :=
  Q (m w).1 (m w).2.

(** [keeps I m]: [m] maintains [I], whether it returns or throws. *)
Definition keeps {A} (I : world → Prop) (m : M A) : Prop :=
  ∀ w, I w → I (m w).2.

(** [yields V m]: in every world [m] returns, never throws, and the value
    it returns satisfies [V]. *)
Definition yields {A} (V : A → Prop) (m : M A) : Prop :=
  ∀ w, ∃ a, (m w).1 = Returned a ∧ V a.

(** A response that reports success: 201 from the two booking handlers,
    200 from the cancellation. *)
Definition is_success (resp : response) : bool :=
  (status resp =? 201) || (status resp =? 200).

(** The request failed: an error response, or no response at all. *)
Definition failed (o : outcome response) : Prop :=
  match o with
  | Returned resp => is_success resp = false
  | Thrown _ => True
  end.

(** Inside an open transaction whose durable state is [c0]. *)
Definition in_transaction (c0 : database) (w : world) : Prop :=
  committed w = c0 ∧ is_Some (transaction w).

(** What a failed request leaves behind: the durable state [c0] it started
    from, and no open transaction unless the failure is an internal error. *)
Definition rolled_back (c0 : database) (o : outcome response) (w' : world) : Prop :=
  failed o →
  committed w' = c0
  ∧ ∀ resp, o = Returned resp → status resp ≠ 500 → transaction w' = None.

(** The claim that notifications follow the commit: in a log, every call of
    [sendSMS] comes after the successful COMMIT. *)
Definition commit_precedes_sms (evs : list event) : Prop :=
  ∀ i j to d,
    evs !! i = Some (SMS to d) → evs !! j = Some (Query COMMIT true) → (j < i)%nat.

(** A log holds a call of [sendSMS]. *)
Definition has_sms (evs : list event) : Prop := ∃ to d, SMS to d ∈ evs.

(** Since the log was [tr0] no COMMIT has succeeded, and what was logged
    since satisfies [P]. *)
Definition uncommitted (P : list event → Prop) (tr0 : list event) (w : world) : Prop :=
  ∃ evs, trace w = tr0 ++ evs ∧ (Query COMMIT true ∉ evs) ∧ P evs.

(** A successful request ends with its COMMIT: everything it logged, its
    calls of [sendSMS] among it, comes before the one successful COMMIT, and
    satisfies [P]. *)
Definition commits_last (P : list event → Prop) (tr0 : list event)
    (o : outcome response) (w' : world) : Prop :=
  ∀ resp, o = Returned resp → is_success resp = true →
  ∃ evs, trace w' = tr0 ++ evs ++ [Query COMMIT true]
         ∧ (Query COMMIT true ∉ evs) ∧ P evs.

(** [P] still holds of a log when more is logged. *)
Definition monotone (P : list event → Prop) : Prop :=
  ∀ evs evs', P evs → P (evs ++ evs').

(** ** The booking invariant *)

(** Two rows hold the same room for overlapping windows of one day. *)
Definition double_booked (r1 r2 : reservation) : Prop :=
  statut r1 = "active" ∧ statut r2 = "active"
  ∧ salle_id r1 = salle_id r2 ∧ date r1 = date r2
  ∧ overlap (heure_debut r1) (heure_fin r1) (heure_debut r2) (heure_fin r2) = true.

(** No two distinct rows of the table are double booked. *)
Definition no_double_booking (rs : list reservation) : Prop :=
  ∀ i j r1 r2, i ≠ j → rs !! i = Some r1 → rs !! j = Some r2 → ¬ double_booked r1 r2.

(** Every reservation is of a user and of a room of the database (the foreign
    keys of the table). *)
Definition referential_integrity (db : database) : Prop :=
  ∀ x, x ∈ reservations db →
       is_Some (utilisateurs db !! utilisateur_id x)
       ∧ is_Some (salles db !! salle_id x).

(** A database with the users [U] that satisfies the booking invariant. *)
Definition consistent (U : gmap Z utilisateur) (db : database) : Prop :=
  no_double_booking (reservations db) ∧ referential_integrity db ∧ utilisateurs db = U.

(** Both the durable database and the one the statements see are
    consistent. *)
Definition sound (U : gmap Z utilisateur) (w : world) : Prop :=
  consistent U (committed w) ∧ consistent U (current w).

(** No row of the table conflicts with the requested window. *)
Definition free_slot (value : request) (db : database) : Prop :=
  ∀ x, x ∈ reservations db →
       conflict_where (body_salle_id value) (body_date value)
         (body_heure_debut value) (body_heure_fin value) x = false.

(** The requested row can be inserted: the slot is free and the room exists. *)
Definition bookable (U : gmap Z utilisateur) (value : request) (db : database) : Prop :=
  consistent U db ∧ free_slot value db ∧ is_Some (salles db !! body_salle_id value).

Definition ready (U : gmap Z utilisateur) (value : request) (w : world) : Prop :=
  consistent U (committed w) ∧ bookable U value (current w).

(** The requests of the engine. *)
Inductive operation :=
  | Create (today now : Z) (user : principal) (value : request)
  | Priority (today now : Z) (user : principal) (value : request)
  | Cancel (now : Z) (user : principal) (reservationId : Z).

Definition run (op : operation) : M response :=
  match op with
  | Create today now user value => createReservation today now user value
  | Priority today now user value => createPriorityReservation today now user value
  | Cancel now user reservationId => cancelReservation now user reservationId
  end.

Definition requester (op : operation) : principal :=
  match op with
  | Create _ _ user _ | Priority _ _ user _ | Cancel _ user _ => user
  end.

(** The requester is a user of the database: what [authenticateToken]
    establishes before the handler runs. *)
Definition authenticated (op : operation) (w : world) : Prop :=
  is_Some (utilisateurs (current w) !! user_id (requester op)).

(** The surroundings change between two requests: other statements will
    fail, the gateway will answer differently. *)
Definition with_environment (faults : list bool) (g : nat → bool) (w : world) : world :=
  {| committed := committed w; transaction := transaction w;
     db_faults := faults; gateway := g;
     dispatched := dispatched w; trace := trace w |}.

(** The worlds reached from an empty table of reservations by requests run
    one after the other, whether they succeed or fail, in any surroundings. *)
Inductive reachable : world → Prop :=
  | reachable_initial w :
      transaction w = None → reservations (committed w) = [] → reachable w
  | reachable_request w op :
      reachable w → authenticated op w → reachable (run op w).2
  | reachable_environment w faults g :
      reachable w → reachable (with_environment faults g w).

(** ** The preconditions of a booking, in the words of the specification *)

Inductive booking_error :=
  | PastDateError
  | MinDurationError
  | RoomNotFoundError
  | RoomUnavailableError
  | SlotConflictError.

(** The response the HTTP layer gives for each error. *)
Definition error_response (e : booking_error) : response :=
  match e with
  | PastDateError => {| status := 400; json := ErrorBody msg_past |}
  | MinDurationError => {| status := 400; json := ErrorBody msg_duration |}
  | RoomNotFoundError => {| status := 404; json := ErrorBody msg_no_room |}
  | RoomUnavailableError => {| status := 400; json := ErrorBody msg_unavailable |}
  | SlotConflictError => {| status := 409; json := ErrorBody msg_conflict |}
  end.

(** Preconditions 1 to 4 of section 4.3, evaluated in order: the first one
    that fails, if any, and otherwise the room. The first is the comparison
    the handlers make, of the midnight UTC of the requested date with the
    local midnight [today] of the server. *)
Definition room_preconditions (today : Z) (db : database) (value : request)
    : booking_error + salle :=
  if utc_midnight (body_date value) <? today then inl PastDateError
  else if body_heure_fin value - body_heure_debut value <? 60 then inl MinDurationError
  else match salles db !! body_salle_id value with
       | None => inl RoomNotFoundError
       | Some room =>
           if String.eqb (salle_statut room) "disponible" then inr room
           else inl RoomUnavailableError
       end.

(** Precondition 5: an active reservation of the room on the date conflicts
    with the requested window. *)
Definition slot_taken (db : database) (value : request) : bool :=
  existsb
    (conflict_where (body_salle_id value) (body_date value)
       (body_heure_debut value) (body_heure_fin value))
    (reservations db).

(** The five preconditions in order: the first that fails, or the room. *)
Definition preconditions (today : Z) (db : database) (value : request)
    : booking_error + salle :=
  match room_preconditions today db value with
  | inl e => inl e
  | inr room => if slot_taken db value then inl SlotConflictError else inr room
  end.

(** The statements a booking has sent when it answers with an error: the
    checks after the failed one send none. *)
Definition statements_until (e : booking_error) : list statement :=
  match e with
  | PastDateError | MinDurationError => [BEGIN; ROLLBACK]
  | RoomNotFoundError | RoomUnavailableError => [BEGIN; SELECT_salle; ROLLBACK]
  | SlotConflictError => [BEGIN; SELECT_salle; SELECT_conflict; ROLLBACK]
  end.

(** The row a booking inserts. *)
Definition requested_row (now : Z) (db : database) (user : principal) (value : request)
    : reservation :=
  new_reservation now db (user_id user) (body_salle_id value) (body_date value)
    (body_heure_debut value) (body_heure_fin value) (body_motif value).

(** The database after a booking: the new row, and the notification of the
    requester. *)
Definition booked (now : Z) (db : database) (user : principal) (value : request)
    (smsStatus : bool) : database :=
  {| reservations := reservations db ++ [requested_row now db user value];
     reservations_id_seq := reservations_id_seq db + 1;
     salles := salles db;
     utilisateurs := utilisateurs db;
     notifications :=
       notifications db ++
       [ {| notification_utilisateur_id := user_id user;
            notification_reservation_id := reservations_id_seq db;
            notification_message_text := ReservationConfirmee;
            notification_type := if smsStatus then "sms_envoye" else "sms_echec";
            lu := false |} ] |}.

(** What [createReservation] does in the world [w], by the five
    preconditions: the error of the first one that fails, nothing stored and no
    statement sent for the checks after it; or, when all five hold, the row
    inserted as an active reservation and the response 201. *)
Definition checked_in_order (today now : Z) (user : principal) (value : request)
    (w : world) (o : outcome response) (w' : world) : Prop :=
  match preconditions today (committed w) value with
  | inl e =>
      o = Returned (error_response e)
      ∧ committed w' = committed w
      ∧ trace w' = trace w ++ map (λ s, Query s true) (statements_until e)
  | inr room =>
      ∃ smsStatus smsDetails notificationStatus,
        o = Returned
              {| status := 201;
                 json := ReservationCreee (requested_row now (committed w) user value)
                           (salle_nom room) (user_nom user)
                           smsStatus smsDetails notificationStatus |}
        ∧ reservations (committed w')
          = reservations (committed w) ++ [requested_row now (committed w) user value]
        ∧ statut (requested_row now (committed w) user value) = "active"
  end.

(** A booking whose dispatches fail is a booking all the same: the response
    is 201, the row is stored and committed, and [smsStatus] says whether an
    SMS was delivered, so it is false when the gateway accepts nothing. *)
Definition booked_whatever_the_dispatches (now : Z) (user : principal)
    (value : request) (room : salle) (w : world)
    (o : outcome response) (w' : world) : Prop :=
  ∃ smsStatus smsDetails evs,
    o = Returned
          {| status := 201;
             json := ReservationCreee (requested_row now (committed w) user value)
                       (salle_nom room) (user_nom user) smsStatus smsDetails true |}
    ∧ committed w' = booked now (committed w) user value smsStatus
    ∧ transaction w' = None
    ∧ trace w' = trace w ++ evs
    ∧ (smsStatus = true ↔ ∃ to, SMS to true ∈ evs)
    ∧ ((∀ k, gateway w k = false) → smsStatus = false).

(** ** The preconditions of a cancellation, in the words of the specification *)

Inductive cancel_error :=
  | NotFoundError
  | ForbiddenError
  | InvalidStateError.

Definition cancel_error_response (e : cancel_error) : response :=
  match e with
  | NotFoundError => {| status := 404; json := ErrorBody "Réservation non trouvée" |}
  | ForbiddenError => {| status := 403; json := ErrorBody "Accès non autorisé" |}
  | InvalidStateError =>
      {| status := 400; json := ErrorBody "Cette réservation ne peut pas être annulée" |}
  end.

(** The preconditions of section 4.6, evaluated in order: the reservation
    exists, the requester is its owner or an administrator, and it is active.
    The first one that fails, if any, and otherwise the reservation. *)
Definition cancel_preconditions (user : principal) (reservationId : Z) (db : database)
    : cancel_error + reservation :=
  match List.find (λ x, id x =? reservationId) (reservations db) with
  | None => inl NotFoundError
  | Some x =>
      if (utilisateur_id x =? user_id user) || String.eqb (user_role user) "admin"
      then if String.eqb (statut x) "active" then inr x else inl InvalidStateError
      else inl ForbiddenError
  end.

(** The database after the cancellation of [x]: its status and timestamp
    updated, and the notification of its owner recorded. *)
Definition cancelled (now : Z) (db : database) (x : reservation) (smsStatus : bool)
    : database :=
  {| reservations :=
       map (λ y, if id y =? id x then annuler now y else y) (reservations db);
     reservations_id_seq := reservations_id_seq db;
     salles := salles db;
     utilisateurs := utilisateurs db;
     notifications :=
       notifications db ++
       [ {| notification_utilisateur_id := utilisateur_id x;
            notification_reservation_id := id x;
            notification_message_text := ReservationAnnulee;
            notification_type := if smsStatus then "sms_envoye" else "sms_echec";
            lu := false |} ] |}.

(** What [cancelReservation] does in the world [w], by its three
    preconditions; the world it leaves has no fault to come and no open
    transaction. *)
Definition cancelled_in_order (now : Z) (user : principal) (reservationId : Z)
    (w : world) (o : outcome response) (w' : world) : Prop :=
  db_faults w' = [] ∧ transaction w' = None
  ∧ match cancel_preconditions user reservationId (committed w) with
    | inl e => o = Returned (cancel_error_response e) ∧ committed w' = committed w
    | inr x =>
        ∃ smsStatus,
          o = Returned {| status := 200;
                          json := ReservationAnnuleeAvecSucces smsStatus true |}
          ∧ committed w' = cancelled now (committed w) x smsStatus
    end.

(** ** The priority booking *)


(** What [createPriorityReservation] does when the preconditions 1 to 4 hold:
    every row the conflict condition selects is cancelled, the requested row is
    inserted as an active reservation, and the response counts the rows
    cancelled. *)
Definition preempted_and_booked (now : Z) (user : principal) (value : request)
    (room : salle) (w : world) (o : outcome response) (w' : world) : Prop :=
  let conflicting :=
    conflict_where (body_salle_id value) (body_date value)
      (body_heure_debut value) (body_heure_fin value) in
  ∃ smsStatus notificationStatus,
    o = Returned
          {| status := 201;
             json := ReservationPrioritaireCreee
                       (requested_row now (committed w) user value)
                       (salle_nom room) (user_nom user)
                       (length (List.filter conflicting (reservations (committed w))))
                       smsStatus notificationStatus |}
    ∧ reservations (committed w')
      = map (λ x, if conflicting x then annuler now x else x) (reservations (committed w))
        ++ [requested_row now (committed w) user value]
    ∧ statut (requested_row now (committed w) user value) = "active"
    ∧ transaction w' = None.

(** Since the log was [tr0], the calls of [sendSMS] had the outcomes
    [outs], in this order. *)
Definition sms_logged (tr0 : list event) (outs : list bool) (w : world) : Prop :=
  ∃ evs, trace w = tr0 ++ evs ∧ sms_outcomes evs = outs.

(** The [smsStatus] of a priority booking is the conjunction of the outcomes
    of the calls of [sendSMS] of the request, and there is one call for each
    preempted reservation and one more for the administrator. *)
Definition sms_status_is_conjunction (tr0 : list event)
    (o : outcome response) (w' : world) : Prop :=
  ∀ x nomSalle nomUtilisateur n smsStatus notificationStatus,
    o = Returned {| status := 201;
                    json := ReservationPrioritaireCreee x nomSalle nomUtilisateur n
                              smsStatus notificationStatus |} →
    ∃ evs, trace w' = tr0 ++ evs
           ∧ smsStatus = forallb (λ d, d) (sms_outcomes evs)
           ∧ length (sms_outcomes evs) = S n.

(** ** What the three requests leave alone *)

(** Both the durable database and the one the statements see satisfy [P]. *)
Definition throughout (P : database → Prop) (w : world) : Prop :=
  P (committed w) ∧ P (current w).

(** The rooms are [S] and the users are [U]. *)
Definition rooms_and_users (S : gmap Z salle) (U : gmap Z utilisateur) (db : database)
    : Prop :=
  salles db = S ∧ utilisateurs db = U.

(** The notifications [ns] are still the first rows of the table, as they
    were. *)
Definition audit_kept (ns : list notification) (db : database) : Prop :=
  ns `prefix_of` notifications db.

(** A row later on: as it was, or cancelled by the UPDATE of the handlers. *)
Definition evolved (r r' : reservation) : Prop :=
  r' = r ∨ ∃ now, r' = annuler now r.

(** Every row of [rs] is still in the table, at its place, as it was or
    cancelled. *)
Definition history_kept (rs : list reservation) (db : database) : Prop :=
  ∀ i r, rs !! i = Some r → ∃ r', reservations db !! i = Some r' ∧ evolved r r'.

(** Every reservation of the table lasts at least 60 minutes. *)
Definition long_enough (db : database) : Prop :=
  ∀ r, r ∈ reservations db → heure_debut r + 60 ≤ heure_fin r.

(** The booking of [value] in the world [w] is accepted: the response is
    201 with the requested row, and the row is added to the durable table. *)
Definition accepted (now : Z) (user : principal) (value : request) (room : salle)
    (w : world) (o : outcome response) (w' : world) : Prop :=
  ∃ smsStatus smsDetails,
    o = Returned
          {| status := 201;
             json := ReservationCreee (requested_row now (committed w) user value)
                       (salle_nom room) (user_nom user) smsStatus smsDetails true |}
    ∧ reservations (committed w')
      = reservations (committed w) ++ [requested_row now (committed w) user value].

(** An answer other than the internal error 500 comes with no transaction
    left open. *)
Definition answered_outside_transaction (o : outcome response) (w' : world) : Prop :=
  ∀ resp, o = Returned resp → status resp ≠ 500 → transaction w' = None.

(** ** The rollback of a failed request *)

(** The log has only grown since it was [tr0]. *)
Definition logged_since (tr0 : list event) (w : world) : Prop :=
  ∃ evs, trace w = tr0 ++ evs.

(** What a booking that fails leaves behind: the durable database as it was
    and, unless the BEGIN itself failed, a ROLLBACK as the last statement
    sent. When the ROLLBACK succeeded the transaction is closed; it did
    succeed whenever the answer is not the internal error 500. *)
Definition rollback_sent (w : world) (o : outcome response) (w' : world) : Prop :=
  failed o →
  committed w' = committed w
  ∧ (trace w' = trace w ++ [Query BEGIN false]
     ∨ ∃ evs ok,
         trace w' = trace w ++ evs ++ [Query ROLLBACK ok]
         ∧ (ok = true → transaction w' = None)
         ∧ (∀ resp, o = Returned resp → status resp ≠ 500 → ok = true)).

(** What a cancellation that fails leaves behind: the durable database as
    it was, and when the request is answered (with one of the three refusals)
    a successful ROLLBACK as the last statement sent and no transaction
    open. *)
Definition refusal_rolled_back (w : world) (o : outcome response) (w' : world) : Prop :=
  (failed o → committed w' = committed w)
  ∧ ∀ resp, o = Returned resp → is_success resp = false →
      transaction w' = None
      ∧ ∃ evs, trace w' = trace w ++ evs ++ [Query ROLLBACK true].

(** The part of [rollback_sent] that is about the log and the transaction. *)
Definition rollback_logged (w : world) (o : outcome response) (w' : world) : Prop :=
  failed o →
  trace w' = trace w ++ [Query BEGIN false]
  ∨ ∃ evs ok,
      trace w' = trace w ++ evs ++ [Query ROLLBACK ok]
      ∧ (ok = true → transaction w' = None)
      ∧ (∀ resp, o = Returned resp → status resp ≠ 500 → ok = true).


(** ** The checks of a booking as the specification words them *)

(** Precondition 5 in the words of the specification: an active reservation
    of the room on the date overlaps the requested window. *)
Definition slot_overlaps (db : database) (value : request) : bool :=
  existsb
    (λ r, (salle_id r =? body_salle_id value) && (date r =? body_date value)
          && String.eqb (statut r) "active"
          && overlap (heure_debut r) (heure_fin r)
               (body_heure_debut value) (body_heure_fin value))
    (reservations db).

(** The five preconditions of section 4.3 in the words of the
    specification, on the calendar day [jour] of the server: the first that
    fails, or the room. The first is that the date is not strictly before
    the current calendar day. *)
Definition claimed_preconditions (jour : Z) (db : database) (value : request)
    : booking_error + salle :=
  if body_date value <? jour then inl PastDateError
  else if body_heure_fin value - body_heure_debut value <? 60 then inl MinDurationError
  else match salles db !! body_salle_id value with
       | None => inl RoomNotFoundError
       | Some room =>
           if String.eqb (salle_statut room) "disponible"
           then if slot_overlaps db value then inl SlotConflictError else inr room
           else inl RoomUnavailableError
       end.

(** What [createReservation] does in the world [w] by the preconditions
    as the specification words them, on the calendar day [jour]. *)
Definition checked_as_claimed (jour now : Z) (user : principal) (value : request)
    (w : world) (o : outcome response) (w' : world) : Prop :=
  match claimed_preconditions jour (committed w) value with
  | inl e =>
      o = Returned (error_response e)
      ∧ committed w' = committed w
      ∧ trace w' = trace w ++ map (λ s, Query s true) (statements_until e)
  | inr room =>
      ∃ smsStatus smsDetails notificationStatus,
        o = Returned
              {| status := 201;
                 json := ReservationCreee (requested_row now (committed w) user value)
                           (salle_nom room) (user_nom user)
                           smsStatus smsDetails notificationStatus |}
        ∧ reservations (committed w')
          = reservations (committed w) ++ [requested_row now (committed w) user value]
        ∧ statut (requested_row now (committed w) user value) = "active"
  end.

(** ** The notifications of a priority booking and of a cancellation *)

(** The recipients of the calls of [sendSMS] in a log. *)
Fixpoint sms_recipients (evs : list event) : list (option string) :=
  match evs with
  | [] => []
  | SMS to _ :: rest => to :: sms_recipients rest
  | Query _ _ :: rest => sms_recipients rest
  end.

(** The [type] of a notification says whether its SMS was delivered. *)
Definition sms_type (sent : bool) : string :=
  if sent then "sms_envoye" else "sms_echec".

(** Whom a notification is for, the reservation it is about, and its text. *)
Definition subject (n : notification) : Z * Z * notification_message :=
  (notification_utilisateur_id n, notification_reservation_id n,
   notification_message_text n).

(** The telephone number of the owner of a reservation. *)
Definition owner_telephone (db : database) (x : reservation) : option string :=
  match utilisateurs db !! utilisateur_id x with
  | Some u => utilisateur_telephone u
  | None => None
  end.

(** What a priority booking sends and records: an SMS to the owner of each
    reservation it cancels and then one to the requester, and for each SMS,
    in the same order, an unread notification whose [type] says whether the
    SMS was delivered. *)
Definition preemptions_notified (user : principal) (value : request) (w : world)
    (o : outcome response) (w' : world) : Prop :=
  let preempted :=
    List.filter
      (conflict_where (body_salle_id value) (body_date value)
         (body_heure_debut value) (body_heure_fin value))
      (reservations (committed w)) in
  ∃ news evs,
    notifications (committed w') = notifications (committed w) ++ news
    ∧ trace w' = trace w ++ evs
    ∧ sms_recipients evs
      = map (owner_telephone (committed w)) preempted ++ [user_telephone user]
    ∧ map subject news
      = map (λ x, (utilisateur_id x, id x, ReservationAnnuleePrioritaire)) preempted
        ++ [(user_id user, reservations_id_seq (committed w),
             ReservationPrioritaireConfirmee)]
    ∧ map notification_type news = map sms_type (sms_outcomes evs)
    ∧ Forall (λ n, lu n = false) news.

(** What the cancellation of [x] sends and records: one SMS, to the
    telephone number of the owner of [x], between the UPDATE and the
    notification of the owner, whose [type] and the [smsStatus] of the answer
    say whether the SMS was delivered. *)
Definition cancellation_notified (now : Z) (x : reservation) (w : world)
    (o : outcome response) (w' : world) : Prop :=
  ∃ sent,
    o = Returned {| status := 200; json := ReservationAnnuleeAvecSucces sent true |}
    ∧ trace w'
      = trace w ++ [Query BEGIN true; Query SELECT_reservation_joined true;
                    Query UPDATE_statut true;
                    SMS (owner_telephone (committed w) x) sent;
                    Query INSERT_notification true; Query COMMIT true]
    ∧ committed w' = cancelled now (committed w) x sent.

(** ** The times of day of a request *)

(** The regular expressions of the schema: a character in a range, a
    sequence, an alternative, an optional part. *)
Inductive regex :=
  | Range (lo hi : ascii)
  | Seq (r1 r2 : regex)
  | Alt (r1 r2 : regex)
  | Opt (r : regex).

Definition in_range (lo hi c : ascii) : bool :=
  ((nat_of_ascii lo <=? nat_of_ascii c) && (nat_of_ascii c <=? nat_of_ascii hi))%nat.

(** Matching by backtracking: [k] is what is left to match after [r]. *)
Fixpoint match_regex (r : regex) (s : list ascii) (k : list ascii → bool) : bool :=
  match r with
  | Range lo hi =>
      match s with
      | c :: rest => in_range lo hi c && k rest
      | [] => false
      end
  | Seq r1 r2 => match_regex r1 s (λ rest, match_regex r2 rest k)
  | Alt r1 r2 => match_regex r1 s k || match_regex r2 s k
  | Opt r1 => match_regex r1 s k || k s
  end.

(** [/^r$/.test(s)] *)
Definition test (r : regex) (s : string) : bool :=
  match_regex r (list_ascii_of_string s)
    (λ rest, match rest with [] => true | _ :: _ => false end).

(** [/^([0-1]?[0-9]|2[0-3]):[0-5][0-9]$/], the pattern of [heure_debut] and
    [heure_fin] in [reservationSchema]. *)
Definition heure_pattern : regex :=
  Seq (Alt (Seq (Opt (Range "0" "1")) (Range "0" "9"))
           (Seq (Range "2" "2") (Range "0" "3")))
      (Seq (Range ":" ":") (Seq (Range "0" "5") (Range "0" "9"))).

(** [s.split(sep)] for a separator of one character. *)
Fixpoint split_string (sep : ascii) (s : list ascii) : list (list ascii) :=
  match s with
  | [] => [[]]
  | c :: rest =>
      if Ascii.eqb c sep then [] :: split_string sep rest
      else match split_string sep rest with
           | part :: parts => (c :: part) :: parts
           | [] => [[c]]
           end
  end.

(** The number written by the leading decimal digits of [s], after [acc];
    nothing when there is no digit. *)
Fixpoint leading_digits (acc : option Z) (s : list ascii) : option Z :=
  match s with
  | c :: rest =>
      if is_digit c
      then leading_digits (Some (10 * default 0 acc + (Z.of_nat (nat_of_ascii c) - 48))) rest
      else acc
  | [] => acc
  end.

(** [parseInt(s)] for an [s] that starts with neither white space, nor a
    sign, nor [0x], which the pattern excludes: the number written by the
    leading decimal digits, and NaN, here [None], when [s] is undefined or
    starts with no digit. *)
Definition parseInt (s : option (list ascii)) : option Z :=
  match s with
  | Some s => leading_digits None s
  | None => None
  end.

(** [parseInt(h.split(':')[0]) * 60 + parseInt(h.split(':')[1])]; NaN when
    one of the two numbers is. *)
Definition minutes_of (heure : string) : option Z :=
  let parts := split_string ":" (list_ascii_of_string heure) in
  match parseInt (parts !! 0%nat), parseInt (parts !! 1%nat) with
  | Some h, Some m => Some (h * 60 + m)
  | _, _ => None
  end.

(** The character of a decimal digit. *)
Definition digit (n : Z) : ascii := ascii_of_nat (48 + Z.to_nat n).

(** The minute [t] of the day written [HH:MM], with two digits for the hour
    and two for the minute. *)
Definition write_heure (t : Z) : string :=
  string_of_list_ascii
    [digit (t / 60 / 10); digit (t / 60 mod 10); ":"%char;
     digit (t mod 60 / 10); digit (t mod 60 mod 10)].

(** ** The listings *)

(** What a listing answers: [res.json(a)], with the status 200, or
    [res.status(status).json({ error })]. *)
Inductive reply (A : Type) :=
  | Json (a : A)
  | Failure (status : Z) (error : string).
Arguments Json {A} a.
Arguments Failure {A} status error.

(** [pool.query] of a SELECT of the listings: it fails when the storage says
    so and otherwise reads the current database, which it leaves as it is. The
    log, which records the statements of the three booking requests, has no
    entry for it. *)
Definition pool_read {A} (rows : database → A) : M A := λ w,
  let '(fault, w1) := next_fault w in
  if fault then (Thrown DatabaseError, w1) else (Returned (rows (current w1)), w1).

(** [ORDER BY r.date DESC, r.heure_debut DESC] on the pairs of a date and a
    start: the first may come before the second. *)
Definition latest_first (k1 k2 : Z * Z) : Prop :=
  k2.1 < k1.1 ∨ (k1.1 = k2.1 ∧ k2.2 ≤ k1.2).

(** A row of [GET /mes-reservations]; the capacity of the room, a column of
    [salles] the embedding does not carry, is left out. *)
Record own_reservation := OwnReservation {
  own_id : Z;
  own_date : Z;
  own_heure_debut : Z;
  own_heure_fin : Z;
  own_motif : option string;
  own_statut : string;
  own_created_at : Z;
  own_salle_nom : string
}.

(** The row of [reservations r JOIN salles s ON r.salle_id = s.id] for one
    reservation, if its room exists. *)
Definition own_row (db : database) (r : reservation) : option own_reservation :=
  match salles db !! salle_id r with
  | Some s =>
      Some {| own_id := id r; own_date := date r; own_heure_debut := heure_debut r;
              own_heure_fin := heure_fin r; own_motif := motif r;
              own_statut := statut r; own_created_at := created_at r;
              own_salle_nom := salle_nom s |}
  | None => None
  end.

Definition own_order (o1 o2 : own_reservation) : Prop :=
  latest_first (own_date o1, own_heure_debut o1) (own_date o2, own_heure_debut o2).

#[export] Instance own_order_dec o1 o2 : Decision (own_order o1 o2).
Proof. unfold own_order, latest_first. apply _. Defined.

(** [SELECT ... FROM reservations r JOIN salles s ON r.salle_id = s.id
    WHERE r.utilisateur_id = $1 ORDER BY r.date DESC, r.heure_debut DESC].
    Rows with the same date and start are returned in an order PostgreSQL
    does not specify; here it is the order of the merge sort. *)
Definition select_mes_reservations (idUtilisateur : Z) (db : database)
    : list own_reservation :=
  merge_sort own_order
    (omap (own_row db)
       (List.filter (λ r, utilisateur_id r =? idUtilisateur) (reservations db))).

(** [router.get('/mes-reservations')] *)
Definition mesReservations (user : principal) : M (reply (list own_reservation)) :=
  try_catch
    (let* result := pool_read (select_mes_reservations (user_id user)) in
     ret (Json result))
    (λ error, ret (Failure 500 msg_internal)).

(** A row of [GET /all]: the columns of a row of [GET /mes-reservations]
    and the name and telephone number of the user; the e-mail address of the
    user, a column the embedding does not carry, is left out. *)
Record listed_reservation := ListedReservation {
  listed : own_reservation;
  listed_utilisateur_nom : string;
  listed_utilisateur_telephone : option string
}.

(** The row of the two inner joins for one reservation, if its user and its
    room exist. *)
Definition listed_row (db : database) (r : reservation) : option listed_reservation :=
  match utilisateurs db !! utilisateur_id r, own_row db r with
  | Some u, Some o =>
      Some {| listed := o; listed_utilisateur_nom := utilisateur_nom u;
              listed_utilisateur_telephone := utilisateur_telephone u |}
  | _, _ => None
  end.

Definition listed_order (l1 l2 : listed_reservation) : Prop :=
  own_order (listed l1) (listed l2).

#[export] Instance listed_order_dec l1 l2 : Decision (listed_order l1 l2).
Proof. unfold listed_order. apply _. Defined.

(** [SELECT ... FROM reservations r JOIN utilisateurs u ON r.utilisateur_id = u.id
    JOIN salles s ON r.salle_id = s.id ORDER BY r.date DESC, r.heure_debut DESC] *)
Definition select_all (db : database) : list listed_reservation :=
  merge_sort listed_order (omap (listed_row db) (reservations db)).

(** [router.get('/all')], after [requireAdmin]. *)
Definition allReservations : M (reply (list listed_reservation)) :=
  try_catch
    (let* result := pool_read select_all in
     ret (Json result))
    (λ error, ret (Failure 500 msg_internal)).

(** The row of [GET /stats] with the five counts. *)
Record statistiques := Statistiques {
  total_reservations : nat;
  reservations_actives : nat;
  reservations_annulees : nat;
  reservations_futures : nat;
  reservations_aujourd_hui : nat
}.

(** The count of the rows that satisfy the condition of a [FILTER (WHERE ...)]. *)
Definition count_filter (where_ : reservation → bool) (db : database) : nat :=
  length (List.filter where_ (reservations db)).

(** The five counts of the first query of [GET /stats] over
    [reservations]: all the rows, and the rows [WHERE statut = 'active'],
    [WHERE statut = 'annulee'], [WHERE date >= CURRENT_DATE] and
    [WHERE date = CURRENT_DATE]; [today] is CURRENT_DATE. *)
Definition select_statistiques (today : Z) (db : database) : statistiques :=
  {| total_reservations := length (reservations db);
     reservations_actives := count_filter (λ r, String.eqb (statut r) "active") db;
     reservations_annulees := count_filter (λ r, String.eqb (statut r) "annulee") db;
     reservations_futures := count_filter (λ r, date r >=? today) db;
     reservations_aujourd_hui := count_filter (λ r, date r =? today) db |}.

(** A row of [salles_populaires]. *)
Record salle_populaire := SallePopulaire {
  nom : string;
  nombre_reservations : nat
}.

(** The group of one room in [salles s LEFT JOIN reservations r
    ON s.id = r.salle_id GROUP BY s.id, s.nom]: [COUNT(r.id)] counts the
    reservations of the room, whatever their status, and is 0 for a room
    without any. *)
Definition popularite (db : database) (s : Z * salle) : salle_populaire :=
  {| nom := salle_nom s.2;
     nombre_reservations := count_filter (λ r, salle_id r =? s.1) db |}.

Definition most_reserved_first (p1 p2 : salle_populaire) : Prop :=
  (nombre_reservations p2 ≤ nombre_reservations p1)%nat.

#[export] Instance most_reserved_first_dec p1 p2 : Decision (most_reserved_first p1 p2).
Proof. unfold most_reserved_first. apply _. Defined.

(** [... ORDER BY nombre_reservations DESC LIMIT 5] *)
Definition select_salles_populaires (db : database) : list salle_populaire :=
  take 5 (merge_sort most_reserved_first (popularite db <$> map_to_list (salles db))).

(** [router.get('/stats')], after [requireAdmin]. *)
Definition stats (today : Z) : M (reply (statistiques * list salle_populaire)) :=
  try_catch
    (let* stats_ := pool_read (select_statistiques today) in
     let* sallesPopulaires := pool_read select_salles_populaires in
     ret (Json (stats_, sallesPopulaires)))
    (λ error, ret (Failure 500 msg_internal)).

(** ** Sample data *)

(** The local midnight of day 10 on a server whose clock is an hour ahead of
    UTC. *)
Definition today_10 : Z := local_midnight 10 60.

(** Two rooms, one of them out of service; Alice, an administrator with a
    well-formed number, and Bob, a member whose number is not in the
    international format. *)

Definition salle_A : salle := {| salle_nom := "A"; salle_statut := "disponible" |}.
Definition salle_B : salle := {| salle_nom := "B"; salle_statut := "maintenance" |}.
Definition alice : utilisateur :=
  {| utilisateur_nom := "Alice"; utilisateur_telephone := Some "+237677865607" |}.
Definition bob : utilisateur :=
  {| utilisateur_nom := "Bob"; utilisateur_telephone := Some "0677" |}.

Definition db0 : database :=
  {| reservations := [];
     reservations_id_seq := 1;
     salles := <[1 := salle_A]> (<[2 := salle_B]> ∅);
     utilisateurs := <[1 := alice]> (<[2 := bob]> ∅);
     notifications := [] |}.

Definition world0 (faults : list bool) (g : nat → bool) : world :=
  {| committed := db0; transaction := None; db_faults := faults;
     gateway := g; dispatched := 0; trace := [] |}.

(** The sample database with one active reservation, of Alice, of room 1 on
    day 10 from 9:00 to 10:00. *)
Definition db1 : database :=
  {| reservations :=
       [ {| id := 1; utilisateur_id := 1; salle_id := 1; date := 10;
            heure_debut := 540; heure_fin := 600; motif := None;
            statut := "active"; created_at := 100; updated_at := 100 |} ];
     reservations_id_seq := 2;
     salles := <[1 := salle_A]> (<[2 := salle_B]> ∅);
     utilisateurs := <[1 := alice]> (<[2 := bob]> ∅);
     notifications := [] |}.

Definition world1 : world :=
  {| committed := db1; transaction := None; db_faults := [];
     gateway := λ _, true; dispatched := 0; trace := [] |}.

(** The world of [world1] in which the fifth statement sent fails. *)
Definition world1_commit_fails : world :=
  {| committed := db1; transaction := None;
     db_faults := [false; false; false; false; true];
     gateway := λ _, true; dispatched := 0; trace := [] |}.

Definition p_alice : principal :=
  {| user_id := 1; user_nom := "Alice"; user_telephone := Some "+237677865607";
     user_role := "admin" |}.
Definition p_bob : principal :=
  {| user_id := 2; user_nom := "Bob"; user_telephone := Some "0677";
     user_role := "user" |}.

Definition booking (idSalle jour debut fin : Z) : request :=
  {| body_salle_id := idSalle; body_date := jour; body_heure_debut := debut;
     body_heure_fin := fin; body_motif := None |}.

(** A reservation of Bob, of room 1 on day 10 from 9:00 to 10:00. *)
Definition nine_to_ten : reservation :=
  {| id := 1; utilisateur_id := 2; salle_id := 1; date := 10;
     heure_debut := 540; heure_fin := 600; motif := None; statut := "active";
     created_at := 100; updated_at := 100 |}.

(** The world after Bob has booked room 1 on day 10 from 9:00 to 10:00 in
    the sample database. *)
Definition after_first_booking : world :=
  (createReservation today_10 100 p_bob (booking 1 10 540 600) (world0 [] (λ _, true))).2.

(** The status of the response, 0 when there is none. *)
Definition status_code (o : outcome response) : Z :=
  match o with
  | Returned resp => status resp
  | Thrown _ => 0
  end.
(** * Properties *)

(** ** The conflict predicate *)

Lemma conflict_clause_first r p3 p4 :
  overlap (heure_debut r) (heure_fin r) p3 p4 = true → conflict_clause r p3 p4 = true.
Proof.
  unfold overlap, conflict_clause. intros H.
  rewrite Z.gtb_ltb, H. reflexivity.
Qed.

Lemma conflict_clause_overlap r p3 p4 :
  heure_debut r < heure_fin r → p3 < p4 →
  conflict_clause r p3 p4 = overlap (heure_debut r) (heure_fin r) p3 p4.
Proof.
  intros Hr Hp. unfold conflict_clause, overlap.
  rewrite !Z.gtb_ltb, Z.geb_leb.
  destruct (Z.ltb_spec (heure_debut r) p4), (Z.ltb_spec p3 (heure_fin r)),
    (Z.ltb_spec p4 (heure_fin r)), (Z.leb_spec p3 (heure_debut r));
    simpl; try reflexivity; lia.
Qed.

Lemma priority_conflict_where_eq p1 p2 p3 p4 r :
  priority_conflict_where p1 p2 p3 p4 r = conflict_where p1 p2 p3 p4 r.
Proof. reflexivity. Qed.

(** C4. The three-clause condition evaluated by [checkReservationConflict]
    and, written out again, by the priority handler is one and the same
    condition, and for an existing window and a requested window of positive
    duration it holds exactly when the two half-open windows overlap
    ([s1 < e2] and [s2 < e1]); two windows that merely touch are not a
    conflict. *)
Theorem conflict_predicate_is_half_open_overlap (r : reservation) (p1 p2 p3 p4 : Z) :
  heure_debut r < heure_fin r → p3 < p4 →
  conflict_clause r p3 p4 = overlap (heure_debut r) (heure_fin r) p3 p4
  ∧ (conflict_clause r p3 p4 = true ↔ heure_debut r < p4 ∧ p3 < heure_fin r)
  ∧ priority_conflict_where p1 p2 p3 p4 r = conflict_where p1 p2 p3 p4 r
  ∧ (conflict_where p1 p2 p3 p4 r = true ↔
       salle_id r = p1 ∧ date r = p2 ∧ statut r = "active"
       ∧ heure_debut r < p4 ∧ p3 < heure_fin r)
  ∧ (heure_fin r = p3 ∨ heure_debut r = p4 → conflict_clause r p3 p4 = false).
Proof.
  intros Hr Hp.
  pose proof (conflict_clause_overlap r p3 p4 Hr Hp) as Heq.
  assert (Hiff : conflict_clause r p3 p4 = true ↔ heure_debut r < p4 ∧ p3 < heure_fin r).
  { rewrite Heq. unfold overlap. rewrite andb_true_iff, !Z.ltb_lt. tauto. }
  split; [exact Heq|]. split; [exact Hiff|]. split; [reflexivity|]. split.
  - unfold conflict_where. rewrite !andb_true_iff, !Z.eqb_eq, String.eqb_eq, Hiff.
    tauto.
  - intros Htouch. apply not_true_is_false. intros E. apply Hiff in E. lia.
Qed.

Lemma conflict_predicate_is_half_open_overlap_witness :
  conflict_clause nine_to_ten 570 630 = overlap 540 600 570 630
  ∧ conflict_clause nine_to_ten 600 660 = false.
Proof.
  pose proof (conflict_predicate_is_half_open_overlap nine_to_ten 1 10 570 630
                ltac:(simpl; lia) ltac:(lia)) as (H1 & _).
  pose proof (conflict_predicate_is_half_open_overlap nine_to_ten 1 10 600 660
                ltac:(simpl; lia) ltac:(lia)) as (_ & _ & _ & _ & H5).
  split; [exact H1 | apply H5; left; reflexivity].
Defined.

(** ** [sendSMS] and the roster fan-out *)

Lemma sms_outcomes_app evs1 evs2 :
  sms_outcomes (evs1 ++ evs2) = sms_outcomes evs1 ++ sms_outcomes evs2.
Proof.
  induction evs1 as [|[s ok|to d] evs1 IH]; simpl; [reflexivity|exact IH|].
  now rewrite IH.
Qed.

Lemma sms_outcomes_map_sms_event rs :
  sms_outcomes (map sms_event rs) = map success rs.
Proof. induction rs as [|x rs IH]; simpl; [reflexivity|now rewrite IH]. Qed.

Lemma after_sms_0 w : after_sms 0 [] w = w.
Proof. destruct w. unfold after_sms. simpl. now rewrite app_nil_r. Qed.

Lemma after_sms_after_sms n1 evs1 n2 evs2 w :
  after_sms n2 evs2 (after_sms n1 evs1 w) = after_sms (n2 + n1) (evs1 ++ evs2) w.
Proof.
  unfold after_sms. simpl. f_equal; [lia|]. now rewrite app_assoc.
Qed.

(** [sendSMS] returns in every world, with the outcome [delivered]. *)
Lemma sendSMS_run to message w :
  ∃ res,
    sendSMS to message w
    = (Returned res, after_sms (if well_formed to then 1 else 0) [sms_event res] w)
    ∧ success res = delivered to w ∧ sms_to res = to.
Proof.
  unfold delivered.
  destruct to as [number|]; simpl.
  - unfold sendSMS, try_catch, bind. simpl.
    destruct (matches_international number) eqn:Hm; simpl.
    + unfold ret at 1. unfold messages_create.
      destruct (gateway w (dispatched w)) eqn:Hg; simpl.
      * exists {| success := true; sms_error := None; sms_to := Some number;
                  sms_message := message |}.
        repeat split.
      * exists {| success := false; sms_error := Some RestException;
                  sms_to := Some number; sms_message := message |}.
        repeat split.
    + eexists {| success := false; sms_error := Some (Error _);
                 sms_to := Some number; sms_message := message |}.
      repeat split.
  - exists {| success := false; sms_error := Some TypeError; sms_to := None;
              sms_message := message |}.
    repeat split.
Qed.

(** The fan-out over a list of users: one result per user, in order, each
    logged; the storage is not touched, and a success is a message the
    gateway accepted. *)
Lemma promise_all_map_sendSMS message users w :
  ∃ rs n,
    promise_all_map (λ user, sendSMS (utilisateur_telephone user) message) users w
    = (Returned rs, after_sms n (map sms_event rs) w)
    ∧ map sms_to rs = map utilisateur_telephone users
    ∧ (existsb success rs = true → ∃ k, gateway w k = true).
Proof.
  revert w. induction users as [|u users IH]; intros w; simpl.
  - exists [], 0%nat. unfold ret. simpl. rewrite after_sms_0.
    split; [reflexivity|]. split; [reflexivity|discriminate].
  - destruct (sendSMS_run (utilisateur_telephone u) message w) as (res & Hres & Hs & Hto).
    unfold bind at 1. rewrite Hres.
    destruct (IH (after_sms (if well_formed (utilisateur_telephone u) then 1 else 0)
                    [sms_event res] w)) as (rs & n & Hrs & Htos & Hgw).
    unfold bind at 1. rewrite Hrs. unfold ret.
    eexists (res :: rs), _. rewrite after_sms_after_sms. simpl.
    split; [reflexivity|]. split; [now rewrite Hto, Htos|].
    intros H. apply orb_true_iff in H as [H|H].
    + rewrite Hs in H. unfold delivered in H. apply andb_true_iff in H as [_ H]. eauto.
    + exact (Hgw H).
Qed.

Lemma filter_success_positive (rs : list sms_result) :
  (0 <? length (List.filter success rs))%nat = existsb success rs.
Proof.
  induction rs as [|x rs IH]; simpl; [reflexivity|].
  destruct (success x); simpl; [reflexivity|exact IH].
Qed.

Lemma existsb_sms_delivered (evs : list event) :
  existsb (λ d, d) (sms_outcomes evs) = true ↔ ∃ to, SMS to true ∈ evs.
Proof.
  induction evs as [|[s ok|to d] evs IH]; simpl.
  - split; [discriminate|]. intros (to & H). inversion H.
  - rewrite IH. split; intros (to & H); exists to.
    + now apply list_elem_of_further.
    + inversion H; subst; assumption.
  - destruct d; simpl.
    + split; [|reflexivity]. intros _. exists to. apply list_elem_of_here.
    + rewrite IH. split; intros (to' & H); exists to'.
      * now apply list_elem_of_further.
      * inversion H; subst; assumption.
Qed.

Lemma store_current w : store (current w) w = w.
Proof. destruct w as [c [d|] f g n tr]; reflexivity. Qed.

Lemma log_after_sms e w : log e w = after_sms 0 [e] w.
Proof. reflexivity. Qed.

(** [sendReservationSMS] returns in every world: it consumes the fate of one
    statement (the roster query), leaves the storage as it is, and its flag
    is true exactly when one of its results is a success. *)
Lemma sendReservationSMS_run nomSalle jour heureDebut heureFin w :
  ∃ rr n,
    sendReservationSMS nomSalle jour heureDebut heureFin w
    = (Returned rr,
       after_sms n
         (Query SELECT_utilisateurs (negb (next_fault w).1) :: map sms_event (results rr))
         (next_fault w).2)
    ∧ roster_success rr = existsb success (results rr)
    ∧ ((next_fault w).1 = true → results rr = [] ∧ summary rr = None)
    ∧ (roster_success rr = true → ∃ k, gateway w k = true).
Proof.
  unfold sendReservationSMS, try_catch, bind, select_utilisateurs, pool_query.
  destruct (next_fault w) as [[|] w1] eqn:Hf; simpl.
  - exists {| roster_success := false; roster_error := Some "query failed";
              results := []; summary := None |}, 0%nat.
    repeat split. discriminate.
  - rewrite store_current.
    assert (Hg : gateway w1 = gateway w) by (injection Hf as _ <-; reflexivity).
    destruct ((map_to_list (utilisateurs (current w1))).*2) as [|u users] eqn:Hu.
    + exists {| roster_success := false; roster_error := Some "Aucun utilisateur trouvé";
                results := []; summary := None |}, 0%nat.
      repeat split; discriminate.
    + destruct (promise_all_map_sendSMS
                  (NouvelleReservation nomSalle jour heureDebut heureFin) (u :: users)
                  (log (Query SELECT_utilisateurs true) w1)) as (rs & n & Hrs & _ & Hgw).
      rewrite Hrs. unfold ret.
      eexists (RosterResult _ _ rs _), n.
      rewrite log_after_sms, after_sms_after_sms, Nat.add_0_r. simpl.
      split; [reflexivity|].
      split; [apply filter_success_positive|]. split; [discriminate|].
      rewrite filter_success_positive. simpl in Hgw. now rewrite <- Hg.
Qed.

(** C9. [sendSMS] never throws: for every recipient, every message and every
    world it returns an object whose [success] field is a boolean, false
    whenever the recipient is absent or does not match the international
    format, and otherwise the answer of the gateway. [sendReservationSMS]
    never throws either and returns an object with such a field, false with no
    results when the query of the user roster fails. *)
Theorem sendSMS_never_throws (to : option string) (message : sms_text) (w : world) :
  (∃ res,
     (sendSMS to message w).1 = Returned res
     ∧ success res = delivered to w
     ∧ (well_formed to = false → success res = false))
  ∧ ∀ nomSalle jour heureDebut heureFin,
      ∃ rr,
        (sendReservationSMS nomSalle jour heureDebut heureFin w).1 = Returned rr
        ∧ (head (db_faults w) = Some true →
           roster_success rr = false ∧ results rr = []).
Proof.
  split.
  - destruct (sendSMS_run to message w) as (res & Hres & Hs & _).
    exists res. rewrite Hres. split; [reflexivity|]. split; [exact Hs|].
    intros Hwf. rewrite Hs. unfold delivered. now rewrite Hwf.
  - intros nomSalle jour heureDebut heureFin.
    destruct (sendReservationSMS_run nomSalle jour heureDebut heureFin w)
      as (rr & n & Hrr & Hflag & Hfail & _).
    exists rr. rewrite Hrr. split; [reflexivity|].
    intros Hhead.
    assert (Hf : (next_fault w).1 = true).
    { unfold next_fault. destruct (db_faults w) as [|b script]; [discriminate|].
      simpl in *. congruence. }
    destruct (Hfail Hf) as [Hnil _]. rewrite Hflag, Hnil. split; reflexivity.
Qed.

(** The flag [sendReservationSMS] returns is true if and only if one of the
    calls of [sendSMS] it made was delivered. *)
Lemma sendReservationSMS_success_iff nomSalle jour heureDebut heureFin w :
  ∃ rr evs,
    (sendReservationSMS nomSalle jour heureDebut heureFin w).1 = Returned rr
    ∧ trace (sendReservationSMS nomSalle jour heureDebut heureFin w).2 = trace w ++ evs
    ∧ sms_outcomes evs = map success (results rr)
    ∧ (roster_success rr = true ↔ ∃ to, SMS to true ∈ evs).
Proof.
  destruct (sendReservationSMS_run nomSalle jour heureDebut heureFin w)
    as (rr & n & Hrr & Hflag & _ & _).
  exists rr. eexists. rewrite Hrr. split; [reflexivity|].
  split.
  { reflexivity. }
  split; [simpl; apply sms_outcomes_map_sms_event|].
  rewrite <- existsb_sms_delivered. simpl. rewrite sms_outcomes_map_sms_event, Hflag.
  clear. induction (results rr) as [|x rs IH]; simpl; [tauto|].
  destruct (success x); simpl; tauto.
Qed.

(** ** Rules of the program logic *)

Section Rules.
Context {A B : Type}.
Implicit Types (m : M A) (k : A → M B) (w : world).

Lemma wp_ret (a : A) (Q : outcome A → world → Prop) w :
  Q (Returned a) w → wp (ret a) Q w.
Proof. exact (λ H, H). Qed.

Lemma wp_throw (e : exn) (Q : outcome A → world → Prop) w :
  Q (Thrown e) w → wp (throw e) Q w.
Proof. exact (λ H, H). Qed.

Lemma wp_bind m k (Q : outcome B → world → Prop) w :
  wp m (λ o w', match o with
                | Returned a => wp (k a) Q w'
                | Thrown e => Q (Thrown e) w'
                end) w →
  wp (bind m k) Q w.
Proof. unfold wp, bind. destruct (m w) as [[a|e] w']; exact (λ H, H). Qed.

Lemma wp_try m (h : exn → M A) (Q : outcome A → world → Prop) w :
  wp m (λ o w', match o with
                | Returned a => Q (Returned a) w'
                | Thrown e => wp (h e) Q w'
                end) w →
  wp (try_catch m h) Q w.
Proof. unfold wp, try_catch. destruct (m w) as [[a|e] w']; exact (λ H, H). Qed.

Lemma wp_mono m (Q Q' : outcome A → world → Prop) w :
  wp m Q w → (∀ o w', Q o w' → Q' o w') → wp m Q' w.
Proof. unfold wp. intros H HQ. now apply HQ. Qed.

Lemma wp_keeps (I : world → Prop) m (Q : outcome A → world → Prop) w :
  keeps I m → I w → (∀ o w', I w' → Q o w') → wp m Q w.
Proof. unfold wp. intros Hk HI HQ. apply HQ, Hk, HI. Qed.

Lemma wp_keeps_yields (I : world → Prop) (V : A → Prop) m
    (Q : outcome A → world → Prop) w :
  keeps I m → yields V m → I w → (∀ a w', V a → I w' → Q (Returned a) w') →
  wp m Q w.
Proof.
  unfold wp. intros Hk Hy HI HQ. destruct (Hy w) as (a & Ha & HV). rewrite Ha.
  apply HQ; [exact HV|]. apply Hk, HI.
Qed.

Lemma keeps_ret (I : world → Prop) (a : A) : keeps I (ret a).
Proof. exact (λ w H, H). Qed.

Lemma keeps_throw (I : world → Prop) (e : exn) : keeps I (@throw A e).
Proof. exact (λ w H, H). Qed.

Lemma keeps_bind (I : world → Prop) m k :
  keeps I m → (∀ a, keeps I (k a)) → keeps I (bind m k).
Proof.
  intros Hm Hk w HI. unfold bind. specialize (Hm w HI).
  destruct (m w) as [[a|e] w']; [apply Hk|]; exact Hm.
Qed.

Lemma keeps_try (I : world → Prop) m (h : exn → M A) :
  keeps I m → (∀ e, keeps I (h e)) → keeps I (try_catch m h).
Proof.
  intros Hm Hh w HI. unfold try_catch. specialize (Hm w HI).
  destruct (m w) as [[a|e] w']; [|apply Hh]; exact Hm.
Qed.

Lemma yields_ret (V : A → Prop) (a : A) : V a → yields V (ret a).
Proof. intros HV w. now exists a. Qed.

Lemma yields_bind (V : A → Prop) (V' : B → Prop) m k :
  yields V m → (∀ a, V a → yields V' (k a)) → yields V' (bind m k).
Proof.
  intros Hm Hk w. unfold bind. destruct (Hm w) as (a & Ha & HV).
  destruct (m w) as [o w']. simpl in Ha. subst o. now apply Hk.
Qed.

Lemma yields_try (V : A → Prop) m (h : exn → M A) :
  (∀ w a, (m w).1 = Returned a → V a) → (∀ e, yields V (h e)) →
  yields V (try_catch m h).
Proof.
  intros Hm Hh w. unfold try_catch. specialize (Hm w).
  destruct (m w) as [[a|e] w'].
  - exists a. split; [reflexivity|]. now apply Hm.
  - apply Hh.
Qed.

Lemma yields_mono (V V' : A → Prop) m :
  yields V m → (∀ a, V a → V' a) → yields V' m.
Proof. intros Hm HV w. destruct (Hm w) as (a & Ha & Hv). exists a. auto. Qed.
End Rules.

Lemma keeps_when (I : world → Prop) (c : bool) (m : M unit) :
  keeps I m → keeps I (when c m).
Proof. destruct c; [exact (λ H, H)|]. intros _. apply keeps_ret. Qed.

Lemma wp_when (c : bool) (m : M unit) (Q : outcome unit → world → Prop) w :
  (c = true → wp m Q w) → (c = false → Q (Returned tt) w) → wp (when c m) Q w.
Proof. destruct c; intros H1 H2; [now apply H1|now apply H2]. Qed.

Lemma keeps_for_of {X S} (I : world → Prop) (body : X → S → M S) xs acc :
  (∀ x s, keeps I (body x s)) → keeps I (for_of xs body acc).
Proof.
  intros Hb. revert acc. induction xs as [|x xs IH]; intros acc; simpl.
  - apply keeps_ret.
  - apply keeps_bind; [apply Hb|exact IH].
Qed.

Lemma yields_for_of {X S} (body : X → S → M S) xs acc :
  (∀ x s, yields (λ _, True) (body x s)) → yields (λ _, True) (for_of xs body acc).
Proof.
  intros Hb. revert acc. induction xs as [|x xs IH]; intros acc; simpl.
  - now apply yields_ret.
  - eapply yields_bind; [apply Hb|]. intros s _. apply IH.
Qed.

Lemma keeps_promise_all_map {X Y} (I : world → Prop) (f : X → M Y) xs :
  (∀ x, keeps I (f x)) → keeps I (promise_all_map f xs).
Proof.
  intros Hf. induction xs as [|x xs IH]; simpl.
  - apply keeps_ret.
  - apply keeps_bind; [apply Hf|]. intros y.
    apply keeps_bind; [exact IH|]. intros ys. apply keeps_ret.
Qed.

(** Structural decomposition of a [keeps] goal; the leaves are statements,
    calls of the gateway and log entries. *)
Ltac keeps_step :=
  lazymatch goal with
  | |- keeps _ (bind _ _) => apply keeps_bind; [|intros ?]
  | |- keeps _ (try_catch _ _) => apply keeps_try; [|intros ?]
  | |- keeps _ (ret _) => apply keeps_ret
  | |- keeps _ (throw _) => apply keeps_throw
  | |- keeps _ (when _ _) => apply keeps_when
  | |- keeps _ (for_of _ _ _) => apply keeps_for_of; intros ? ?
  | |- keeps _ (promise_all_map _ _) => apply keeps_promise_all_map; intros ?
  | |- keeps _ (match ?x with _ => _ end) => destruct x
  | |- keeps _ (sendSMS _ _) => unfold sendSMS
  | |- keeps _ (sendReservationSMS _ _ _ _) => unfold sendReservationSMS
  | |- keeps _ (sendSingleReservationSMS _ _ _ _ _ _) => unfold sendSingleReservationSMS
  | |- keeps _ (sendCancellationSMS _ _ _ _ _ _) => unfold sendCancellationSMS
  | |- keeps _ (sendPriorityReservationSMS _ _ _ _ _ _) => unfold sendPriorityReservationSMS
  | |- keeps _ (notify_preempted _ _) => unfold notify_preempted
  | |- keeps _ (select_utilisateurs) => unfold select_utilisateurs
  | |- keeps _ (select_salle _) => unfold select_salle
  | |- keeps _ (select_joined _ _) => unfold select_joined
  | |- keeps _ (checkReservationConflict _ _ _ _ _) => unfold checkReservationConflict
  | |- keeps _ (insert_notification _ _ _ _) => unfold insert_notification
  | |- keeps _ (insert_reservation _ _ _ _ _ _ _) => unfold insert_reservation
  | |- keeps _ (update_statut _ _) => unfold update_statut
  end.

Create HintDb keeps discriminated.

Ltac keeps_auto := repeat keeps_step; eauto with keeps.

(** ** Failure leaves the durable state as it was *)

Section Rollback.
Variable c0 : database.

Lemma pool_query_in_transaction {A} s (exec : database → A * database) :
  keeps (in_transaction c0) (pool_query s exec).
Proof.
  intros [c [d|] fs g n tr] [Hc [d' Hd]]; simpl in *; [|discriminate].
  unfold pool_query. simpl. destruct (fault_of fs); simpl; split; eauto.
Qed.

Lemma messages_create_in_transaction to message :
  keeps (in_transaction c0) (messages_create to message).
Proof.
  intros w H. unfold messages_create.
  destruct (gateway w (dispatched w)); exact H.
Qed.

Lemma log_sms_in_transaction to d : keeps (in_transaction c0) (log_sms to d).
Proof. intros w H. exact H. Qed.

Lemma pool_rollback_committed :
  keeps (λ w, committed w = c0) pool_rollback.
Proof.
  intros w H. unfold pool_rollback. simpl. destruct (fault_of (db_faults w)); exact H.
Qed.
End Rollback.

#[export] Hint Resolve pool_query_in_transaction messages_create_in_transaction
  log_sms_in_transaction : keeps.

(** One step of a computation that maintains the invariant [I]: the rest is
    proved for the value it returns, and the invariant settles the case in
    which it throws. *)
Ltac wp_inv Inv :=
  apply wp_bind; apply (wp_keeps Inv);
  [ keeps_auto
  | eassumption
  | let a := fresh "a" in let e := fresh "e" in
    let w := fresh "w" in let H := fresh "HI" in
    intros [a|e] w H; [|first [exact I|exact H|apply H|idtac]] ].

Lemma sendSMS_yields to message : yields (λ _, True) (sendSMS to message).
Proof.
  intros w. destruct (sendSMS_run to message w) as (res & Hres & _).
  exists res. now rewrite Hres.
Qed.

(** The roster block of [router.post('/')] always leaves a result in
    [smsResult]. *)
Lemma roster_block_yields nomSalle jour heureDebut heureFin :
  yields (λ p, ∃ rr, p = (Some rr, roster_success rr))
    (try_catch
       (let* smsResult := sendReservationSMS nomSalle jour heureDebut heureFin in
        ret (Some smsResult, roster_success smsResult))
       (λ smsError, ret (None, false))).
Proof.
  intros w. unfold try_catch, bind.
  destruct (sendReservationSMS_run nomSalle jour heureDebut heureFin w)
    as (rr & n & Hrr & _).
  rewrite Hrr. simpl. eauto.
Qed.

Lemma wp_pool_rollback c0 (Q : outcome unit → world → Prop) w :
  committed w = c0 →
  (∀ w', committed w' = c0 → transaction w' = None → Q (Returned tt) w') →
  (∀ w', committed w' = c0 → Q (Thrown DatabaseError) w') →
  wp pool_rollback Q w.
Proof.
  intros Hc Hok Hko. unfold wp, pool_rollback. simpl.
  destruct (fault_of (db_faults w)); simpl; [now apply Hko|now apply Hok].
Qed.

Lemma wp_pool_begin (Q : outcome unit → world → Prop) w :
  (∀ w', in_transaction (committed w) w' → Q (Returned tt) w') →
  (∀ w', committed w' = committed w → Q (Thrown DatabaseError) w') →
  wp pool_begin Q w.
Proof.
  intros Hok Hko. unfold wp, pool_begin. simpl.
  destruct (fault_of (db_faults w)); simpl; [now apply Hko|].
  apply Hok. split; simpl; eauto.
Qed.

Lemma wp_pool_commit c0 (Q : outcome unit → world → Prop) w :
  in_transaction c0 w →
  (∀ w', Q (Returned tt) w') →
  (∀ w', in_transaction c0 w' → Q (Thrown DatabaseError) w') →
  wp pool_commit Q w.
Proof.
  intros HJ Hok Hko. unfold wp, pool_commit. simpl.
  destruct (fault_of (db_faults w)); simpl; [apply Hko; exact HJ|apply Hok].
Qed.

Lemma booking_catch_rolled_back c0 e w :
  committed w = c0 →
  wp (booking_catch e)
     (λ o w', match o with
              | Returned resp => rolled_back c0 (Returned resp) w'
              | Thrown _ => wp (ret internal_error) (rolled_back c0) w'
              end) w.
Proof.
  intros Hc. unfold booking_catch. apply wp_bind.
  apply (wp_pool_rollback c0); [exact Hc| |].
  - intros w' Hc' Ht _. split; [exact Hc'|]. intros; exact Ht.
  - intros w' Hc' _. split; [exact Hc'|]. intros resp [= <-]. simpl. congruence.
Qed.

Lemma createReservation_rolled_back today now user value w :
  wp (createReservation today now user value) (rolled_back (committed w)) w.
Proof.
  set (c0 := committed w). unfold createReservation.
  apply wp_try, wp_bind, wp_pool_begin.
  2:{ intros w' Hc _. split; [exact Hc|]. intros resp [= <-]. simpl. congruence. }
  fold c0. intros w1 HJ. apply wp_try.
  eapply wp_mono with
    (Q := λ o w', match o with
                  | Returned resp => is_success resp = true
                  | Thrown _ => committed w' = c0
                  end).
  2:{ intros [resp|e] w' H.
      - intros Hf. simpl in Hf. congruence.
      - now apply booking_catch_rolled_back. }
  wp_inv (in_transaction c0).
  wp_inv (in_transaction c0).
  wp_inv (in_transaction c0).
  destruct a1 as [|salle0 ?]; [apply HI1|].
  wp_inv (in_transaction c0).
  wp_inv (in_transaction c0).
  wp_inv (in_transaction c0).
  wp_inv (in_transaction c0).
  apply wp_bind.
  eapply (wp_keeps_yields (in_transaction c0));
    [keeps_auto|apply roster_block_yields|exact HI5|].
  intros p w8 (rr & ->) HI6.
  wp_inv (in_transaction c0).
  apply wp_bind, (wp_pool_commit c0); [exact HI7| |intros w' H; apply H].
  intros w'. reflexivity.
Qed.

Lemma createPriorityReservation_rolled_back today now user value w :
  wp (createPriorityReservation today now user value) (rolled_back (committed w)) w.
Proof.
  set (c0 := committed w). unfold createPriorityReservation.
  apply wp_try, wp_bind, wp_pool_begin.
  2:{ intros w' Hc _. split; [exact Hc|]. intros resp [= <-]. simpl. congruence. }
  fold c0. intros w1 HJ. apply wp_try.
  eapply wp_mono with
    (Q := λ o w', match o with
                  | Returned resp => is_success resp = true
                  | Thrown _ => committed w' = c0
                  end).
  2:{ intros [resp|e] w' H.
      - intros Hf. simpl in Hf. congruence.
      - now apply booking_catch_rolled_back. }
  wp_inv (in_transaction c0).
  wp_inv (in_transaction c0).
  wp_inv (in_transaction c0).
  destruct a1 as [|salle0 ?]; [apply HI1|].
  wp_inv (in_transaction c0).
  wp_inv (in_transaction c0).
  wp_inv (in_transaction c0).
  destruct a4 as [smsStatus notificationStatus].
  wp_inv (in_transaction c0).
  wp_inv (in_transaction c0).
  destruct a5 as [smsStatus' notificationStatus'].
  apply wp_bind, (wp_pool_commit c0); [exact HI6| |intros w' H; apply H].
  intros w'. reflexivity.
Qed.

Lemma cancelReservation_rolled_back now user reservationId w :
  wp (cancelReservation now user reservationId) (rolled_back (committed w)) w.
Proof.
  set (c0 := committed w). unfold cancelReservation.
  apply wp_try.
  eapply wp_mono with
    (Q := λ o w', match o with
                  | Returned resp =>
                      is_success resp = true
                      ∨ (committed w' = c0 ∧ transaction w' = None)
                  | Thrown _ => committed w' = c0
                  end).
  2:{ intros [resp|e] w' H.
      - intros Hf. simpl in Hf. destruct H as [H|[Hc Ht]]; [congruence|].
        split; [exact Hc|]. intros; exact Ht.
      - apply wp_throw. intros _. split; [exact H|]. intros resp [=]. }
  apply wp_bind, wp_pool_begin; [|intros w' Hc; exact Hc].
  fold c0. intros w1 HJ.
  wp_inv (in_transaction c0).
  destruct a as [|reservation_ ?].
  { apply wp_bind, (wp_pool_rollback c0); [apply HI|auto|auto]. intros; now right. }
  destruct (_ && _).
  { apply wp_bind, (wp_pool_rollback c0); [apply HI|auto|auto]. intros; now right. }
  destruct (negb _).
  { apply wp_bind, (wp_pool_rollback c0); [apply HI|auto|auto]. intros; now right. }
  wp_inv (in_transaction c0).
  wp_inv (in_transaction c0).
  wp_inv (in_transaction c0).
  apply wp_bind, (wp_pool_commit c0); [exact HI2| |intros w' H; apply H].
  intros w'. now left.
Qed.

(** ** The rollback of a failed request *)

Section LoggedSince.
Variable tr0 : list event.

Lemma logged_since_log e w : logged_since tr0 w → logged_since tr0 (log e w).
Proof. intros [evs H]. exists (evs ++ [e]). simpl. now rewrite H, app_assoc. Qed.

Lemma pool_query_logged_since {A} s (exec : database → A * database) :
  keeps (logged_since tr0) (pool_query s exec).
Proof.
  intros w H. unfold pool_query. simpl.
  destruct (fault_of (db_faults w)); simpl; apply logged_since_log;
    destruct H as [evs H]; exists evs; [exact H|].
  unfold store. simpl. destruct (transaction w); exact H.
Qed.

Lemma pool_begin_logged_since : keeps (logged_since tr0) pool_begin.
Proof.
  intros w H. unfold pool_begin. simpl.
  destruct (fault_of (db_faults w)); simpl; apply logged_since_log, H.
Qed.

Lemma pool_commit_logged_since : keeps (logged_since tr0) pool_commit.
Proof.
  intros w H. unfold pool_commit. simpl.
  destruct (fault_of (db_faults w)); simpl; apply logged_since_log, H.
Qed.

Lemma pool_rollback_logged_since : keeps (logged_since tr0) pool_rollback.
Proof.
  intros w H. unfold pool_rollback. simpl.
  destruct (fault_of (db_faults w)); simpl; apply logged_since_log, H.
Qed.

Lemma messages_create_logged_since to message :
  keeps (logged_since tr0) (messages_create to message).
Proof.
  intros w H. unfold messages_create. destruct (gateway w (dispatched w)); exact H.
Qed.

Lemma log_sms_logged_since to d : keeps (logged_since tr0) (log_sms to d).
Proof. intros w H. now apply logged_since_log. Qed.

(** The ROLLBACK that ends a failed request, and the answer after it. *)
Lemma wp_rollback_last (resp : response) w :
  logged_since tr0 w →
  wp (bind pool_rollback (λ _, ret resp))
     (λ o w', match o with
              | Returned r =>
                  r = resp ∧ transaction w' = None
                  ∧ ∃ evs, trace w' = tr0 ++ evs ++ [Query ROLLBACK true]
              | Thrown _ => ∃ evs, trace w' = tr0 ++ evs ++ [Query ROLLBACK false]
              end) w.
Proof.
  intros [evs H]. unfold wp, bind, pool_rollback, ret. simpl.
  destruct (fault_of (db_faults w)); simpl.
  - exists evs. now rewrite H, app_assoc.
  - split; [reflexivity|]. split; [reflexivity|]. exists evs. now rewrite H, app_assoc.
Qed.
End LoggedSince.

#[export] Hint Resolve pool_query_logged_since pool_begin_logged_since
  pool_commit_logged_since pool_rollback_logged_since messages_create_logged_since
  log_sms_logged_since : keeps.

Lemma wp_pool_begin_logged (Q : outcome unit → world → Prop) w :
  (∀ w', logged_since (trace w) w' → Q (Returned tt) w') →
  (∀ w', trace w' = trace w ++ [Query BEGIN false] → Q (Thrown DatabaseError) w') →
  wp pool_begin Q w.
Proof.
  intros Hok Hko. unfold wp, pool_begin. simpl.
  destruct (fault_of (db_faults w)); simpl; [now apply Hko|].
  apply Hok. now exists [Query BEGIN true].
Qed.

Lemma booking_catch_logged w0 e w :
  logged_since (trace w0) w →
  wp (booking_catch e)
     (λ o w', match o with
              | Returned resp => rollback_logged w0 (Returned resp) w'
              | Thrown _ => wp (ret internal_error) (rollback_logged w0) w'
              end) w.
Proof.
  intros H. unfold booking_catch.
  eapply wp_mono; [apply (wp_rollback_last (trace w0)), H|].
  intros [r|e'] w'.
  - intros (-> & Ht & evs & Htr) _. right. exists evs, true. auto.
  - intros (evs & Htr) _. right. exists evs, false.
    split; [exact Htr|]. split; [discriminate|].
    intros resp [= <-]. simpl. congruence.
Qed.

Lemma createReservation_rollback_logged today now user value w :
  wp (createReservation today now user value) (rollback_logged w) w.
Proof.
  unfold createReservation.
  apply wp_try, wp_bind, wp_pool_begin_logged.
  2:{ intros w' Htr _. now left. }
  intros w1 HJ. apply wp_try.
  eapply wp_mono with
    (Q := λ o w', match o with
                  | Returned resp => is_success resp = true
                  | Thrown _ => logged_since (trace w) w'
                  end).
  2:{ intros [resp|e] w' H.
      - intros Hf. simpl in Hf. congruence.
      - now apply booking_catch_logged. }
  wp_inv (logged_since (trace w)).
  wp_inv (logged_since (trace w)).
  wp_inv (logged_since (trace w)).
  destruct a1 as [|salle0 ?]; [apply HI1|].
  wp_inv (logged_since (trace w)).
  wp_inv (logged_since (trace w)).
  wp_inv (logged_since (trace w)).
  wp_inv (logged_since (trace w)).
  apply wp_bind.
  eapply (wp_keeps_yields (logged_since (trace w)));
    [keeps_auto|apply roster_block_yields|exact HI5|].
  intros p w8 (rr & ->) HI6.
  wp_inv (logged_since (trace w)).
  wp_inv (logged_since (trace w)).
  reflexivity.
Qed.

Lemma createPriorityReservation_rollback_logged today now user value w :
  wp (createPriorityReservation today now user value) (rollback_logged w) w.
Proof.
  unfold createPriorityReservation.
  apply wp_try, wp_bind, wp_pool_begin_logged.
  2:{ intros w' Htr _. now left. }
  intros w1 HJ. apply wp_try.
  eapply wp_mono with
    (Q := λ o w', match o with
                  | Returned resp => is_success resp = true
                  | Thrown _ => logged_since (trace w) w'
                  end).
  2:{ intros [resp|e] w' H.
      - intros Hf. simpl in Hf. congruence.
      - now apply booking_catch_logged. }
  wp_inv (logged_since (trace w)).
  wp_inv (logged_since (trace w)).
  wp_inv (logged_since (trace w)).
  destruct a1 as [|salle0 ?]; [apply HI1|].
  wp_inv (logged_since (trace w)).
  wp_inv (logged_since (trace w)).
  wp_inv (logged_since (trace w)).
  destruct a4 as [smsStatus notificationStatus].
  wp_inv (logged_since (trace w)).
  wp_inv (logged_since (trace w)).
  destruct a5 as [smsStatus' notificationStatus'].
  wp_inv (logged_since (trace w)).
  reflexivity.
Qed.

Lemma cancelReservation_refusal_logged now user reservationId w :
  wp (cancelReservation now user reservationId)
     (λ o w', ∀ resp, o = Returned resp → is_success resp = false →
                transaction w' = None
                ∧ ∃ evs, trace w' = trace w ++ evs ++ [Query ROLLBACK true]) w.
Proof.
  unfold cancelReservation. apply wp_try.
  eapply wp_mono with
    (Q := λ o w', match o with
                  | Returned resp =>
                      is_success resp = true
                      ∨ (transaction w' = None
                         ∧ ∃ evs, trace w' = trace w ++ evs ++ [Query ROLLBACK true])
                  | Thrown _ => True
                  end).
  2:{ intros [resp|e] w' H.
      - intros r [= <-] Hf. destruct H as [H|H]; [congruence|exact H].
      - apply wp_throw. intros resp [=]. }
  apply wp_bind, wp_pool_begin_logged; [|intros; exact I].
  intros w1 HJ.
  wp_inv (logged_since (trace w)).
  assert (Hrb : ∀ resp,
             wp (bind pool_rollback (λ _, ret resp))
                (λ o w', match o with
                         | Returned resp =>
                             is_success resp = true
                             ∨ (transaction w' = None
                                ∧ ∃ evs, trace w' = trace w ++ evs ++ [Query ROLLBACK true])
                         | Thrown _ => True
                         end) w0).
  { intros resp. eapply wp_mono; [apply (wp_rollback_last (trace w)), HI|].
    intros [r|e] w'; [|intros; exact I]. intros (_ & Ht & Htr). now right. }
  destruct a as [|reservation_ ?]; [apply Hrb|].
  destruct (_ && _); [apply Hrb|].
  destruct (negb _); [apply Hrb|].
  clear Hrb.
  wp_inv (logged_since (trace w)).
  wp_inv (logged_since (trace w)).
  wp_inv (logged_since (trace w)).
  wp_inv (logged_since (trace w)).
  now left.
Qed.

(** X22. A request that fails sends a ROLLBACK, except a cancellation that a
    failing statement interrupts. Whatever statements fail and whatever the
    gateway answers: a booking or a priority booking that does not succeed
    leaves the durable database as it was, and unless its BEGIN itself failed
    the last statement it sent is a ROLLBACK; when that ROLLBACK succeeds the
    transaction is closed, and it did succeed whenever the answer is one of
    the errors of the request and not the internal error 500. A cancellation
    that does not succeed leaves the durable database as it was, and when it
    is answered with one of its three refusals the last statement it sent is a
    successful ROLLBACK and no transaction is left open. *)
Theorem failed_requests_roll_back (today now : Z) (user : principal)
    (value : request) (reservationId : Z) (w : world) :
  wp (createReservation today now user value) (rollback_sent w) w
  ∧ wp (createPriorityReservation today now user value) (rollback_sent w) w
  ∧ wp (cancelReservation now user reservationId) (refusal_rolled_back w) w.
Proof.
  split; [|split].
  - pose proof (createReservation_rolled_back today now user value w) as H1.
    pose proof (createReservation_rollback_logged today now user value w) as H2.
    unfold wp in *. intros Hf. split; [apply H1, Hf|apply H2, Hf].
  - pose proof (createPriorityReservation_rolled_back today now user value w) as H1.
    pose proof (createPriorityReservation_rollback_logged today now user value w) as H2.
    unfold wp in *. intros Hf. split; [apply H1, Hf|apply H2, Hf].
  - pose proof (cancelReservation_rolled_back now user reservationId w) as H1.
    pose proof (cancelReservation_refusal_logged now user reservationId w) as H2.
    unfold wp in *. split; [intros Hf; apply H1, Hf|exact H2].
Qed.




(** C8. A cancellation in which a statement fails is not rolled back. In
    the sample world Alice cancels her reservation and the COMMIT fails: the
    [catch] throws the ReferenceError before it sends any ROLLBACK, so the
    request gets no answer, the log ends with the failed COMMIT, and the
    transaction stays open with the row already cancelled in it while the
    durable row is still active. The next request that commits, here a booking
    of Bob of the same window, makes the cancellation durable. *)
Theorem cancelReservation_failure_is_not_rolled_back :
  (cancelReservation 200 p_alice 1 world1_commit_fails).1
  = Thrown (Error "pool is not defined")
  ∧ trace (cancelReservation 200 p_alice 1 world1_commit_fails).2
    = [Query BEGIN true; Query SELECT_reservation_joined true;
       Query UPDATE_statut true; SMS (Some "+237677865607") true;
       Query INSERT_notification true; Query COMMIT false]
  ∧ statut <$> reservations (committed (cancelReservation 200 p_alice 1 world1_commit_fails).2)
    = ["active"]
  ∧ (λ d, statut <$> reservations d)
      <$> transaction (cancelReservation 200 p_alice 1 world1_commit_fails).2
    = Some ["annulee"]
  ∧ status_code
      (createReservation today_10 300 p_bob (booking 1 10 540 600)
         (cancelReservation 200 p_alice 1 world1_commit_fails).2).1
    = 201
  ∧ statut <$> reservations
                 (committed
                    (createReservation today_10 300 p_bob (booking 1 10 540 600)
                       (cancelReservation 200 p_alice 1 world1_commit_fails).2).2)
    = ["annulee"; "active"].
Proof. repeat split; vm_compute; reflexivity. Qed.

(** ** The commit comes last *)

Lemma monotone_True : monotone (λ _, True).
Proof. intros evs evs' _. exact I. Qed.

Lemma monotone_has_sms : monotone has_sms.
Proof.
  intros evs evs' (to & d & H). exists to, d. apply elem_of_app. now left.
Qed.

#[export] Hint Resolve monotone_True monotone_has_sms : keeps.

Section CommitLast.
Variable P : list event → Prop.
Variable tr0 : list event.
Hypothesis P_monotone : monotone P.

Lemma uncommitted_log e w :
  e ≠ Query COMMIT true → uncommitted P tr0 w → uncommitted P tr0 (log e w).
Proof.
  intros He (evs & Htr & Hno & HP). exists (evs ++ [e]). simpl.
  rewrite Htr, app_assoc. split; [reflexivity|]. split; [|now apply P_monotone].
  rewrite elem_of_app, list_elem_of_singleton. intros [H|H]; [now apply Hno|].
  now apply He.
Qed.

Lemma pool_query_uncommitted {A} s (exec : database → A * database) :
  s ≠ COMMIT → keeps (uncommitted P tr0) (pool_query s exec).
Proof.
  intros Hs w H. unfold pool_query. simpl.
  destruct (fault_of (db_faults w)); simpl.
  - apply uncommitted_log; [congruence|exact H].
  - apply uncommitted_log; [congruence|].
    destruct H as (evs & Htr & Hno & HP). exists evs.
    unfold store. simpl. destruct (transaction w); simpl; auto.
Qed.

Lemma messages_create_uncommitted to message :
  keeps (uncommitted P tr0) (messages_create to message).
Proof.
  intros w H. unfold messages_create. destruct (gateway w (dispatched w)); exact H.
Qed.

Lemma log_sms_uncommitted to d : keeps (uncommitted P tr0) (log_sms to d).
Proof. intros w H. apply uncommitted_log; [discriminate|exact H]. Qed.

Lemma pool_rollback_uncommitted : keeps (uncommitted P tr0) pool_rollback.
Proof.
  intros w H. unfold pool_rollback. simpl.
  destruct (fault_of (db_faults w)); simpl; (apply uncommitted_log; [discriminate|]);
    destruct H as (evs & Htr & Hno & HP); exists evs; auto.
Qed.

Lemma wp_pool_commit_last (Q : outcome unit → world → Prop) w :
  uncommitted P tr0 w →
  (∀ w', (∃ evs, trace w' = tr0 ++ evs ++ [Query COMMIT true]
                 ∧ (Query COMMIT true ∉ evs) ∧ P evs) →
         Q (Returned tt) w') →
  (∀ w', uncommitted P tr0 w' → Q (Thrown DatabaseError) w') →
  wp pool_commit Q w.
Proof.
  intros H Hok Hko. unfold wp, pool_commit. simpl.
  destruct (fault_of (db_faults w)); simpl.
  - apply Hko, uncommitted_log; [discriminate|].
    destruct H as (evs & Htr & Hno & HP). exists evs. auto.
  - apply Hok. destruct H as (evs & Htr & Hno & HP). exists evs. simpl.
    rewrite Htr, app_assoc. auto.
Qed.
End CommitLast.

#[export] Hint Extern 1 (keeps (uncommitted _ _) (pool_query _ _)) =>
  apply pool_query_uncommitted; [eauto with keeps|discriminate] : keeps.
#[export] Hint Extern 1 (keeps (uncommitted _ _) (messages_create _ _)) =>
  apply messages_create_uncommitted : keeps.
#[export] Hint Extern 1 (keeps (uncommitted _ _) (log_sms _ _)) =>
  apply log_sms_uncommitted; eauto with keeps : keeps.

Lemma status_of_error_not_success e msg :
  is_success {| status := status_of_error e; json := msg |} = false.
Proof.
  unfold is_success, status_of_error. simpl.
  repeat match goal with |- context [if ?c then _ else _] => destruct c end;
    reflexivity.
Qed.

(** No response of the [catch] blocks reports success. *)
Lemma booking_catch_commits_last P tr0 e w :
  wp (booking_catch e)
     (λ o w', match o with
              | Returned resp => commits_last P tr0 (Returned resp) w'
              | Thrown _ => wp (ret internal_error) (commits_last P tr0) w'
              end) w.
Proof.
  unfold wp, booking_catch, bind, pool_rollback. simpl.
  destruct (fault_of (db_faults w)); simpl.
  - intros resp [= <-]. discriminate.
  - intros resp [= <-]. rewrite status_of_error_not_success. discriminate.
Qed.

Lemma wp_pool_begin_uncommitted (Q : outcome unit → world → Prop) w :
  (∀ w', uncommitted (λ _, True) (trace w) w' → Q (Returned tt) w') →
  (∀ w', Q (Thrown DatabaseError) w') →
  wp pool_begin Q w.
Proof.
  intros Hok Hko. unfold wp, pool_begin. simpl.
  destruct (fault_of (db_faults w)); simpl; [apply Hko|].
  apply Hok. exists [Query BEGIN true]. simpl. split; [reflexivity|].
  split; [|exact I]. rewrite list_elem_of_singleton. discriminate.
Qed.

(** A call of [sendSMS] puts a dispatch in the log. *)
Lemma wp_sendSMS_uncommitted P tr0 to message (Q : outcome sms_result → world → Prop) w :
  uncommitted P tr0 w →
  (∀ res w', uncommitted has_sms tr0 w' → Q (Returned res) w') →
  wp (sendSMS to message) Q w.
Proof.
  intros (evs & Htr & Hno & _) HQ. unfold wp.
  destruct (sendSMS_run to message w) as (res & Hres & _). rewrite Hres. simpl.
  apply HQ. exists (evs ++ [sms_event res]). simpl. rewrite Htr, app_assoc.
  split; [reflexivity|]. split.
  - rewrite elem_of_app, list_elem_of_singleton. intros [H|H]; [now apply Hno|].
    discriminate.
  - exists (sms_to res), (success res). apply elem_of_app. right.
    apply list_elem_of_singleton. reflexivity.
Qed.

Lemma createReservation_commits_last today now user value w :
  wp (createReservation today now user value) (commits_last (λ _, True) (trace w)) w.
Proof.
  set (tr0 := trace w). unfold createReservation.
  apply wp_try, wp_bind, wp_pool_begin_uncommitted.
  2:{ intros w' resp [= <-]. discriminate. }
  fold tr0. intros w1 HT. apply wp_try.
  eapply wp_mono with
    (Q := λ o w', match o with
                  | Returned resp => commits_last (λ _, True) tr0 (Returned resp) w'
                  | Thrown _ => True
                  end).
  2:{ intros [resp|e] w' H; [exact H|]. apply booking_catch_commits_last. }
  wp_inv (uncommitted (λ _, True) tr0).
  wp_inv (uncommitted (λ _, True) tr0).
  wp_inv (uncommitted (λ _, True) tr0).
  destruct a1 as [|salle0 ?]; [exact I|].
  wp_inv (uncommitted (λ _, True) tr0).
  wp_inv (uncommitted (λ _, True) tr0).
  wp_inv (uncommitted (λ _, True) tr0).
  wp_inv (uncommitted (λ _, True) tr0).
  wp_inv (uncommitted (λ _, True) tr0).
  destruct a6 as [smsResult smsStatus].
  wp_inv (uncommitted (λ _, True) tr0).
  apply wp_bind, (wp_pool_commit_last (λ _, True) tr0);
    [apply monotone_True|exact HI7| |intros; exact I].
  intros w' Hlast. destruct smsResult as [rr|]; [|exact I].
  intros resp _ _. exact Hlast.
Qed.

Lemma createPriorityReservation_commits_last today now user value w :
  wp (createPriorityReservation today now user value) (commits_last has_sms (trace w)) w.
Proof.
  set (tr0 := trace w). unfold createPriorityReservation.
  apply wp_try, wp_bind, wp_pool_begin_uncommitted.
  2:{ intros w' resp [= <-]. discriminate. }
  fold tr0. intros w1 HT. apply wp_try.
  eapply wp_mono with
    (Q := λ o w', match o with
                  | Returned resp => commits_last has_sms tr0 (Returned resp) w'
                  | Thrown _ => True
                  end).
  2:{ intros [resp|e] w' H; [exact H|]. apply booking_catch_commits_last. }
  wp_inv (uncommitted (λ _, True) tr0).
  wp_inv (uncommitted (λ _, True) tr0).
  wp_inv (uncommitted (λ _, True) tr0).
  destruct a1 as [|salle0 ?]; [exact I|].
  wp_inv (uncommitted (λ _, True) tr0).
  wp_inv (uncommitted (λ _, True) tr0).
  wp_inv (uncommitted (λ _, True) tr0).
  destruct a4 as [smsStatus notificationStatus].
  wp_inv (uncommitted (λ _, True) tr0).
  apply wp_bind, wp_try, wp_bind. unfold sendSingleReservationSMS.
  apply (wp_sendSMS_uncommitted _ tr0 _ _ _ _ HI5). intros res w8 HS.
  wp_inv (uncommitted has_sms tr0).
  all: apply wp_ret; cbn beta iota.
  all: apply wp_bind, (wp_pool_commit_last has_sms tr0);
    [apply monotone_has_sms|eassumption| |intros; exact I].
  all: intros w' Hlast resp _ _; exact Hlast.
Qed.

Lemma cancelReservation_commits_last now user reservationId w :
  wp (cancelReservation now user reservationId) (commits_last has_sms (trace w)) w.
Proof.
  set (tr0 := trace w). unfold cancelReservation.
  apply wp_try.
  eapply wp_mono with
    (Q := λ o w', match o with
                  | Returned resp => commits_last has_sms tr0 (Returned resp) w'
                  | Thrown _ => True
                  end).
  2:{ intros [resp|e] w' H; [exact H|]. apply wp_throw. discriminate. }
  apply wp_bind, wp_pool_begin_uncommitted; [|intros; exact I].
  fold tr0. intros w1 HT.
  wp_inv (uncommitted (λ _, True) tr0).
  assert (Hno : ∀ code msg w',
             wp (await pool_rollback in ret {| status := code; json := ErrorBody msg |})
               (λ o w'', match o with
                         | Returned resp =>
                             code ≠ 200 → code ≠ 201 →
                             commits_last has_sms tr0 (Returned resp) w''
                         | Thrown _ => True
                         end) w').
  { intros code msg w'. unfold wp, bind, pool_rollback. simpl.
    destruct (fault_of (db_faults w')); simpl; [exact I|].
    intros H1 H2 resp [= <-]. unfold is_success. simpl.
    destruct (Z.eqb_spec code 201), (Z.eqb_spec code 200); simpl; congruence. }
  destruct a as [|reservation_ ?].
  { eapply wp_mono; [apply Hno|]. intros [resp|e] w' H; [apply H; lia|exact I]. }
  destruct (_ && _).
  { eapply wp_mono; [apply Hno|]. intros [resp|e] w' H; [apply H; lia|exact I]. }
  destruct (negb _).
  { eapply wp_mono; [apply Hno|]. intros [resp|e] w' H; [apply H; lia|exact I]. }
  wp_inv (uncommitted (λ _, True) tr0).
  apply wp_bind, wp_try, wp_bind. unfold sendCancellationSMS.
  apply (wp_sendSMS_uncommitted _ tr0 _ _ _ _ HI0). intros res w3 HS.
  apply wp_ret. cbn beta iota.
  wp_inv (uncommitted has_sms tr0).
  apply wp_bind, (wp_pool_commit_last has_sms tr0);
    [apply monotone_has_sms|exact HI1| |intros; exact I].
  intros w' Hlast resp _ _. exact Hlast.
Qed.

(** C2, as the code has it. In every successful run of the three handlers
    the successful COMMIT is the last thing the request does: everything else
    it logs, every call of [sendSMS] among it, comes before the commit, inside
    the open transaction. The cancellation and the priority booking always
    make such a call before they commit. *)
Theorem notifications_run_before_the_commit
    (today now : Z) (user : principal) (value : request) (reservationId : Z) (w : world) :
  wp (createReservation today now user value) (commits_last (λ _, True) (trace w)) w
  ∧ wp (createPriorityReservation today now user value) (commits_last has_sms (trace w)) w
  ∧ wp (cancelReservation now user reservationId) (commits_last has_sms (trace w)) w.
Proof.
  split; [apply createReservation_commits_last|].
  split; [apply createPriorityReservation_commits_last|].
  apply cancelReservation_commits_last.
Qed.

(** C2, as the specification states it, fails: a booking, a priority booking
    and a cancellation that succeed, each with an SMS delivered before its
    COMMIT. *)
Lemma sms_is_sent_before_the_commit :
  let create := createReservation today_10 100 p_bob (booking 1 10 540 600) (world0 [] (λ _, true)) in
  let priority := createPriorityReservation today_10 100 p_alice (booking 1 10 570 630) world1 in
  let cancel := cancelReservation 200 p_alice 1 world1 in
  (∃ resp, create.1 = Returned resp ∧ is_success resp = true)
  ∧ ¬ commit_precedes_sms (trace create.2)
  ∧ (∃ resp, priority.1 = Returned resp ∧ is_success resp = true)
  ∧ ¬ commit_precedes_sms (trace priority.2)
  ∧ (∃ resp, cancel.1 = Returned resp ∧ is_success resp = true)
  ∧ ¬ commit_precedes_sms (trace cancel.2).
Proof.
  cbv zeta.
  split; [eexists; split; [vm_compute; reflexivity|reflexivity]|].
  split.
  { intros H. specialize (H 6%nat 8%nat (Some "+237677865607") true).
    vm_compute in H. specialize (H eq_refl eq_refl). lia. }
  split; [eexists; split; [vm_compute; reflexivity|reflexivity]|].
  split.
  { intros H. specialize (H 4%nat 9%nat (Some "+237677865607") true).
    vm_compute in H. specialize (H eq_refl eq_refl). lia. }
  split; [eexists; split; [vm_compute; reflexivity|reflexivity]|].
  intros H. specialize (H 3%nat 5%nat (Some "+237677865607") true).
  vm_compute in H. specialize (H eq_refl eq_refl). lia.
Qed.

(** ** The booking invariant *)

Lemma overlap_sym s1 e1 s2 e2 : overlap s1 e1 s2 e2 = overlap s2 e2 s1 e1.
Proof. unfold overlap. apply andb_comm. Qed.

Lemma double_booked_sym r1 r2 : double_booked r1 r2 → double_booked r2 r1.
Proof.
  intros (H1 & H2 & H3 & H4 & H5). rewrite overlap_sym in H5.
  repeat split; auto.
Qed.

(** A row double booked with the requested window is one the conflict query
    selects. *)
Lemma double_booked_conflict_where x r0 :
  double_booked x r0 →
  conflict_where (salle_id r0) (date r0) (heure_debut r0) (heure_fin r0) x = true.
Proof.
  intros (H1 & _ & H3 & H4 & H5). unfold conflict_where.
  rewrite (conflict_clause_first _ _ _ H5), H1, H3, H4, !Z.eqb_refl. reflexivity.
Qed.

Lemma no_double_booking_snoc rs r0 :
  no_double_booking rs → (∀ x, x ∈ rs → ¬ double_booked x r0) →
  no_double_booking (rs ++ [r0]).
Proof.
  intros Hrs Hnew i j r1 r2 Hij Hi Hj.
  apply lookup_snoc_Some in Hi as [[_ Hi]|[Hi ->]];
    apply lookup_snoc_Some in Hj as [[_ Hj]|[Hj ->]].
  - exact (Hrs i j r1 r2 Hij Hi Hj).
  - apply Hnew. eapply list_elem_of_lookup_2, Hi.
  - intros H. apply double_booked_sym in H. revert H. apply Hnew.
    eapply list_elem_of_lookup_2, Hj.
  - congruence.
Qed.

Lemma no_double_booking_map (f : reservation → reservation) rs :
  (∀ x, f x = x ∨ statut (f x) ≠ "active") →
  no_double_booking rs → no_double_booking (map f rs).
Proof.
  intros Hf Hrs i j r1 r2 Hij Hi Hj.
  rewrite list_lookup_fmap in Hi, Hj.
  destruct (rs !! i) as [x1|] eqn:E1; [|discriminate].
  destruct (rs !! j) as [x2|] eqn:E2; [|discriminate].
  simpl in Hi, Hj. injection Hi as <-. injection Hj as <-.
  intros H. pose proof H as (Ha1 & Ha2 & _).
  destruct (Hf x1) as [Hx1|Hx1]; [|contradiction].
  destruct (Hf x2) as [Hx2|Hx2]; [|contradiction].
  rewrite Hx1, Hx2 in H. exact (Hrs i j x1 x2 Hij E1 E2 H).
Qed.

Lemma annuler_or_keep now (P : reservation → bool) x :
  (if P x then annuler now x else x) = x
  ∨ statut (if P x then annuler now x else x) ≠ "active".
Proof. destruct (P x); [right; discriminate|now left]. Qed.

Section Consistency.
Variable U : gmap Z utilisateur.

Lemma consistent_cancel now (P : reservation → bool) db :
  consistent U db →
  consistent U
    (with_reservations (map (λ x, if P x then annuler now x else x) (reservations db)) db).
Proof.
  intros (Hnd & Hri & HU). split; [|split]; simpl.
  - apply no_double_booking_map; [apply annuler_or_keep|exact Hnd].
  - intros y Hy. simpl in Hy. apply list_elem_of_fmap in Hy as (x & -> & Hx).
    destruct (Hri x Hx) as [Hu Hs]. destruct (P x); simpl; auto.
  - exact HU.
Qed.

Lemma consistent_notification db n :
  consistent U db →
  consistent U
    {| reservations := reservations db;
       reservations_id_seq := reservations_id_seq db;
       salles := salles db;
       utilisateurs := utilisateurs db;
       notifications := notifications db ++ [n] |}.
Proof. intros H. exact H. Qed.

Lemma consistent_insert now value user db :
  bookable U value db → is_Some (U !! user_id user) →
  consistent U
    {| reservations :=
         reservations db ++
         [new_reservation now db (user_id user) (body_salle_id value) (body_date value)
            (body_heure_debut value) (body_heure_fin value) (body_motif value)];
       reservations_id_seq := reservations_id_seq db + 1;
       salles := salles db;
       utilisateurs := utilisateurs db;
       notifications := notifications db |}.
Proof.
  intros ((Hnd & Hri & HU) & Hfree & Hsalle) Huser. split; [|split]; simpl.
  - apply no_double_booking_snoc; [exact Hnd|].
    intros x Hx Hdb. apply double_booked_conflict_where in Hdb. simpl in Hdb.
    rewrite (Hfree x Hx) in Hdb. discriminate.
  - intros x Hx. simpl in Hx. apply elem_of_app in Hx as [Hx|Hx].
    + now apply Hri.
    + apply list_elem_of_singleton in Hx as ->. simpl. rewrite HU. auto.
  - exact HU.
Qed.
End Consistency.

Lemma wp_pool_query {A} s (exec : database → A * database)
    (Q : outcome A → world → Prop) w :
  (∀ w', committed w' = committed w → current w' = current w →
         Q (Thrown DatabaseError) w') →
  (∀ w', current w' = (exec (current w)).2 →
         committed w' = committed w ∨ committed w' = current w' →
         Q (Returned (exec (current w)).1) w') →
  wp (pool_query s exec) Q w.
Proof.
  intros Hko Hok. unfold wp, pool_query. simpl.
  destruct (fault_of (db_faults w)); simpl.
  - apply Hko; reflexivity.
  - destruct w as [c [d|] fs g n tr]; simpl; apply Hok; simpl; auto.
Qed.

Lemma keeps_wp {A} (I : world → Prop) (m : M A) :
  (∀ w, I w → wp m (λ _ w', I w') w) → keeps I m.
Proof. exact (λ H, H). Qed.

Section Soundness.
Variable U : gmap Z utilisateur.

Lemma pool_query_sound {A} s (exec : database → A * database) :
  (∀ db, consistent U db → consistent U (exec db).2) →
  keeps (sound U) (pool_query s exec).
Proof.
  intros Hexec. apply keeps_wp. intros w [Hc Hd]. apply wp_pool_query.
  - intros w' Hc' Hd'. split; [now rewrite Hc'|now rewrite Hd'].
  - intros w' Hcur [Hc'|Hc']; split; rewrite ?Hc', ?Hcur; auto.
Qed.

Lemma pool_query_ready {A} value s (exec : database → A * database) :
  (∀ db, bookable U value db → bookable U value (exec db).2) →
  keeps (ready U value) (pool_query s exec).
Proof.
  intros Hexec. apply keeps_wp. intros w [Hc Hd]. apply wp_pool_query.
  - intros w' Hc' Hd'. split; [now rewrite Hc'|now rewrite Hd'].
  - intros w' Hcur [Hc'|Hc']; split; rewrite ?Hc', ?Hcur; auto; now apply Hexec.
Qed.

Lemma messages_create_sound to message : keeps (sound U) (messages_create to message).
Proof.
  intros w H. unfold messages_create. destruct (gateway w (dispatched w)); exact H.
Qed.

Lemma messages_create_ready value to message :
  keeps (ready U value) (messages_create to message).
Proof.
  intros w H. unfold messages_create. destruct (gateway w (dispatched w)); exact H.
Qed.

Lemma log_sms_sound to d : keeps (sound U) (log_sms to d).
Proof. intros w H. exact H. Qed.

Lemma log_sms_ready value to d : keeps (ready U value) (log_sms to d).
Proof. intros w H. exact H. Qed.

Lemma pool_begin_sound : keeps (sound U) pool_begin.
Proof.
  intros w [Hc Hd]. unfold pool_begin. simpl.
  destruct (fault_of (db_faults w)); simpl; split; assumption.
Qed.

Lemma pool_commit_sound : keeps (sound U) pool_commit.
Proof.
  intros w [Hc Hd]. unfold pool_commit. simpl.
  destruct (fault_of (db_faults w)); simpl; split; assumption.
Qed.

Lemma pool_rollback_sound : keeps (sound U) pool_rollback.
Proof.
  intros w [Hc Hd]. unfold pool_rollback. simpl.
  destruct (fault_of (db_faults w)); simpl; split; assumption.
Qed.

Lemma ready_sound value w : ready U value w → sound U w.
Proof. intros (Hc & Hd & _). now split. Qed.
End Soundness.

#[export] Hint Resolve messages_create_sound messages_create_ready log_sms_sound
  log_sms_ready pool_begin_sound pool_commit_sound pool_rollback_sound : keeps.
#[export] Hint Extern 1 (keeps (sound _) (pool_query _ _)) =>
  apply pool_query_sound; intros ? ?;
  first [assumption | apply consistent_cancel; assumption] : keeps.
#[export] Hint Extern 1 (keeps (ready _ _) (pool_query _ _)) =>
  apply pool_query_ready; intros ? ?; assumption : keeps.

Lemma cancelReservation_sound U now user reservationId :
  keeps (sound U) (cancelReservation now user reservationId).
Proof. unfold cancelReservation. keeps_auto. Qed.

Lemma wp_of_keeps {A} (I : world → Prop) (m : M A) w :
  keeps I m → I w → wp m (λ _ w', I w') w.
Proof. intros Hk HI. now apply Hk. Qed.

Lemma no_rows_free_slot value db :
  (0 <? length (map id
          (List.filter
             (λ x, conflict_where (body_salle_id value) (body_date value)
                     (body_heure_debut value) (body_heure_fin value) x && true)
             (reservations db))))%nat = false →
  free_slot value db.
Proof.
  intros H x Hx. apply not_true_is_false. intros Hw.
  assert (Hin : In x (List.filter
             (λ x, conflict_where (body_salle_id value) (body_date value)
                     (body_heure_debut value) (body_heure_fin value) x && true)
             (reservations db))).
  { apply filter_In. split; [now apply list_elem_of_In|]. now rewrite Hw. }
  destruct (List.filter _ _); [inversion Hin|]. discriminate.
Qed.

Lemma createReservation_sound U today now user value w :
  is_Some (U !! user_id user) → sound U w →
  wp (createReservation today now user value) (λ _ w', sound U w') w.
Proof.
  intros Huser Hw. unfold createReservation.
  apply wp_try.
  eapply wp_mono with (Q := λ _ w', sound U w'); [|intros [resp|e] w' H; exact H].
  wp_inv (sound U).
  apply wp_try.
  eapply wp_mono with (Q := λ _ w', sound U w');
    [|intros [resp|e] w' H; [exact H|apply wp_of_keeps; [unfold booking_catch; keeps_auto|exact H]]].
  wp_inv (sound U).
  wp_inv (sound U).
  apply wp_bind. unfold select_salle. apply wp_pool_query.
  { intros w' Hc Hd. destruct HI1. split; [now rewrite Hc|now rewrite Hd]. }
  simpl. intros w3 Hcur Hcom.
  assert (Hs3 : sound U w3).
  { destruct HI1. split; [destruct Hcom as [-> | ->]; rewrite ?Hcur|rewrite Hcur]; auto. }
  destruct (salles (current w2) !! body_salle_id value) as [salle0|] eqn:Hsalle;
    simpl; [|exact Hs3].
  apply wp_bind, wp_when; [intros _; exact Hs3|]. intros _.
  apply wp_bind. unfold checkReservationConflict. apply wp_bind, wp_pool_query.
  { intros w' Hc Hd. destruct Hs3. split; [now rewrite Hc|now rewrite Hd]. }
  simpl. intros w4 Hcur4 Hcom4. apply wp_ret.
  assert (Hs4 : sound U w4).
  { destruct Hs3. split; [destruct Hcom4 as [-> | ->]; rewrite ?Hcur4|rewrite Hcur4]; auto. }
  apply wp_bind, wp_when; [intros _; exact Hs4|]. intros Hnone.
  apply no_rows_free_slot in Hnone.
  assert (Hready : ready U value w4).
  { destruct Hs4 as [Hc Hd]. split; [exact Hc|]. split; [exact Hd|].
    rewrite Hcur4. split; [exact Hnone|]. rewrite Hcur, Hsalle. eauto. }
  apply wp_bind. unfold insert_reservation. apply wp_pool_query.
  { intros w' Hc Hd. destruct Hs4. split; [now rewrite Hc|now rewrite Hd]. }
  simpl. intros w5 Hcur5 Hcom5.
  assert (Hs5 : sound U w5).
  { destruct Hready as [Hc Hb].
    assert (consistent U (current w5)).
    { rewrite Hcur5. now apply consistent_insert. }
    split; [destruct Hcom5 as [-> | ->]|]; auto. }
  apply wp_of_keeps; [keeps_auto|exact Hs5].
Qed.

(** With the foreign keys in place the two inner joins lose no row: every
    row the WHERE clause selects is among the rows the priority handler
    cancels. *)
Lemma selected_by_conflict_query db (where_ : reservation → bool) x :
  referential_integrity db → x ∈ reservations db → where_ x = true →
  existsb (Z.eqb (id x))
    (map (λ c, id (row c)) (flat_map (join db) (List.filter where_ (reservations db))))
  = true.
Proof.
  intros Hri Hx Hw. apply existsb_exists. exists (id x). split; [|apply Z.eqb_refl].
  destruct (Hri x Hx) as [[u Hu] [s Hs]].
  apply in_map_iff.
  exists {| row := x; joined_utilisateur_nom := utilisateur_nom u;
            joined_utilisateur_telephone := utilisateur_telephone u;
            joined_salle_nom := salle_nom s |}.
  split; [reflexivity|]. apply in_flat_map. exists x. split.
  - apply filter_In. split; [now apply list_elem_of_In|exact Hw].
  - unfold join. rewrite Hu, Hs. now left.
Qed.

Lemma free_slot_no_conflict value db :
  referential_integrity db →
  (0 <? length (flat_map (join db)
                  (List.filter
                     (priority_conflict_where (body_salle_id value) (body_date value)
                        (body_heure_debut value) (body_heure_fin value))
                     (reservations db))))%nat = false →
  free_slot value db.
Proof.
  intros Hri Hlen x Hx. apply not_true_is_false. intros Hw.
  pose proof (selected_by_conflict_query db
                (priority_conflict_where (body_salle_id value) (body_date value)
                   (body_heure_debut value) (body_heure_fin value)) x Hri Hx Hw) as H.
  destruct (flat_map _ _); [discriminate H|discriminate Hlen].
Qed.

Lemma free_slot_after_preemption now value db :
  referential_integrity db →
  free_slot value
    (with_reservations
       (map (λ x,
          if existsb (Z.eqb (id x))
               (map (λ c, id (row c))
                  (flat_map (join db)
                     (List.filter
                        (priority_conflict_where (body_salle_id value) (body_date value)
                           (body_heure_debut value) (body_heure_fin value))
                        (reservations db))))
          then annuler now x else x)
          (reservations db))
       db).
Proof.
  intros Hri y Hy. simpl in Hy. apply list_elem_of_fmap in Hy as (x & -> & Hx).
  destruct (existsb _ _) eqn:Hex.
  - unfold conflict_where. simpl. now rewrite !andb_false_r.
  - apply not_true_is_false. intros Hw.
    pose proof (selected_by_conflict_query db
                  (priority_conflict_where (body_salle_id value) (body_date value)
                     (body_heure_debut value) (body_heure_fin value)) x Hri Hx Hw) as H.
    congruence.
Qed.

Lemma createPriorityReservation_sound U today now user value w :
  is_Some (U !! user_id user) → sound U w →
  wp (createPriorityReservation today now user value) (λ _ w', sound U w') w.
Proof.
  intros Huser Hw. unfold createPriorityReservation.
  apply wp_try.
  eapply wp_mono with (Q := λ _ w', sound U w'); [|intros [resp|e] w' H; exact H].
  wp_inv (sound U).
  apply wp_try.
  eapply wp_mono with (Q := λ _ w', sound U w');
    [|intros [resp|e] w' H; [exact H|apply wp_of_keeps; [unfold booking_catch; keeps_auto|exact H]]].
  wp_inv (sound U).
  wp_inv (sound U).
  apply wp_bind. unfold select_salle. apply wp_pool_query.
  { intros w' Hc Hd. destruct HI1. split; [now rewrite Hc|now rewrite Hd]. }
  simpl. intros w3 Hcur Hcom.
  assert (Hs3 : sound U w3).
  { destruct HI1. split; [destruct Hcom as [-> | ->]; rewrite ?Hcur|rewrite Hcur]; auto. }
  destruct (salles (current w2) !! body_salle_id value) as [salle0|] eqn:Hsalle;
    simpl; [|exact Hs3].
  apply wp_bind, wp_when; [intros _; exact Hs3|]. intros _.
  apply wp_bind. unfold select_joined. apply wp_pool_query.
  { intros w' Hc Hd. destruct Hs3. split; [now rewrite Hc|now rewrite Hd]. }
  simpl. intros w4 Hcur4 Hcom4.
  assert (Hs4 : sound U w4).
  { destruct Hs3. split; [destruct Hcom4 as [-> | ->]; rewrite ?Hcur4|rewrite Hcur4]; auto. }
  assert (Hsalle4 : is_Some (salles (current w4) !! body_salle_id value)).
  { rewrite Hcur4, Hcur, Hsalle. eauto. }
  rewrite <- Hcur4.
  set (conflictResult := flat_map _ _).
  apply wp_bind.
  eapply wp_mono with
    (Q := λ o w', match o with
                  | Returned _ => ready U value w'
                  | Thrown _ => sound U w'
                  end).
  { destruct (0 <? length conflictResult)%nat eqn:Hlen.
    - apply wp_bind. unfold update_statut. apply wp_pool_query.
      { intros w' Hc Hd. destruct Hs4. split; [now rewrite Hc|now rewrite Hd]. }
      simpl. intros w5 Hcur5 Hcom5.
      assert (Hready : ready U value w5).
      { destruct Hs4 as [Hc Hd].
        assert (Hb : bookable U value (current w5)).
        { rewrite Hcur5. split; [now apply consistent_cancel|].
          split; [|exact Hsalle4]. apply free_slot_after_preemption, Hd. }
        split; [destruct Hcom5 as [-> | ->]|]; auto. apply Hb. }
      apply (wp_keeps (ready U value)); [keeps_auto|exact Hready|].
      intros [?|?] w' H; [exact H|eapply ready_sound, H].
    - apply wp_ret. destruct Hs4 as [Hc Hd]. split; [exact Hc|].
      split; [exact Hd|]. split; [|exact Hsalle4].
      apply free_slot_no_conflict; [apply Hd|exact Hlen]. }
  intros [[smsStatus notificationStatus]|e] w5 H5; [|exact H5].
  apply wp_bind. unfold insert_reservation. apply wp_pool_query.
  { intros w' Hc Hd. apply ready_sound in H5. destruct H5.
    split; [now rewrite Hc|now rewrite Hd]. }
  simpl. intros w6 Hcur6 Hcom6.
  assert (Hs6 : sound U w6).
  { destruct H5 as [Hc Hb].
    assert (consistent U (current w6)).
    { rewrite Hcur6. now apply consistent_insert. }
    split; [destruct Hcom6 as [-> | ->]|]; auto. }
  apply wp_of_keeps; [keeps_auto|exact Hs6].
Qed.

Lemma reachable_sound w : reachable w → ∃ U, sound U w.
Proof.
  induction 1 as [w Ht Hrs|w op _ [U IH] Hauth|w faults g _ [U IH]].
  - exists (utilisateurs (committed w)).
    assert (Hc : consistent (utilisateurs (committed w)) (committed w)).
    { split; [|split; [|reflexivity]].
      - rewrite Hrs. intros i j r1 r2 _ Hi. discriminate Hi.
      - intros x Hx. rewrite Hrs in Hx. inversion Hx. }
    split; [exact Hc|]. unfold current. rewrite Ht. exact Hc.
  - exists U.
    assert (Huser : is_Some (U !! user_id (requester op))).
    { destruct IH as [_ (_ & _ & <-)]. exact Hauth. }
    destruct op as [today now user value|today now user value|now user reservationId];
      simpl in *.
    + now apply createReservation_sound.
    + now apply createPriorityReservation_sound.
    + now apply cancelReservation_sound.
  - exists U. exact IH.
Qed.

(** C1. In every world reached from an empty table of reservations by
    requests to create, to create with priority and to cancel, run one after
    the other by users of the database, whether the requests succeed or fail
    and whatever statements fail and whatever the gateway answers, no two
    distinct active reservations of the durable table hold the same room on the
    same date for overlapping half-open windows. *)
Theorem no_two_active_reservations_overlap (w : world) :
  reachable w → no_double_booking (reservations (committed w)).
Proof. intros H. destruct (reachable_sound w H) as [U [[Hnd _] _]]. exact Hnd. Qed.

Lemma no_two_active_reservations_overlap_witness :
  no_double_booking
    (reservations
       (committed
          (run (Create today_10 100 p_alice (booking 1 10 600 660))
             (run (Create today_10 100 p_bob (booking 1 10 540 600))
                (world0 [] (λ _, true))).2).2)).
Proof.
  apply no_two_active_reservations_overlap.
  apply reachable_request; [apply reachable_request|].
  - apply reachable_initial; reflexivity.
  - vm_compute. eauto.
  - vm_compute. eauto.
Defined.

(** ** A booking in a world without faults *)

(** Runs a statement in a world that is written out. *)
Ltac wp_exec :=
  unfold wp at 1;
  cbn [pool_begin pool_commit pool_rollback pool_query next_fault fault_of log store
       set_transaction current default from_option after_sms committed transaction
       db_faults gateway dispatched trace fst snd tail ret throw
       select_salle insert_reservation insert_notification update_statut select_joined
       option_list with_reservations
       reservations reservations_id_seq salles utilisateurs notifications Datatypes.id].


(** The [catch] of a booking in a world without faults: the rollback
    succeeds and the error is reported. *)
Ltac wp_caught :=
  wp_exec; unfold booking_catch; apply wp_bind; wp_exec; wp_exec;
  split; [reflexivity|split; [reflexivity|cbn; rewrite <- ?app_assoc; reflexivity]].

Lemma conflict_rows_positive (f : reservation → bool) rs :
  (0 <? length (map id (List.filter (λ x, f x && true) rs)))%nat = existsb f rs.
Proof.
  induction rs as [|x rs IH]; simpl; [reflexivity|].
  rewrite andb_true_r. destruct (f x); simpl; [reflexivity|exact IH].
Qed.

Lemma createReservation_run today now user value c g n tr :
  wp (createReservation today now user value)
     (λ o w',
        match preconditions today c value with
        | inl e =>
            o = Returned (error_response e)
            ∧ committed w' = c
            ∧ trace w' = tr ++ map (λ s, Query s true) (statements_until e)
        | inr room =>
            ∃ rr,
              o = Returned
                    {| status := 201;
                       json := ReservationCreee (requested_row now c user value)
                                 (salle_nom room) (user_nom user)
                                 (roster_success rr) (summary rr) true |}
              ∧ committed w' = booked now c user value (roster_success rr)
              ∧ transaction w' = None
              ∧ trace w'
                = tr ++ [Query BEGIN true; Query SELECT_salle true;
                         Query SELECT_conflict true; Query INSERT_reservation true;
                         Query SELECT_utilisateurs true]
                     ++ map sms_event (results rr)
                     ++ [Query INSERT_notification true; Query COMMIT true]
              ∧ roster_success rr = existsb success (results rr)
              ∧ (roster_success rr = true → ∃ k, g k = true)
        end)
     (World c None [] g n tr).
Proof.
  unfold createReservation, preconditions, room_preconditions.
  apply wp_try, wp_bind. wp_exec.
  apply wp_try, wp_bind, wp_when; [intros ->; wp_caught|intros ->; wp_exec].
  apply wp_bind, wp_when;
    [intros H; replace (body_heure_fin value - body_heure_debut value <? 60) with true by lia;
     wp_caught
    |intros H; replace (body_heure_fin value - body_heure_debut value <? 60) with false by lia;
     wp_exec].
  apply wp_bind. wp_exec.
  destruct (salles c !! body_salle_id value) as [salle0|] eqn:Hsalle; cbn [option_list];
    [|wp_caught].
  apply wp_bind, wp_when;
    [intros Hd; apply negb_true_iff in Hd; rewrite Hd; wp_caught
    |intros Hd; apply negb_false_iff in Hd; rewrite Hd; wp_exec].
  apply wp_bind. unfold checkReservationConflict. apply wp_bind. wp_exec. wp_exec.
  rewrite conflict_rows_positive. fold (slot_taken c value).
  apply wp_bind, wp_when; [intros ->; wp_caught|intros ->; wp_exec].
  apply wp_bind. wp_exec.
  apply wp_bind, wp_try, wp_bind. unfold wp at 1.
  match goal with |- context [sendReservationSMS ?a ?b ?c ?d ?w] =>
    destruct (sendReservationSMS_run a b c d w) as (rr & k & Hrr & Hflag & _ & Hgw);
    rewrite Hrr; clear Hrr end.
  cbn [fst snd]. apply wp_ret. cbn beta iota.
  cbn [after_sms next_fault log fault_of tail negb committed transaction db_faults
       gateway dispatched trace fst snd] in *.
  apply wp_bind, wp_try, wp_bind. wp_exec.
  wp_exec. apply wp_bind. wp_exec. wp_exec.
  exists rr.
  split; [reflexivity|]. split; [reflexivity|]. split; [reflexivity|].
  split; [rewrite <- !app_assoc; reflexivity|]. split; assumption.
Qed.

(** X23. In a world where no statement fails, [createReservation] evaluates
    its five preconditions in this order, and the first one that fails
    decides the error and stops the request: (1) the midnight UTC of the date
    is not before the local midnight of the server, else PastDateError; (2) the
    window lasts at least 60 minutes, else MinDurationError; (3) the room
    exists, else RoomNotFoundError; (4) the room is available, else
    RoomUnavailableError; (5) no active reservation of the room on the date
    conflicts, else SlotConflictError. On an error nothing is stored and no
    statement of a later check is sent; only when all five hold is the row
    inserted, as an active reservation. *)
Theorem createReservation_checks_in_order
    (today now : Z) (user : principal) (value : request) (w : world) :
  db_faults w = [] → transaction w = None →
  wp (createReservation today now user value)
     (checked_in_order today now user value w) w.
Proof.
  destruct w as [c t fs g n tr]. simpl. intros -> ->.
  eapply wp_mono; [apply createReservation_run|].
  intros o w'. unfold checked_in_order. simpl.
  destruct (preconditions today c value) as [e|room]; [exact (λ H, H)|].
  intros (rr & Ho & Hc & _). rewrite Ho, Hc.
  eexists _, _, _. repeat split.
Qed.

Lemma createReservation_checks_in_order_witness :
  wp (createReservation today_10 100 p_bob (booking 1 10 540 570))
     (checked_in_order today_10 100 p_bob (booking 1 10 540 570) (world0 [] (λ _, true)))
     (world0 [] (λ _, true))
  ∧ wp (createReservation today_10 100 p_bob (booking 1 10 540 600))
       (checked_in_order today_10 100 p_bob (booking 1 10 540 600) (world0 [] (λ _, true)))
       (world0 [] (λ _, true)).
Proof.
  split.
  - exact (createReservation_checks_in_order today_10 100 p_bob (booking 1 10 540 570)
             (world0 [] (λ _, true)) eq_refl eq_refl).
  - exact (createReservation_checks_in_order today_10 100 p_bob (booking 1 10 540 600)
             (world0 [] (λ _, true)) eq_refl eq_refl).
Defined.

(** ** The check of the date and the clock of the server *)

Lemma east_of_utc_same_day jour tz d :
  0 ≤ tz < 1440 → (utc_midnight d <? local_midnight jour tz) = (d <? jour).
Proof.
  intros Htz. unfold utc_midnight, local_midnight.
  destruct (Z.ltb_spec d jour); [apply Z.ltb_lt|apply Z.ltb_ge]; lia.
Qed.

Lemma west_of_utc_today_is_past jour tz :
  tz < 0 → (utc_midnight jour <? local_midnight jour tz) = true.
Proof. intros Htz. unfold utc_midnight, local_midnight. apply Z.ltb_lt. lia. Qed.

Lemma slot_taken_overlaps db value :
  (∀ r, r ∈ reservations db → heure_debut r < heure_fin r) →
  body_heure_debut value < body_heure_fin value →
  slot_taken db value = slot_overlaps db value.
Proof.
  intros Hrows Hvalue. unfold slot_taken, slot_overlaps.
  induction (reservations db) as [|r rs IH]; [reflexivity|].
  simpl. rewrite IH by (intros x Hx; apply Hrows; now right).
  unfold conflict_where at 1.
  rewrite conflict_clause_overlap; [reflexivity| |exact Hvalue].
  apply Hrows. now left.
Qed.

Lemma preconditions_as_claimed jour tz db value :
  0 ≤ tz < 1440 →
  (∀ r, r ∈ reservations db → heure_debut r < heure_fin r) →
  preconditions (local_midnight jour tz) db value = claimed_preconditions jour db value.
Proof.
  intros Htz Hrows. unfold preconditions, room_preconditions, claimed_preconditions.
  rewrite east_of_utc_same_day by exact Htz.
  destruct (body_date value <? jour); [reflexivity|].
  destruct (Z.ltb_spec (body_heure_fin value - body_heure_debut value) 60);
    [reflexivity|].
  destruct (salles db !! body_salle_id value) as [room|]; [|reflexivity].
  destruct (String.eqb (salle_statut room) "disponible"); [|reflexivity].
  rewrite slot_taken_overlaps by (trivial; lia). reflexivity.
Qed.

(** X24. On a server whose clock is at UTC or ahead of it by less than a
    day, the check of the date is the comparison of two calendar days. There,
    in a world where no statement fails and every stored reservation ends after
    it starts, [createReservation] makes the five checks as section 4.3 words
    them, in order: (1) the date is not before the current calendar day; (2)
    the window lasts at least 60 minutes; (3) the room exists; (4) the room is
    available; (5) no active reservation of the room on the date overlaps the
    window. The first that fails decides the error, nothing is stored and no
    statement of a later check is sent; when all five hold the row is inserted
    as an active reservation. *)
Theorem createReservation_checks_as_specified_east_of_utc
    (jour tz now : Z) (user : principal) (value : request) (w : world) :
  0 ≤ tz < 1440 →
  db_faults w = [] → transaction w = None →
  (∀ r, r ∈ reservations (committed w) → heure_debut r < heure_fin r) →
  wp (createReservation (local_midnight jour tz) now user value)
     (checked_as_claimed jour now user value w) w.
Proof.
  intros Htz Hf Ht Hrows. unfold checked_as_claimed.
  rewrite <- (preconditions_as_claimed jour tz) by assumption.
  destruct w as [c t fs g n tr]. simpl in *. subst fs t.
  eapply wp_mono; [apply createReservation_run|].
  intros o w'. simpl.
  destruct (preconditions (local_midnight jour tz) c value) as [e|room];
    [exact (λ H, H)|].
  intros (rr & Ho & Hc & _). rewrite Ho, Hc.
  eexists _, _, _. repeat split.
Qed.

Lemma createReservation_checks_as_specified_east_of_utc_witness :
  wp (createReservation (local_midnight 10 60) 100 p_alice (booking 1 10 570 630))
     (checked_as_claimed 10 100 p_alice (booking 1 10 570 630) world1) world1
  ∧ wp (createReservation (local_midnight 10 60) 100 p_alice (booking 1 10 600 660))
       (checked_as_claimed 10 100 p_alice (booking 1 10 600 660) world1) world1.
Proof.
  assert (Hrows : ∀ r, r ∈ reservations (committed world1) → heure_debut r < heure_fin r).
  { intros r Hr. apply list_elem_of_singleton in Hr. subst r. simpl. lia. }
  split.
  - apply (createReservation_checks_as_specified_east_of_utc 10 60 100 p_alice
             (booking 1 10 570 630) world1); [lia|reflexivity|reflexivity|exact Hrows].
  - apply (createReservation_checks_as_specified_east_of_utc 10 60 100 p_alice
             (booking 1 10 600 660) world1); [lia|reflexivity|reflexivity|exact Hrows].
Defined.

(** C3. The check of the date compares two instants, the midnight UTC of
    the requested date and the local midnight of the server, not two calendar
    days. On a server whose clock is five hours behind UTC a booking for the
    current day, which passes the five checks as section 4.3 words them, is
    answered with PastDateError, and nothing is stored. *)
Theorem createReservation_refuses_today_west_of_utc :
  claimed_preconditions 10 db0 (booking 1 10 540 600) = inr salle_A
  ∧ (createReservation (local_midnight 10 (-300)) 100 p_bob (booking 1 10 540 600)
       (world0 [] (λ _, true))).1
    = Returned (error_response PastDateError)
  ∧ committed
      (createReservation (local_midnight 10 (-300)) 100 p_bob (booking 1 10 540 600)
         (world0 [] (λ _, true))).2
    = db0.
Proof. split; [|split]; vm_compute; reflexivity. Qed.

(** C7. The flag the roster fan-out returns is true if and only if one of
    the calls of [sendSMS] it made was delivered. And in a world where no
    statement fails, a booking whose preconditions hold succeeds whatever the
    gateway answers: the response is 201, the row is stored and committed, and
    [smsStatus] is true exactly when an SMS was delivered; it is false when
    every dispatch fails. *)
Theorem dispatch_failures_do_not_fail_the_booking
    (today now : Z) (user : principal) (value : request) (w : world) (room : salle) :
  (∀ nomSalle jour heureDebut heureFin,
     ∃ rr evs,
       (sendReservationSMS nomSalle jour heureDebut heureFin w).1 = Returned rr
       ∧ trace (sendReservationSMS nomSalle jour heureDebut heureFin w).2 = trace w ++ evs
       ∧ sms_outcomes evs = map success (results rr)
       ∧ (roster_success rr = true ↔ ∃ to, SMS to true ∈ evs))
  ∧ (db_faults w = [] → transaction w = None →
     preconditions today (committed w) value = inr room →
     wp (createReservation today now user value)
        (booked_whatever_the_dispatches now user value room w) w).
Proof.
  split; [intros; apply sendReservationSMS_success_iff|].
  destruct w as [c t fs g n tr]. simpl. intros -> -> Hpre.
  eapply wp_mono; [apply createReservation_run|].
  intros o w'. rewrite Hpre. simpl.
  intros (rr & Ho & Hc & Ht & Htr & Hflag & Hgw).
  unfold booked_whatever_the_dispatches. simpl. rewrite Ho, Hc.
  eexists _, _, _. split; [reflexivity|]. split; [reflexivity|].
  split; [exact Ht|]. split; [exact Htr|]. split.
  - rewrite <- existsb_sms_delivered. simpl.
    rewrite sms_outcomes_app, sms_outcomes_map_sms_event. simpl.
    rewrite app_nil_r, Hflag.
    clear. induction (results rr) as [|x rs IH]; simpl; [tauto|].
    destruct (success x); simpl; tauto.
  - intros Hall. apply not_true_is_false. intros Hs.
    destruct (Hgw Hs) as [k Hk]. congruence.
Qed.

Lemma dispatch_failures_do_not_fail_the_booking_witness :
  wp (createReservation today_10 100 p_bob (booking 1 10 540 600))
     (booked_whatever_the_dispatches 100 p_bob (booking 1 10 540 600) salle_A
        (world0 [] (λ _, false)))
     (world0 [] (λ _, false)).
Proof.
  refine (proj2 (dispatch_failures_do_not_fail_the_booking today_10 100 p_bob
                   (booking 1 10 540 600) (world0 [] (λ _, false)) salle_A)
            eq_refl eq_refl _).
  vm_compute. reflexivity.
Defined.

(** ** A cancellation in a world without faults *)

(** With the foreign keys in place, the first row the joined query returns
    is the first reservation with the identifier. *)
Lemma joined_rows_find db (P : reservation → bool) rs :
  (∀ x, x ∈ rs → is_Some (utilisateurs db !! utilisateur_id x)
                  ∧ is_Some (salles db !! salle_id x)) →
  match flat_map (join db) (List.filter P rs) with
  | [] => List.find P rs = None
  | j :: _ => List.find P rs = Some (row j)
  end.
Proof.
  induction rs as [|x rs IH]; intros Hri; simpl; [reflexivity|].
  destruct (P x) eqn:HP; simpl.
  - destruct (Hri x) as [[u Hu] [s Hs]]; [apply list_elem_of_here|].
    unfold join at 1. rewrite Hu, Hs. reflexivity.
  - apply IH. intros y Hy. apply Hri. now apply list_elem_of_further.
Qed.

Ltac wp_cancel_refused :=
  apply wp_bind; wp_exec; wp_exec; repeat split.

Lemma cancelReservation_run now user reservationId c g n tr :
  referential_integrity c →
  wp (cancelReservation now user reservationId)
     (cancelled_in_order now user reservationId (World c None [] g n tr))
     (World c None [] g n tr).
Proof.
  intros Hri. unfold cancelReservation, cancelled_in_order, cancel_preconditions.
  apply wp_try, wp_bind. wp_exec. apply wp_bind. wp_exec.
  pose proof (joined_rows_find c (λ x, id x =? reservationId) (reservations c) Hri) as Hfind.
  destruct (flat_map _ _) as [|reservation_ others]; rewrite Hfind.
  { wp_cancel_refused. }
  apply find_some in Hfind as [_ Hid]. apply Z.eqb_eq in Hid.
  destruct (utilisateur_id (row reservation_) =? user_id user),
    (user_role user =? "admin")%string; cbn [negb andb orb].
  4:{ wp_cancel_refused. }
  all: destruct (statut (row reservation_) =? "active")%string; cbn [negb];
    [|wp_cancel_refused].
  all: apply wp_bind; wp_exec.
  all: apply wp_bind, wp_try, wp_bind; unfold sendCancellationSMS, wp at 1.
  all: match goal with |- context [sendSMS ?a ?b ?w] =>
         destruct (sendSMS_run a b w) as (res & Hres & _); rewrite Hres; clear Hres end.
  all: cbn [fst snd]; apply wp_ret; cbn beta iota.
  all: cbn [after_sms committed transaction db_faults gateway dispatched trace].
  all: apply wp_bind, wp_try, wp_bind; wp_exec; wp_exec; apply wp_bind; wp_exec; wp_exec.
  all: split; [reflexivity|]; split; [reflexivity|]; exists (success res).
  all: split; [reflexivity|]; unfold cancelled; rewrite Hid; reflexivity.
Qed.






(** ** The priority booking *)

Section Throws.
Context {A B : Type}.
Variable E : exn → Prop.





End Throws.








(** One turn of the loop over the preempted reservations in a world without
    faults: it records a notification and touches nothing else. *)
Lemma notify_preempted_run conflict acc c d g n tr :
  ∃ flags d' k evs,
    notify_preempted conflict acc (World c (Some d) [] g n tr)
    = (Returned flags, World c (Some d') [] g k (tr ++ evs))
    ∧ reservations d' = reservations d
    ∧ reservations_id_seq d' = reservations_id_seq d
    ∧ salles d' = salles d
    ∧ utilisateurs d' = utilisateurs d.
Proof.
  destruct acc as [smsStatus notificationStatus].
  unfold notify_preempted, try_catch at 1, bind at 1, sendPriorityReservationSMS.
  match goal with |- context [sendSMS ?a ?b ?w] =>
    destruct (sendSMS_run a b w) as (res & Hres & _); rewrite Hres; clear Hres end.
  cbn. unfold log. cbn. rewrite <- app_assoc.
  eexists _, _, _, _. split; [reflexivity|]. repeat split.
Qed.

Lemma notify_loop_run rows : ∀ acc c d g n tr,
  ∃ flags d' k evs,
    for_of rows notify_preempted acc (World c (Some d) [] g n tr)
    = (Returned flags, World c (Some d') [] g k (tr ++ evs))
    ∧ reservations d' = reservations d
    ∧ reservations_id_seq d' = reservations_id_seq d
    ∧ salles d' = salles d
    ∧ utilisateurs d' = utilisateurs d.
Proof.
  induction rows as [|conflict rows IH]; intros acc c d g n tr.
  - exists acc, d, n, []. simpl. unfold ret. rewrite app_nil_r. repeat split.
  - simpl. unfold bind at 1.
    destruct (notify_preempted_run conflict acc c d g n tr)
      as (flags1 & d1 & k1 & evs1 & Hrun1 & H1 & H2 & H3 & H4).
    rewrite Hrun1.
    destruct (IH flags1 c d1 g k1 (tr ++ evs1))
      as (flags & d' & k & evs & Hrun & H1' & H2' & H3' & H4').
    rewrite Hrun. exists flags, d', k, (evs1 ++ evs).
    rewrite app_assoc. split; [reflexivity|]. repeat split; congruence.
Qed.

Lemma joined_rows_length db (P : reservation → bool) rs :
  (∀ x, x ∈ rs → is_Some (utilisateurs db !! utilisateur_id x)
                  ∧ is_Some (salles db !! salle_id x)) →
  length (flat_map (join db) (List.filter P rs)) = length (List.filter P rs).
Proof.
  induction rs as [|x rs IH]; intros Hri; simpl; [reflexivity|].
  assert (Hrs : ∀ y, y ∈ rs → is_Some (utilisateurs db !! utilisateur_id y)
                              ∧ is_Some (salles db !! salle_id y)).
  { intros y Hy. apply Hri. now apply list_elem_of_further. }
  destruct (P x); simpl; [|now apply IH].
  destruct (Hri x) as [[u Hu] [s Hs]]; [apply list_elem_of_here|].
  unfold join at 1. rewrite Hu, Hs. simpl. now rewrite IH.
Qed.

Lemma joined_row_selected db (P : reservation → bool) rs j :
  In j (flat_map (join db) (List.filter P rs)) → In (row j) rs ∧ P (row j) = true.
Proof.
  intros Hj. apply in_flat_map in Hj as (x & Hx & Hj).
  apply filter_In in Hx. unfold join in Hj.
  destruct (utilisateurs db !! utilisateur_id x), (salles db !! salle_id x);
    try (inversion Hj; fail).
  destruct Hj as [<-|[]]. exact Hx.
Qed.

Lemma same_id_same_row rs (x y : reservation) :
  NoDup (map id rs) → In x rs → In y rs → id x = id y → x = y.
Proof.
  induction rs as [|z rs IH]; simpl; [intros _ []|].
  intros Hnd Hx Hy Hid. apply NoDup_cons in Hnd as [Hz Hnd].
  destruct Hx as [->|Hx], Hy as [->|Hy]; auto.
  - exfalso. apply Hz. rewrite Hid. apply list_elem_of_In, in_map, Hy.
  - exfalso. apply Hz. rewrite <- Hid. apply list_elem_of_In, in_map, Hx.
Qed.

(** With the foreign keys and the primary key in place, the rows the
    priority handler cancels are exactly the rows its conflict query
    selects. *)
Lemma cancelled_iff_selected db (P : reservation → bool) x :
  referential_integrity db → NoDup (map id (reservations db)) → x ∈ reservations db →
  existsb (Z.eqb (id x))
    (map (λ c, id (row c)) (flat_map (join db) (List.filter P (reservations db))))
  = P x.
Proof.
  intros Hri Hnd Hx. destruct (P x) eqn:HP.
  - now apply selected_by_conflict_query.
  - apply not_true_is_false. intros H. apply existsb_exists in H as (i & Hi & Heq).
    apply Z.eqb_eq in Heq. apply in_map_iff in Hi as (j & <- & Hj).
    apply joined_row_selected in Hj as [Hin HPj].
    assert (x = row j).
    { apply (same_id_same_row (reservations db)); auto. now apply list_elem_of_In. }
    congruence.
Qed.

Lemma createPriorityReservation_run today now user value room c g n tr :
  referential_integrity c → NoDup (map id (reservations c)) →
  room_preconditions today c value = inr room →
  wp (createPriorityReservation today now user value)
     (preempted_and_booked now user value room (World c None [] g n tr))
     (World c None [] g n tr).
Proof.
  intros Hri Hnd. unfold room_preconditions, createPriorityReservation.
  destruct (utc_midnight (body_date value) <? today) eqn:Hpast; [discriminate|].
  destruct (body_heure_fin value - body_heure_debut value <? 60) eqn:Hshort; [discriminate|].
  destruct (salles c !! body_salle_id value) as [salle0|] eqn:Hsalle; [|discriminate].
  destruct (salle_statut salle0 =? "disponible")%string eqn:Hdispo; [|discriminate].
  intros [= <-].
  apply wp_try, wp_bind. wp_exec.
  apply wp_try, wp_bind, wp_when; [discriminate|intros _].
  apply wp_bind, wp_when; [intros H; exfalso; lia|intros _].
  apply wp_bind. wp_exec. rewrite Hsalle. cbn [option_list].
  apply wp_bind. rewrite Hdispo. apply wp_when; [discriminate|intros _].
  apply wp_bind. wp_exec.
  set (conflicting := priority_conflict_where (body_salle_id value) (body_date value)
                        (body_heure_debut value) (body_heure_fin value)).
  set (conflictResult := flat_map (join c) (List.filter conflicting (reservations c))).
  assert (Hlen : length conflictResult = length (List.filter conflicting (reservations c)))
    by (apply joined_rows_length, Hri).
  assert (Hmap :
    map (λ x, if existsb (Z.eqb (id x)) (map (λ j, id (row j)) conflictResult)
              then annuler now x else x) (reservations c)
    = map (λ x, if conflicting x then annuler now x else x) (reservations c)).
  { apply map_ext_in. intros x Hx.
    unfold conflictResult. rewrite cancelled_iff_selected; auto. now apply list_elem_of_In. }
  apply wp_bind.
  eapply wp_mono with
    (Q := λ o w',
       ∃ flags d' k evs,
         o = Returned flags
         ∧ w' = World c (Some d') [] g k evs
         ∧ reservations d'
           = map (λ x, if conflicting x then annuler now x else x) (reservations c)
         ∧ reservations_id_seq d' = reservations_id_seq c
         ∧ salles d' = salles c ∧ utilisateurs d' = utilisateurs c).
  { destruct (0 <? length conflictResult)%nat eqn:Hpos.
    - apply wp_bind. wp_exec. unfold wp, log.
      cbn [committed transaction db_faults gateway dispatched trace].
      match goal with |- context [for_of _ _ ?acc (World ?c (Some ?d1) [] ?g ?n1 ?tr1)] =>
        destruct (notify_loop_run conflictResult acc c d1 g n1 tr1)
          as (flags & d' & k & evs & Hrun & H1 & H2 & H3 & H4) end.
      rewrite Hrun. simpl in *. exists flags, d', k. eexists.
      split; [reflexivity|]. split; [reflexivity|]. rewrite H1, Hmap. auto.
    - wp_exec. eexists (true, true), c, n, _.
      split; [reflexivity|]. split; [reflexivity|]. split; [|auto].
      rewrite <- Hmap. destruct conflictResult; [|discriminate]. simpl.
      now rewrite map_id. }
  intros o w' ([smsStatus notificationStatus] & d' & k & evs & -> & -> & H1 & H2 & H3 & H4).
  apply wp_bind. wp_exec.
  apply wp_bind, wp_try, wp_bind. unfold sendSingleReservationSMS, wp at 1.
  match goal with |- context [sendSMS ?a ?b ?w] =>
    destruct (sendSMS_run a b w) as (res & Hres & _); rewrite Hres; clear Hres end.
  cbn [fst snd]. cbn [after_sms committed transaction db_faults gateway dispatched trace].
  apply wp_bind, wp_try, wp_bind. wp_exec. wp_exec. wp_exec.
  apply wp_bind. wp_exec. wp_exec.
  unfold preempted_and_booked. cbn [committed transaction reservations].
  eexists _, _. rewrite Hlen.
  split; [unfold requested_row, new_reservation; rewrite H2; reflexivity|].
  split; [unfold requested_row, new_reservation; rewrite H1, H2; reflexivity|].
  split; reflexivity.
Qed.



(** ** The [smsStatus] of a priority booking *)

Section SmsLogged.
Variable tr0 : list event.
Variable outs : list bool.

Lemma sms_logged_query s ok w :
  sms_logged tr0 outs w → sms_logged tr0 outs (log (Query s ok) w).
Proof.
  intros (evs & Htr & Ho). exists (evs ++ [Query s ok]). simpl.
  rewrite Htr, app_assoc, sms_outcomes_app, Ho. simpl.
  split; [reflexivity|apply app_nil_r].
Qed.

Lemma pool_query_sms_logged {A} s (exec : database → A * database) :
  keeps (sms_logged tr0 outs) (pool_query s exec).
Proof.
  intros w H. unfold pool_query. simpl.
  destruct (fault_of (db_faults w)); simpl; apply sms_logged_query.
  - exact H.
  - destruct H as (evs & Htr & Ho). exists evs.
    unfold store. simpl. destruct (transaction w); simpl; auto.
Qed.

Lemma pool_begin_sms_logged : keeps (sms_logged tr0 outs) pool_begin.
Proof.
  intros w H. unfold pool_begin. simpl.
  destruct (fault_of (db_faults w)); simpl; apply sms_logged_query; exact H.
Qed.

Lemma pool_commit_sms_logged : keeps (sms_logged tr0 outs) pool_commit.
Proof.
  intros w H. unfold pool_commit. simpl.
  destruct (fault_of (db_faults w)); simpl; apply sms_logged_query; exact H.
Qed.

Lemma pool_rollback_sms_logged : keeps (sms_logged tr0 outs) pool_rollback.
Proof.
  intros w H. unfold pool_rollback. simpl.
  destruct (fault_of (db_faults w)); simpl; apply sms_logged_query; exact H.
Qed.

Lemma wp_sendSMS_logged to message (Q : outcome sms_result → world → Prop) w :
  sms_logged tr0 outs w →
  (∀ res w', sms_logged tr0 (outs ++ [success res]) w' → Q (Returned res) w') →
  wp (sendSMS to message) Q w.
Proof.
  intros (evs & Htr & Ho) HQ. unfold wp.
  destruct (sendSMS_run to message w) as (res & Hres & _). rewrite Hres. simpl.
  apply HQ. exists (evs ++ [sms_event res]). simpl.
  rewrite Htr, app_assoc, sms_outcomes_app, Ho. split; reflexivity.
Qed.
End SmsLogged.

#[export] Hint Resolve pool_query_sms_logged pool_begin_sms_logged
  pool_commit_sms_logged pool_rollback_sms_logged : keeps.

(** Recording the notification of a dispatch: never throws, logs no call of
    [sendSMS]. *)
Lemma wp_audit tr0 outs idUtilisateur idReservation message sent (ok : bool)
    (Q : outcome bool → world → Prop) w :
  sms_logged tr0 outs w →
  (∀ b w', sms_logged tr0 outs w' → Q (Returned b) w') →
  wp (try_catch
        (await insert_notification idUtilisateur idReservation message sent in ret ok)
        (λ _, ret false)) Q w.
Proof.
  intros H HQ.
  eapply (wp_keeps_yields (sms_logged tr0 outs) (λ _, True));
    [keeps_auto| |exact H|intros b w' _; apply HQ].
  apply yields_try; [auto|]. intros e. now apply yields_ret.
Qed.

(** The flag after a dispatch: [if (!smsResult.success) smsStatus = false]. *)
Lemma sms_flag_step (smsStatus d : bool) outs :
  smsStatus = forallb (λ d, d) outs →
  (if negb d then false else smsStatus) = forallb (λ d, d) (outs ++ [d]).
Proof.
  intros ->. rewrite forallb_app. simpl.
  destruct d; simpl; [now rewrite andb_true_r|now rewrite andb_false_r].
Qed.

Lemma wp_notify_loop tr0 rows :
  ∀ outs smsStatus notificationStatus (Q : outcome (bool * bool) → world → Prop) w,
    sms_logged tr0 outs w →
    smsStatus = forallb (λ d, d) outs →
    (∀ outs' flags w',
       sms_logged tr0 outs' w' → length outs' = (length outs + length rows)%nat →
       flags.1 = forallb (λ d, d) outs' → Q (Returned flags) w') →
    wp (for_of rows notify_preempted (smsStatus, notificationStatus)) Q w.
Proof.
  induction rows as [|conflict rows IH];
    intros outs smsStatus notificationStatus Q w Hlog Hflag HQ; simpl.
  - apply wp_ret, (HQ outs); [exact Hlog|simpl; lia|exact Hflag].
  - apply wp_bind. unfold notify_preempted at 1.
    apply wp_try, wp_bind. unfold sendPriorityReservationSMS.
    apply (wp_sendSMS_logged tr0 outs); [exact Hlog|]. intros res w1 H1.
    apply wp_bind, (wp_audit tr0 (outs ++ [success res])); [exact H1|].
    intros b w2 H2. apply wp_ret. cbn beta iota.
    apply (IH (outs ++ [success res])); [exact H2|now apply sms_flag_step|].
    intros outs' flags w' H' Hlen Hf. apply (HQ outs'); [exact H'| |exact Hf].
    rewrite Hlen, length_app. simpl. lia.
Qed.

Lemma createPriorityReservation_sms_status today now user value w :
  wp (createPriorityReservation today now user value)
     (sms_status_is_conjunction (trace w)) w.
Proof.
  set (tr0 := trace w). unfold createPriorityReservation.
  assert (H0 : sms_logged tr0 [] w) by (exists []; split; [symmetry; apply app_nil_r|reflexivity]).
  apply wp_try.
  eapply wp_mono with
    (Q := λ o w', match o with
                  | Returned resp => sms_status_is_conjunction tr0 (Returned resp) w'
                  | Thrown _ => True
                  end).
  2:{ intros [resp|e] w' H; [exact H|]. intros x ns nu n' s nf [= ]. }
  wp_inv (sms_logged tr0 []).
  apply wp_try.
  eapply wp_mono with
    (Q := λ o w', match o with
                  | Returned resp => sms_status_is_conjunction tr0 (Returned resp) w'
                  | Thrown _ => True
                  end).
  2:{ intros [resp|e] w' H; [exact H|].
      unfold wp, booking_catch, bind, pool_rollback. simpl.
      destruct (fault_of (db_faults w')); simpl; [exact I|].
      intros x ns nu n' s nf [= ]. }
  wp_inv (sms_logged tr0 []).
  wp_inv (sms_logged tr0 []).
  wp_inv (sms_logged tr0 []).
  destruct a2 as [|salle0 ?]; [exact I|].
  wp_inv (sms_logged tr0 []).
  wp_inv (sms_logged tr0 []).
  rename a4 into conflictResult.
  apply wp_bind.
  eapply wp_mono with
    (Q := λ o w', match o with
                  | Returned flags =>
                      ∃ outs, sms_logged tr0 outs w'
                              ∧ length outs = length conflictResult
                              ∧ flags.1 = forallb (λ d, d) outs
                  | Thrown _ => True
                  end).
  { destruct (0 <? length conflictResult)%nat eqn:Hpos.
    - wp_inv (sms_logged tr0 []).
      apply (wp_notify_loop tr0 conflictResult []); [exact HI5|reflexivity|].
      intros outs' flags w' H' Hlen Hf. exists outs'. auto.
    - apply wp_ret. exists []. split; [exact HI4|]. split; [|reflexivity].
      destruct conflictResult; [reflexivity|discriminate]. }
  intros [[smsStatus notificationStatus]|e] w6 H6; [|exact I].
  destruct H6 as (outs & Hlog & Hlen & Hflag). simpl in Hflag.
  wp_inv (sms_logged tr0 outs).
  apply wp_bind, wp_try, wp_bind. unfold sendSingleReservationSMS.
  apply (wp_sendSMS_logged tr0 outs); [exact HI5|]. intros res w8 H8.
  apply wp_bind, (wp_audit tr0 (outs ++ [success res])); [exact H8|].
  intros b w9 H9. apply wp_ret. cbn beta iota.
  wp_inv (sms_logged tr0 (outs ++ [success res])).
  apply wp_ret. intros x ns nu n' s nf [= <- <- <- <- <- <-].
  destruct HI6 as (evs & Htr & Ho). exists evs. split; [exact Htr|].
  rewrite Ho. split; [now apply sms_flag_step|].
  rewrite length_app, Hlen. simpl. lia.
Qed.

(** C10. For every priority booking that succeeds, in every world, the
    [smsStatus] of the response is the conjunction of the outcomes of all the
    calls of [sendSMS] of the request: one for the owner of each preempted
    reservation and one for the requesting administrator. It is true if and
    only if every one of them was delivered. *)
Theorem priority_sms_status_is_the_conjunction
    (today now : Z) (user : principal) (value : request) (w : world) :
  wp (createPriorityReservation today now user value)
     (sms_status_is_conjunction (trace w)) w.
Proof. apply createPriorityReservation_sms_status. Qed.

(** ** The scenarios of section 8 of the specification *)

Example booking_a_free_slot :
  status_code (createReservation today_10 100 p_bob (booking 1 10 540 600)
                 (world0 [] (λ _, true))).1 = 201
  ∧ map (λ x, (heure_debut x, heure_fin x, statut x))
      (reservations (committed after_first_booking))
    = [(540, 600, "active")].
Proof. split; vm_compute; reflexivity. Qed.

Example booking_the_same_window_again :
  (createReservation today_10 100 p_alice (booking 1 10 540 600) after_first_booking).1
  = Returned (error_response SlotConflictError).
Proof. vm_compute. reflexivity. Qed.

Example booking_an_overlapping_window :
  (createReservation today_10 100 p_alice (booking 1 10 570 630) after_first_booking).1
  = Returned (error_response SlotConflictError).
Proof. vm_compute. reflexivity. Qed.

Example booking_a_touching_window :
  status_code (createReservation today_10 100 p_alice (booking 1 10 600 660)
                 after_first_booking).1 = 201.
Proof. vm_compute. reflexivity. Qed.

Example booking_half_an_hour :
  (createReservation today_10 100 p_alice (booking 1 10 540 570) after_first_booking).1
  = Returned (error_response MinDurationError).
Proof. vm_compute. reflexivity. Qed.

Example booking_yesterday :
  (createReservation today_10 100 p_alice (booking 1 9 540 600) after_first_booking).1
  = Returned (error_response PastDateError).
Proof. vm_compute. reflexivity. Qed.

Example booking_a_room_out_of_service :
  (createReservation today_10 100 p_alice (booking 2 10 540 600) after_first_booking).1
  = Returned (error_response RoomUnavailableError).
Proof. vm_compute. reflexivity. Qed.

Example booking_a_room_that_does_not_exist :
  (createReservation today_10 100 p_alice (booking 3 10 540 600) after_first_booking).1
  = Returned (error_response RoomNotFoundError).
Proof. vm_compute. reflexivity. Qed.

Example priority_booking_over_one_reservation :
  let priority :=
    createPriorityReservation today_10 150 p_alice (booking 1 10 570 630) after_first_booking in
  (∃ x, priority.1
        = Returned {| status := 201;
                      json := ReservationPrioritaireCreee x "A" "Alice" 1 false true |})
  ∧ map (λ x, (heure_debut x, heure_fin x, statut x, updated_at x))
      (reservations (committed priority.2))
    = [(540, 600, "annulee", 150); (570, 630, "active", 150)]
  ∧ sms_outcomes (drop (length (trace after_first_booking)) (trace priority.2))
    = [false; true].
Proof. cbv zeta. split; [eexists|split]; vm_compute; reflexivity. Qed.

Example cancelling_twice :
  let first := cancelReservation 200 p_bob 1 after_first_booking in
  status_code first.1 = 200
  ∧ map (λ x, (statut x, updated_at x)) (reservations (committed first.2))
    = [("annulee", 200)]
  ∧ (cancelReservation 300 p_bob 1 first.2).1
    = Returned (cancel_error_response InvalidStateError).
Proof. cbv zeta. repeat split; vm_compute; reflexivity. Qed.

Example cancelling_the_reservation_of_another_user :
  (cancelReservation 200 p_bob 1 world1).1
  = Returned (cancel_error_response ForbiddenError)
  ∧ status_code (cancelReservation 200 p_alice 1 after_first_booking).1 = 200.
Proof. split; vm_compute; reflexivity. Qed.

Example cancelling_an_unknown_reservation :
  (cancelReservation 200 p_alice 7 after_first_booking).1
  = Returned (cancel_error_response NotFoundError).
Proof. vm_compute. reflexivity. Qed.

Example booking_when_no_sms_is_delivered :
  ∃ x details,
    (createReservation today_10 100 p_bob (booking 1 10 540 600) (world0 [] (λ _, false))).1
    = Returned {| status := 201;
                  json := ReservationCreee x "A" "Bob" false details true |}.
Proof. eexists _, _. vm_compute. reflexivity. Qed.

(** A COMMIT that fails: the SMS of the booking are out, the booking is
    not. *)
Example booking_whose_commit_fails :
  let create :=
    createReservation today_10 100 p_bob (booking 1 10 540 600)
      (world0 [false; false; false; false; false; false; true] (λ _, true)) in
  status_code create.1 = 500
  ∧ reservations (committed create.2) = []
  ∧ sms_outcomes (trace create.2) = [false; true].
Proof. cbv zeta. repeat split; vm_compute; reflexivity. Qed.

(** ** What the three requests leave alone *)

Section Throughout.
Variable P : database → Prop.

Lemma pool_query_throughout {A} s (exec : database → A * database) :
  (∀ db, P db → P (exec db).2) → keeps (throughout P) (pool_query s exec).
Proof.
  intros Hexec. apply keeps_wp. intros w [Hc Hd]. apply wp_pool_query.
  - intros w' Hc' Hd'. split; [now rewrite Hc'|now rewrite Hd'].
  - intros w' Hcur [Hc'|Hc']; split; rewrite ?Hc', ?Hcur; auto.
Qed.

Lemma messages_create_throughout to message :
  keeps (throughout P) (messages_create to message).
Proof.
  intros w H. unfold messages_create. destruct (gateway w (dispatched w)); exact H.
Qed.

Lemma log_sms_throughout to d : keeps (throughout P) (log_sms to d).
Proof. intros w H. exact H. Qed.

Lemma pool_begin_throughout : keeps (throughout P) pool_begin.
Proof.
  intros w [Hc Hd]. unfold pool_begin. simpl.
  destruct (fault_of (db_faults w)); simpl; split; assumption.
Qed.

Lemma pool_commit_throughout : keeps (throughout P) pool_commit.
Proof.
  intros w [Hc Hd]. unfold pool_commit. simpl.
  destruct (fault_of (db_faults w)); simpl; split; assumption.
Qed.

Lemma pool_rollback_throughout : keeps (throughout P) pool_rollback.
Proof.
  intros w [Hc Hd]. unfold pool_rollback. simpl.
  destruct (fault_of (db_faults w)); simpl; split; assumption.
Qed.
End Throughout.

#[export] Hint Resolve messages_create_throughout log_sms_throughout
  pool_begin_throughout pool_commit_throughout pool_rollback_throughout : keeps.

Lemma evolved_refl r : evolved r r.
Proof. now left. Qed.

Lemma evolved_annuler now r r' : evolved r r' → evolved r (annuler now r').
Proof. intros [->|[now' ->]]; right; exists now; reflexivity. Qed.

Lemma history_kept_insert rs db r :
  history_kept rs db →
  history_kept rs {| reservations := reservations db ++ [r];
                     reservations_id_seq := reservations_id_seq db + 1;
                     salles := salles db;
                     utilisateurs := utilisateurs db;
                     notifications := notifications db |}.
Proof.
  intros H i x Hx. destruct (H i x Hx) as (x' & Hx' & He).
  exists x'. split; [|exact He]. simpl. now apply lookup_app_l_Some.
Qed.

Lemma history_kept_update now (where_ : reservation → bool) rs db :
  history_kept rs db →
  history_kept rs
    (with_reservations
       (map (λ r, if where_ r then annuler now r else r) (reservations db)) db).
Proof.
  intros H i x Hx. destruct (H i x Hx) as (x' & Hx' & He).
  exists (if where_ x' then annuler now x' else x'). split.
  - simpl. change (map ?f ?l) with (f <$> l). now rewrite list_lookup_fmap, Hx'.
  - destruct (where_ x'); [now apply evolved_annuler|exact He].
Qed.

#[export] Hint Extern 1 (keeps (throughout (rooms_and_users _ _)) (pool_query _ _)) =>
  apply pool_query_throughout; intros ? ?; assumption : keeps.
#[export] Hint Extern 1 (keeps (throughout (audit_kept _)) (pool_query _ _)) =>
  apply pool_query_throughout; intros ? ?;
  first [assumption | apply prefix_app_r; assumption] : keeps.
#[export] Hint Extern 1 (keeps (throughout (history_kept _)) (pool_query _ _)) =>
  apply pool_query_throughout; intros ? ?;
  first [assumption | apply history_kept_insert; assumption
        | apply history_kept_update; assumption] : keeps.

(** X1. None of the three requests changes a room or a user: whatever
    statements fail and whatever the gateway answers, the tables [salles] and
    [utilisateurs] are after the request what they were before it, in the
    durable database and in the one the statements see. *)
Theorem requests_leave_rooms_and_users_alone
    (op : operation) (S : gmap Z salle) (U : gmap Z utilisateur) (w : world) :
  throughout (rooms_and_users S U) w →
  wp (run op) (λ _ w', throughout (rooms_and_users S U) w') w.
Proof.
  apply wp_of_keeps.
  destruct op; simpl;
    unfold createReservation, createPriorityReservation, cancelReservation, booking_catch;
    keeps_auto.
Qed.

Lemma requests_leave_rooms_and_users_alone_witness :
  wp (run (Priority today_10 100 p_alice (booking 1 10 570 630)))
     (λ _ w', throughout (rooms_and_users (salles db1) (utilisateurs db1)) w') world1.
Proof.
  apply requests_leave_rooms_and_users_alone. repeat split.
Defined.

(** X2. The table of notifications only grows: whatever statements fail and
    whatever the gateway answers, the notifications that were in the table
    before one of the three requests are after it still its first rows,
    unchanged and in the same order. *)
Theorem requests_only_append_notifications
    (op : operation) (ns : list notification) (w : world) :
  throughout (audit_kept ns) w →
  wp (run op) (λ _ w', throughout (audit_kept ns) w') w.
Proof.
  apply wp_of_keeps.
  destruct op; simpl;
    unfold createReservation, createPriorityReservation, cancelReservation, booking_catch;
    keeps_auto.
Qed.

Lemma requests_only_append_notifications_witness :
  wp (run (Cancel 200 p_bob 1))
     (λ _ w', throughout (audit_kept (notifications (committed after_first_booking))) w')
     after_first_booking.
Proof.
  apply requests_only_append_notifications.
  assert (H : transaction after_first_booking = None) by (vm_compute; reflexivity).
  unfold throughout, current. rewrite H.
  split; exists []; symmetry; apply app_nil_r.
Defined.

(** X3. No request deletes a reservation, and the only change a request
    makes to an existing row is its cancellation. Whatever statements fail
    and whatever the gateway answers, every row that was in the table before
    is after the request still at its place, either as it was or with the
    status [annulee] and a new [updated_at]: its owner, room, date, window,
    reason and date of creation never change. *)
Theorem requests_never_delete_a_reservation
    (op : operation) (rs : list reservation) (w : world) :
  throughout (history_kept rs) w →
  wp (run op) (λ _ w', throughout (history_kept rs) w') w.
Proof.
  apply wp_of_keeps.
  destruct op; simpl;
    unfold createReservation, createPriorityReservation, cancelReservation, booking_catch;
    keeps_auto.
Qed.

Lemma requests_never_delete_a_reservation_witness :
  wp (run (Priority today_10 100 p_alice (booking 1 10 570 630)))
     (λ _ w', throughout (history_kept (reservations db1)) w') world1.
Proof.
  apply requests_never_delete_a_reservation.
  split; intros i r Hr; exists r; (split; [exact Hr|apply evolved_refl]).
Defined.

(** ** The SMS service, call by call *)

(** A result of [sendSMS] carries an error exactly when it is a failure. *)
Lemma sendSMS_error to message w :
  ∀ res, (sendSMS to message w).1 = Returned res →
         (success res = true ↔ sms_error res = None) ∧ sms_message res = message.
Proof.
  intros res. unfold sendSMS, try_catch, bind.
  destruct to as [number|]; simpl.
  - destruct (matches_international number); simpl.
    + unfold ret at 1. unfold messages_create.
      destruct (gateway w (dispatched w)); simpl; intros [= <-]; simpl;
        (split; [split; congruence|reflexivity]).
    + intros [= <-]; simpl. split; [split; congruence|reflexivity].
  - intros [= <-]; simpl. split; [split; congruence|reflexivity].
Qed.

(** The fan-out over a list of users, result by result: the gateway is
    called once for each well-formed number, and every result is for the
    user at its place in the list. *)
Lemma promise_all_map_sendSMS_each message users w :
  ∃ rs,
    promise_all_map (λ user, sendSMS (utilisateur_telephone user) message) users w
    = (Returned rs,
       after_sms (length (List.filter (λ u, well_formed (utilisateur_telephone u)) users))
         (map sms_event rs) w)
    ∧ map sms_to rs = map utilisateur_telephone users
    ∧ Forall (λ r, success r = true ↔ sms_error r = None) rs.
Proof.
  revert w. induction users as [|u users IH]; intros w; simpl.
  - exists []. unfold ret. simpl. rewrite after_sms_0. repeat split. constructor.
  - destruct (sendSMS_run (utilisateur_telephone u) message w) as (res & Hres & Hs & Hto).
    pose proof (sendSMS_error (utilisateur_telephone u) message w res) as He.
    rewrite Hres in He. destruct (He eq_refl) as [He1 _].
    unfold bind at 1. rewrite Hres.
    destruct (IH (after_sms (if well_formed (utilisateur_telephone u) then 1 else 0)
                    [sms_event res] w)) as (rs & Hrs & Htos & Herr).
    unfold bind at 1. rewrite Hrs. unfold ret.
    exists (res :: rs). rewrite after_sms_after_sms. simpl.
    split; [|split; [now rewrite Hto, Htos|now constructor]].
    f_equal. f_equal. destruct (well_formed (utilisateur_telephone u)); simpl; lia.
Qed.

(** X4. A call of [sendSMS], and so a call of one of the senders to a single
    recipient, reaches the gateway at most once, and only with a number in the
    international format: a missing or ill-formed number is refused before
    the gateway is called. In every world the call returns, leaves the
    database, the open transaction and the statements to come as they are,
    and is one entry in the log, for its recipient; its result carries an
    error exactly when it is a failure. *)
Theorem sendSMS_calls_the_gateway_for_well_formed_numbers_only
    (to : option string) (message : sms_text) (w : world) :
  ∃ res,
    sendSMS to message w
    = (Returned res,
       after_sms (if well_formed to then 1 else 0) [SMS to (success res)] w)
    ∧ (success res = true → well_formed to = true)
    ∧ (success res = true ↔ sms_error res = None)
    ∧ sms_to res = to ∧ sms_message res = message.
Proof.
  destruct (sendSMS_run to message w) as (res & Hres & Hs & Hto).
  pose proof (sendSMS_error to message w res) as He.
  rewrite Hres in He. destruct (He eq_refl) as [He1 He2].
  exists res. unfold sms_event in Hres. rewrite Hto in Hres.
  split; [exact Hres|]. split; [|auto].
  rewrite Hs. unfold delivered. intros H. now apply andb_true_iff in H as [H _].
Qed.

(** X5. The summary of the roster fan-out accounts for every recipient.
    In every world [sendReservationSMS] returns. When it returns a summary,
    there is at least one recipient, [total] is the number of results,
    [successes] and [failures] add up to it, [failedNumbers] has one entry for
    each failure and each entry carries its error, and the flag of the result
    is true exactly when [successes] is positive. When it returns no summary
    (the roster is empty or its query failed) the flag is false, there is no
    result and the object carries an error. *)
Theorem roster_summary_accounts_for_every_recipient
    (nomSalle : string) (jour heureDebut heureFin : Z) (w : world) :
  ∃ rr,
    (sendReservationSMS nomSalle jour heureDebut heureFin w).1 = Returned rr
    ∧ match summary rr with
      | Some s =>
          (0 < total s)%nat
          ∧ total s = length (results rr)
          ∧ total s = (successes s + failures s)%nat
          ∧ length (failedNumbers s) = failures s
          ∧ Forall (λ f, is_Some f.2) (failedNumbers s)
          ∧ (roster_success rr = true ↔ (0 < successes s)%nat)
      | None =>
          roster_success rr = false ∧ results rr = [] ∧ is_Some (roster_error rr)
      end.
Proof.
  unfold sendReservationSMS, try_catch, bind, select_utilisateurs, pool_query.
  destruct (next_fault w) as [[|] w1]; simpl.
  { eexists. split; [reflexivity|]. simpl. repeat split. eauto. }
  destruct ((map_to_list (utilisateurs (current w1))).*2) as [|u users] eqn:Hu.
  { eexists. split; [reflexivity|]. simpl. repeat split. eauto. }
  destruct (promise_all_map_sendSMS_each
              (NouvelleReservation nomSalle jour heureDebut heureFin) (u :: users)
              (log (Query SELECT_utilisateurs true) (store (current w1) w1)))
    as (rs & Hrs & Hto & Herr).
  rewrite Hrs. unfold ret. eexists. split; [reflexivity|]. simpl.
  assert (Hlen : length rs = S (length users)).
  { apply (f_equal length) in Hto. now rewrite !length_map in Hto. }
  split; [lia|]. split; [now rewrite Hlen|]. split.
  { rewrite <- Hlen. clear. induction rs as [|x rs IH]; simpl; [reflexivity|].
    destruct (success x); simpl; lia. }
  split; [now rewrite length_map|]. split.
  { clear -Herr. induction Herr as [|x rs Hx _ IH]; simpl; [constructor|].
    destruct (success x) eqn:Hs; simpl; [exact IH|].
    constructor; [|exact IH]. simpl.
    destruct (sms_error x) eqn:He; [eauto|]. destruct Hx as [_ Hx].
    specialize (Hx ltac:(first [reflexivity|assumption])). congruence. }
  rewrite Nat.ltb_lt. reflexivity.
Qed.

(** X6. The roster fan-out sends one message to every user of the table, in
    the order of the rows, whatever happens to the messages before: a failure
    for one recipient does not stop the messages to the others. When the
    query of the roster does not fail, the results are for the telephone
    numbers of all the users, one each and in order, the gateway is called
    once for each number in the international format, and the log holds the
    query and then one entry for each result. The database and the open
    transaction are left as they are. *)
Theorem roster_fan_out_reaches_every_user
    (nomSalle : string) (jour heureDebut heureFin : Z) (w : world) :
  fault_of (db_faults w) = false →
  ∃ rr,
    sendReservationSMS nomSalle jour heureDebut heureFin w
    = (Returned rr,
       after_sms
         (length (List.filter (λ u, well_formed (utilisateur_telephone u))
                    (map_to_list (utilisateurs (current w))).*2))
         (Query SELECT_utilisateurs true :: map sms_event (results rr))
         (next_fault w).2)
    ∧ map sms_to (results rr)
      = map utilisateur_telephone (map_to_list (utilisateurs (current w))).*2.
Proof.
  intros Hf.
  assert (Hw : store (current (next_fault w).2) (next_fault w).2 = (next_fault w).2)
    by apply store_current.
  unfold sendReservationSMS, try_catch, bind, select_utilisateurs, pool_query.
  destruct (next_fault w) as [fault w1] eqn:Hn.
  assert (fault = false ∧ current w1 = current w) as [-> Hcur].
  { unfold next_fault in Hn. injection Hn as <- <-. split; [exact Hf|reflexivity]. }
  cbn [fst snd] in *. rewrite Hw, Hcur.
  destruct ((map_to_list (utilisateurs (current w))).*2) as [|u users] eqn:Hu.
  { exists {| roster_success := false; roster_error := Some "Aucun utilisateur trouvé";
              results := []; summary := None |}.
    split; reflexivity. }
  destruct (promise_all_map_sendSMS_each
              (NouvelleReservation nomSalle jour heureDebut heureFin) (u :: users)
              (log (Query SELECT_utilisateurs true) w1))
    as (rs & Hrs & Hto & _).
  rewrite Hrs. unfold ret. eexists (RosterResult _ _ rs _). split; [|exact Hto].
  cbn [results].
  rewrite log_after_sms, after_sms_after_sms, Nat.add_0_r. reflexivity.
Qed.

Lemma roster_fan_out_reaches_every_user_witness :
  ∃ rr,
    sendReservationSMS "A" 10 540 600 world1
    = (Returned rr,
       after_sms
         (length (List.filter (λ u, well_formed (utilisateur_telephone u))
                    (map_to_list (utilisateurs (current world1))).*2))
         (Query SELECT_utilisateurs true :: map sms_event (results rr))
         (next_fault world1).2)
    ∧ map sms_to (results rr)
      = map utilisateur_telephone (map_to_list (utilisateurs (current world1))).*2.
Proof.
  apply roster_fan_out_reaches_every_user. reflexivity.
Defined.

(** ** Every reservation lasts an hour *)

Lemma long_enough_insert now db idUtilisateur idSalle jour debut fin raison :
  ¬ fin < debut + 60 → long_enough db →
  long_enough
    {| reservations :=
         reservations db
         ++ [new_reservation now db idUtilisateur idSalle jour debut fin raison];
       reservations_id_seq := reservations_id_seq db + 1;
       salles := salles db;
       utilisateurs := utilisateurs db;
       notifications := notifications db |}.
Proof.
  intros Hd H r Hr. simpl in Hr. apply elem_of_app in Hr as [Hr|Hr]; [now apply H|].
  apply list_elem_of_singleton in Hr as ->. simpl. lia.
Qed.

Lemma long_enough_update now (where_ : reservation → bool) db :
  long_enough db →
  long_enough
    (with_reservations
       (map (λ r, if where_ r then annuler now r else r) (reservations db)) db).
Proof.
  intros H r Hr. simpl in Hr. apply list_elem_of_fmap in Hr as (x & -> & Hx).
  destruct (where_ x); simpl; now apply H.
Qed.

#[export] Hint Extern 1 (keeps (throughout long_enough) (pool_query _ _)) =>
  apply pool_query_throughout; intros ? ?;
  first [assumption | apply long_enough_update; assumption
        | apply long_enough_insert; [lia|assumption]] : keeps.

Lemma createReservation_long_enough today now user value w :
  throughout long_enough w →
  wp (createReservation today now user value) (λ _ w', throughout long_enough w') w.
Proof.
  intros Hw. unfold createReservation.
  apply wp_try.
  eapply wp_mono with (Q := λ _ w', throughout long_enough w');
    [|intros [resp|e] w' H; exact H].
  wp_inv (throughout long_enough).
  apply wp_try.
  eapply wp_mono with (Q := λ _ w', throughout long_enough w');
    [|intros [resp|e] w' H;
      [exact H|apply wp_of_keeps; [unfold booking_catch; keeps_auto|exact H]]].
  wp_inv (throughout long_enough).
  apply wp_bind, wp_when; [intros _; assumption|intros Hd].
  apply Z.ltb_ge in Hd.
  apply wp_of_keeps; [keeps_auto|assumption].
Qed.

Lemma createPriorityReservation_long_enough today now user value w :
  throughout long_enough w →
  wp (createPriorityReservation today now user value)
     (λ _ w', throughout long_enough w') w.
Proof.
  intros Hw. unfold createPriorityReservation.
  apply wp_try.
  eapply wp_mono with (Q := λ _ w', throughout long_enough w');
    [|intros [resp|e] w' H; exact H].
  wp_inv (throughout long_enough).
  apply wp_try.
  eapply wp_mono with (Q := λ _ w', throughout long_enough w');
    [|intros [resp|e] w' H;
      [exact H|apply wp_of_keeps; [unfold booking_catch; keeps_auto|exact H]]].
  wp_inv (throughout long_enough).
  apply wp_bind, wp_when; [intros _; assumption|intros Hd].
  apply Z.ltb_ge in Hd.
  apply wp_of_keeps; [keeps_auto|assumption].
Qed.

Lemma cancelReservation_long_enough now user reservationId :
  keeps (throughout long_enough) (cancelReservation now user reservationId).
Proof. unfold cancelReservation. keeps_auto. Qed.

Lemma reachable_long_enough w : reachable w → throughout long_enough w.
Proof.
  induction 1 as [w Ht Hrs|w op _ IH Hauth|w faults g _ IH].
  - assert (Hc : long_enough (committed w)).
    { intros r Hr. rewrite Hrs in Hr. inversion Hr. }
    split; [exact Hc|]. unfold current. rewrite Ht. exact Hc.
  - destruct op as [today now user value|today now user value|now user reservationId];
      simpl.
    + now apply createReservation_long_enough.
    + now apply createPriorityReservation_long_enough.
    + now apply cancelReservation_long_enough.
  - exact IH.
Qed.

(** X7. Every reservation of the table lasts at least one hour. In every
    world reached from an empty table of reservations by requests to create,
    to create with priority and to cancel, whether they succeed or fail and
    whatever statements fail, every row of the durable table, active or
    cancelled, ends at least 60 minutes after it starts. *)
Theorem every_reservation_lasts_an_hour (w : world) (r : reservation) :
  reachable w → r ∈ reservations (committed w) → heure_debut r + 60 ≤ heure_fin r.
Proof. intros Hw. destruct (reachable_long_enough w Hw) as [Hc _]. apply Hc. Qed.

Lemma every_reservation_lasts_an_hour_witness :
  heure_debut (requested_row 100 db0 p_bob (booking 1 10 540 600)) + 60
  ≤ heure_fin (requested_row 100 db0 p_bob (booking 1 10 540 600)).
Proof.
  apply (every_reservation_lasts_an_hour
           (run (Create today_10 100 p_bob (booking 1 10 540 600)) (world0 [] (λ _, true))).2).
  - apply reachable_request; [apply reachable_initial; reflexivity|].
    vm_compute. eauto.
  - vm_compute. apply list_elem_of_here.
Defined.

(** ** The checks of the priority booking *)

Lemma createPriorityReservation_refused today now user value e c g n tr :
  room_preconditions today c value = inl e →
  wp (createPriorityReservation today now user value)
     (λ o w',
        o = Returned (error_response e)
        ∧ committed w' = c
        ∧ trace w' = tr ++ map (λ s, Query s true) (statements_until e))
     (World c None [] g n tr).
Proof.
  intros Hpre. unfold room_preconditions in Hpre. unfold createPriorityReservation.
  apply wp_try, wp_bind. wp_exec.
  apply wp_try, wp_bind, wp_when; intros Hc; rewrite Hc in Hpre;
    [injection Hpre as <-; wp_caught|wp_exec].
  apply wp_bind, wp_when; intros H;
    [replace (body_heure_fin value - body_heure_debut value <? 60) with true in Hpre by lia;
     injection Hpre as <-; wp_caught
    |replace (body_heure_fin value - body_heure_debut value <? 60) with false in Hpre by lia;
     wp_exec].
  apply wp_bind. wp_exec.
  destruct (salles c !! body_salle_id value) as [salle0|] eqn:Hsalle; cbn [option_list];
    [|injection Hpre as <-; wp_caught].
  apply wp_bind, wp_when; intros Hd;
    [apply negb_true_iff in Hd; rewrite Hd in Hpre; injection Hpre as <-; wp_caught
    |apply negb_false_iff in Hd; rewrite Hd in Hpre; discriminate].
Qed.

Lemma room_preconditions_refused today db value e :
  room_preconditions today db value = inl e → preconditions today db value = inl e.
Proof. unfold preconditions. now intros ->. Qed.

(** X8. The priority booking makes the checks 1 to 4 of an ordinary booking,
    in the same order and with the same answers. In a world where no statement
    fails, a request that fails one of them (date in the past, window shorter
    than 60 minutes, room unknown, room not available) gets from
    [createPriorityReservation] the response [createReservation] gives it, the
    error of the first check that fails; the request stores nothing, cancels
    no reservation, and sends no statement after the failed check but the
    ROLLBACK. *)
Theorem priority_booking_makes_the_same_checks
    (today now : Z) (user : principal) (value : request) (w : world) (e : booking_error) :
  db_faults w = [] → transaction w = None →
  room_preconditions today (committed w) value = inl e →
  wp (createPriorityReservation today now user value)
     (λ o w',
        o = Returned (error_response e)
        ∧ o = (createReservation today now user value w).1
        ∧ committed w' = committed w
        ∧ trace w' = trace w ++ map (λ s, Query s true) (statements_until e))
     w.
Proof.
  destruct w as [c t fs g n tr]. simpl. intros -> -> Hpre.
  pose proof (createReservation_run today now user value c g n tr) as Hc.
  unfold wp in Hc. rewrite (room_preconditions_refused _ _ _ _ Hpre) in Hc.
  destruct Hc as (Hc & _).
  eapply wp_mono; [apply createPriorityReservation_refused, Hpre|].
  intros o w' (Ho & Hcom & Htr). rewrite Hc. auto.
Qed.

Lemma priority_booking_makes_the_same_checks_witness :
  wp (createPriorityReservation today_10 100 p_alice (booking 2 10 540 600))
     (λ o w',
        o = Returned (error_response RoomUnavailableError)
        ∧ o = (createReservation today_10 100 p_alice (booking 2 10 540 600) world1).1
        ∧ committed w' = committed world1
        ∧ trace w'
          = trace world1
            ++ map (λ s, Query s true) (statements_until RoomUnavailableError))
     world1.
Proof.
  apply priority_booking_makes_the_same_checks; reflexivity.
Defined.

(** ** One request after another *)

Lemma with_environment_eq faults g w :
  with_environment faults g w
  = World (committed w) (transaction w) faults g (dispatched w) (trace w).
Proof. reflexivity. Qed.

(** After a booking the rooms are what they were, and the booked window is
    taken for every request of the room and the date that overlaps it. *)
Lemma preconditions_after_booking today now user value room smsStatus db today' value' :
  preconditions today db value = inr room →
  body_salle_id value' = body_salle_id value →
  body_date value' = body_date value →
  overlap (body_heure_debut value) (body_heure_fin value)
    (body_heure_debut value') (body_heure_fin value') = true →
  match room_preconditions today' db value' with
  | inl e => preconditions today' (booked now db user value smsStatus) value' = inl e
  | inr _ =>
      preconditions today' (booked now db user value smsStatus) value'
      = inl SlotConflictError
  end.
Proof.
  intros Hpre Hsalle Hdate Hov.
  unfold preconditions. unfold room_preconditions at 2 3. cbn [booked salles].
  fold (room_preconditions today' db value').
  destruct (room_preconditions today' db value') as [e|room']; [reflexivity|].
  unfold slot_taken. cbn [booked reservations].
  rewrite existsb_app. cbn [existsb].
  replace (conflict_where _ _ _ _ (requested_row now db user value)) with true;
    [now rewrite orb_true_r|].
  symmetry. unfold conflict_where, requested_row, new_reservation.
  cbn [salle_id date statut heure_debut heure_fin].
  rewrite Hsalle, Hdate, !Z.eqb_refl. cbn.
  apply conflict_clause_first. exact Hov.
Qed.

(** X9. A window that is booked cannot be booked again. In a world where
    no statement fails, once a booking has succeeded, a later request for the
    same room and date whose window overlaps the booked one (the same request
    sent again, for one) is never accepted: it is refused with the error of
    one of the checks 1 to 4 if it fails one, and with SlotConflictError
    otherwise, and it stores nothing. *)
Theorem a_booked_window_cannot_be_booked_again
    (today now : Z) (user : principal) (value : request) (room : salle) (w : world)
    (today' now' : Z) (user' : principal) (value' : request) (g' : nat → bool) :
  db_faults w = [] → transaction w = None →
  preconditions today (committed w) value = inr room →
  body_salle_id value' = body_salle_id value →
  body_date value' = body_date value →
  overlap (body_heure_debut value) (body_heure_fin value)
    (body_heure_debut value') (body_heure_fin value') = true →
  wp (createReservation today' now' user' value')
     (λ o w',
        o = Returned (error_response
                        match room_preconditions today' (committed w) value' with
                        | inl e => e
                        | inr _ => SlotConflictError
                        end)
        ∧ committed w' = committed (createReservation today now user value w).2)
     (with_environment [] g' (createReservation today now user value w).2).
Proof.
  destruct w as [c t fs g n tr]. simpl. intros -> -> Hpre Hsalle Hdate Hov.
  pose proof (createReservation_run today now user value c g n tr) as Hrun.
  unfold wp in Hrun. rewrite Hpre in Hrun.
  destruct Hrun as (rr & _ & Hcom & Htx & _).
  rewrite with_environment_eq, Htx, Hcom.
  eapply wp_mono; [apply createReservation_run|].
  intros o w'.
  pose proof (preconditions_after_booking today now user value room (roster_success rr)
                c today' value' Hpre Hsalle Hdate Hov) as Hafter.
  destruct (room_preconditions today' c value') as [e|room']; rewrite Hafter;
    intros (Ho & Hc & _); auto.
Qed.

Lemma a_booked_window_cannot_be_booked_again_witness :
  wp (createReservation today_10 150 p_alice (booking 1 10 570 630))
     (λ o w',
        o = Returned (error_response SlotConflictError)
        ∧ committed w' = committed after_first_booking)
     (with_environment [] (λ _, false) after_first_booking).
Proof.
  exact (a_booked_window_cannot_be_booked_again today_10 100 p_bob (booking 1 10 540 600)
           salle_A (world0 [] (λ _, true)) today_10 150 p_alice (booking 1 10 570 630)
           (λ _, false) eq_refl eq_refl eq_refl eq_refl eq_refl eq_refl).
Defined.

Lemma cancel_preconditions_found user reservationId db x :
  cancel_preconditions user reservationId db = inr x →
  x ∈ reservations db ∧ id x = reservationId ∧ statut x = "active".
Proof.
  unfold cancel_preconditions.
  destruct (List.find _ _) as [y|] eqn:Hfind; [|discriminate].
  apply find_some in Hfind as [Hin Hid]. apply Z.eqb_eq in Hid.
  destruct (_ || _); [|discriminate].
  destruct (String.eqb_spec (statut y) "active") as [Hs|]; [|discriminate].
  intros [= <-]. split; [now apply list_elem_of_In|]. auto.
Qed.

(** After the cancellation of [x] no row conflicts with a window inside the
    window of [x], in a table without double bookings whose rows have a
    positive duration. *)
Lemma slot_free_after_cancellation now db x smsStatus value :
  no_double_booking (reservations db) → long_enough db →
  x ∈ reservations db → statut x = "active" →
  body_salle_id value = salle_id x → body_date value = date x →
  heure_debut x ≤ body_heure_debut value → body_heure_fin value ≤ heure_fin x →
  body_heure_debut value < body_heure_fin value →
  slot_taken (cancelled now db x smsStatus) value = false.
Proof.
  intros Hnd Hlong Hx Hactive Hsalle Hdate Hd Hf Hpos.
  apply not_true_is_false. intros Htaken.
  apply existsb_exists in Htaken as (y & Hy & Hw).
  cbn [cancelled reservations] in Hy.
  apply in_map_iff in Hy as (y0 & <- & Hy0).
  destruct (Z.eqb_spec (id y0) (id x)) as [Hid|Hid].
  { unfold conflict_where in Hw. cbn in Hw. now rewrite !andb_false_r in Hw. }
  unfold conflict_where in Hw.
  apply andb_true_iff in Hw as [Hw Hclause].
  apply andb_true_iff in Hw as [Hw Hstatut].
  apply andb_true_iff in Hw as [Hs Hdt].
  apply Z.eqb_eq in Hs, Hdt. apply String.eqb_eq in Hstatut.
  apply list_elem_of_In in Hy0.
  pose proof (Hlong y0 Hy0) as Hy0long.
  rewrite conflict_clause_overlap in Hclause by lia.
  unfold overlap in Hclause. apply andb_true_iff in Hclause as [H1 H2].
  apply Z.ltb_lt in H1, H2.
  apply list_elem_of_lookup in Hy0 as [j Hj]. apply list_elem_of_lookup in Hx as [i Hi].
  apply (Hnd j i y0 x); [congruence|exact Hj|exact Hi|].
  split; [exact Hstatut|]. split; [exact Hactive|].
  split; [congruence|]. split; [congruence|].
  unfold overlap. apply andb_true_iff. split; apply Z.ltb_lt; lia.
Qed.

(** X10. Cancelling a reservation frees its window. In a world reached from
    an empty table by requests of the engine, with no transaction left open,
    and when no statement fails: once a reservation has been cancelled, a
    request for its room and date with a window inside the cancelled one that
    passes the checks 1 to 4 is accepted. The answer is 201 and the requested
    row is added to the table: no other reservation stands in its way. *)
Theorem cancelling_frees_the_window
    (w : world) (now : Z) (user : principal) (reservationId : Z) (x : reservation)
    (g : nat → bool) (today' now' : Z) (user' : principal) (value' : request)
    (room : salle) (g' : nat → bool) :
  reachable w → transaction w = None →
  cancel_preconditions user reservationId (committed w) = inr x →
  body_salle_id value' = salle_id x → body_date value' = date x →
  heure_debut x ≤ body_heure_debut value' → body_heure_fin value' ≤ heure_fin x →
  room_preconditions today' (committed w) value' = inr room →
  wp (createReservation today' now' user' value')
     (accepted now' user' value' room
        (cancelReservation now user reservationId (with_environment [] g w)).2)
     (with_environment [] g'
        (cancelReservation now user reservationId (with_environment [] g w)).2).
Proof.
  intros Hreach Htx Hcancel Hsalle Hdate Hd Hf Hroom.
  destruct (reachable_sound w Hreach) as [U [(Hnd & Hri & _) _]].
  destruct (reachable_long_enough w Hreach) as [Hlong _].
  destruct (cancel_preconditions_found _ _ _ _ Hcancel) as (Hx & _ & Hactive).
  rewrite (with_environment_eq [] g w), Htx.
  pose proof (cancelReservation_run now user reservationId (committed w) g
                (dispatched w) (trace w) Hri) as Hrun.
  unfold wp, cancelled_in_order in Hrun. cbn [committed] in Hrun.
  rewrite Hcancel in Hrun. destruct Hrun as (_ & Htx1 & smsStatus & _ & Hcom1).
  rewrite with_environment_eq, Htx1.
  unfold accepted. rewrite Hcom1.
  assert (Hpos : body_heure_debut value' < body_heure_fin value').
  { unfold room_preconditions in Hroom.
    destruct (utc_midnight (body_date value') <? today'); [discriminate|].
    destruct (Z.ltb_spec (body_heure_fin value' - body_heure_debut value') 60);
      [discriminate|lia]. }
  assert (Hpre : preconditions today' (cancelled now (committed w) x smsStatus) value'
                 = inr room).
  { unfold preconditions.
    replace (room_preconditions today' (cancelled now (committed w) x smsStatus) value')
      with (room_preconditions today' (committed w) value') by reflexivity.
    rewrite Hroom.
    now rewrite (slot_free_after_cancellation now (committed w) x smsStatus value'). }
  eapply wp_mono; [apply createReservation_run|].
  intros o w'. rewrite Hpre. intros (rr & Ho & Hcom & _).
  exists (roster_success rr), (summary rr). split; [exact Ho|].
  rewrite Hcom. reflexivity.
Qed.

Lemma cancelling_frees_the_window_witness :
  wp (createReservation today_10 300 p_alice (booking 1 10 540 600))
     (accepted 300 p_alice (booking 1 10 540 600) salle_A
        (cancelReservation 200 p_bob 1
           (with_environment [] (λ _, true) after_first_booking)).2)
     (with_environment [] (λ _, true)
        (cancelReservation 200 p_bob 1
           (with_environment [] (λ _, true) after_first_booking)).2).
Proof.
  refine (cancelling_frees_the_window after_first_booking 200 p_bob 1
            (requested_row 100 db0 p_bob (booking 1 10 540 600)) (λ _, true)
            today_10 300 p_alice (booking 1 10 540 600) salle_A (λ _, true)
            _ _ _ _ _ _ _ _).
  - apply (reachable_request (world0 [] (λ _, true))
             (Create today_10 100 p_bob (booking 1 10 540 600)));
      [apply reachable_initial; reflexivity|vm_compute; eauto].
  - vm_compute. reflexivity.
  - vm_compute. reflexivity.
  - reflexivity.
  - reflexivity.
  - cbn. lia.
  - cbn. lia.
  - vm_compute. reflexivity.
Defined.

Lemma preconditions_room today db value room :
  preconditions today db value = inr room →
  room_preconditions today db value = inr room ∧ slot_taken db value = false.
Proof.
  unfold preconditions. destruct (room_preconditions today db value); [discriminate|].
  destruct (slot_taken db value); [discriminate|]. now intros [= <-].
Qed.

(** X11. A priority booking of a free window is an ordinary booking. In a
    world where no statement fails, with the primary key and the foreign keys
    of the table in place, a request that passes the five checks of
    [createReservation] is answered 201 by [createPriorityReservation] with
    the same row and a count of 0 cancelled reservations, and the table of
    reservations it leaves is the one [createReservation] leaves: the
    requested row is added and no reservation is cancelled. *)
Theorem priority_booking_of_a_free_window_cancels_nothing
    (today now : Z) (user : principal) (value : request) (room : salle) (w : world) :
  db_faults w = [] → transaction w = None →
  referential_integrity (committed w) →
  NoDup (map id (reservations (committed w))) →
  preconditions today (committed w) value = inr room →
  wp (createPriorityReservation today now user value)
     (λ o w',
        (∃ smsStatus notificationStatus,
           o = Returned
                 {| status := 201;
                    json := ReservationPrioritaireCreee
                              (requested_row now (committed w) user value)
                              (salle_nom room) (user_nom user) 0
                              smsStatus notificationStatus |})
        ∧ reservations (committed w')
          = reservations (committed w) ++ [requested_row now (committed w) user value]
        ∧ reservations (committed w')
          = reservations (committed (createReservation today now user value w).2))
     w.
Proof.
  destruct w as [c t fs g n tr]. simpl. intros -> -> Hri Hnd Hpre.
  pose proof (createReservation_run today now user value c g n tr) as Hc.
  unfold wp in Hc. rewrite Hpre in Hc. destruct Hc as (rr & _ & Hcom & _).
  apply preconditions_room in Hpre as [Hroom Hfree].
  eapply wp_mono; [apply (createPriorityReservation_run today now user value room); auto|].
  intros o w' (smsStatus & notificationStatus & Ho & Hrs & _).
  cbn [committed] in Ho, Hrs.
  assert (Hnone : ∀ x, In x (reservations c) →
            conflict_where (body_salle_id value) (body_date value)
              (body_heure_debut value) (body_heure_fin value) x = false).
  { intros x Hx. apply not_true_is_false. intros Hw.
    unfold slot_taken in Hfree.
    assert (existsb (conflict_where (body_salle_id value) (body_date value)
                       (body_heure_debut value) (body_heure_fin value))
              (reservations c) = true) by (apply existsb_exists; eauto).
    congruence. }
  assert (Hfilter : List.filter
            (conflict_where (body_salle_id value) (body_date value)
               (body_heure_debut value) (body_heure_fin value)) (reservations c) = []).
  { clear -Hnone. induction (reservations c) as [|x rs IH]; simpl; [reflexivity|].
    rewrite (Hnone x) by now left. apply IH. intros y Hy. apply Hnone. now right. }
  assert (Hmap : map (λ x, if conflict_where (body_salle_id value) (body_date value)
                                (body_heure_debut value) (body_heure_fin value) x
                           then annuler now x else x) (reservations c)
                 = reservations c).
  { rewrite <- (map_id (reservations c)) at 2. apply map_ext_in.
    intros x Hx. now rewrite (Hnone x Hx). }
  rewrite Hfilter in Ho. rewrite Hmap in Hrs.
  split; [eauto|]. split; [exact Hrs|]. rewrite Hrs, Hcom. reflexivity.
Qed.

Lemma priority_booking_of_a_free_window_cancels_nothing_witness :
  wp (createPriorityReservation today_10 100 p_alice (booking 1 10 600 660))
     (λ o w',
        (∃ smsStatus notificationStatus,
           o = Returned
                 {| status := 201;
                    json := ReservationPrioritaireCreee
                              (requested_row 100 (committed world1) p_alice
                                 (booking 1 10 600 660))
                              (salle_nom salle_A) (user_nom p_alice) 0
                              smsStatus notificationStatus |})
        ∧ reservations (committed w')
          = reservations (committed world1)
            ++ [requested_row 100 (committed world1) p_alice (booking 1 10 600 660)]
        ∧ reservations (committed w')
          = reservations
              (committed (createReservation today_10 100 p_alice (booking 1 10 600 660)
                            world1).2))
     world1.
Proof.
  apply priority_booking_of_a_free_window_cancels_nothing; try reflexivity.
  - intros x Hx. apply list_elem_of_singleton in Hx as ->. split; vm_compute; eauto.
  - simpl. apply NoDup_cons. split; [apply not_elem_of_nil|apply NoDup_nil_2].
Defined.

(** ** The notifications of a priority booking *)

Lemma sms_recipients_app evs1 evs2 :
  sms_recipients (evs1 ++ evs2) = sms_recipients evs1 ++ sms_recipients evs2.
Proof.
  induction evs1 as [|[s ok|to d] evs1 IH]; simpl; [reflexivity|exact IH|].
  now rewrite IH.
Qed.

Lemma notify_preempted_audit conflict acc c d g n tr :
  ∃ flags d' k sent,
    notify_preempted conflict acc (World c (Some d) [] g n tr)
    = (Returned flags,
       World c (Some d') [] g k
         (tr ++ [SMS (joined_utilisateur_telephone conflict) sent;
                 Query INSERT_notification true]))
    ∧ reservations d' = reservations d
    ∧ reservations_id_seq d' = reservations_id_seq d
    ∧ salles d' = salles d
    ∧ utilisateurs d' = utilisateurs d
    ∧ notifications d'
      = notifications d
        ++ [ {| notification_utilisateur_id := utilisateur_id (row conflict);
                notification_reservation_id := id (row conflict);
                notification_message_text := ReservationAnnuleePrioritaire;
                notification_type := sms_type sent;
                lu := false |} ].
Proof.
  destruct acc as [smsStatus notificationStatus].
  unfold notify_preempted, try_catch at 1, bind at 1, sendPriorityReservationSMS.
  match goal with |- context [sendSMS ?a ?b ?w] =>
    destruct (sendSMS_run a b w) as (res & Hres & _ & Hto); rewrite Hres; clear Hres end.
  cbn. unfold log, sms_event. cbn. rewrite <- app_assoc, Hto.
  eexists _, _, _, (success res). split; [reflexivity|]. repeat split.
Qed.

Lemma notify_loop_audit rows : ∀ acc c d g n tr,
  ∃ flags d' k evs news,
    for_of rows notify_preempted acc (World c (Some d) [] g n tr)
    = (Returned flags, World c (Some d') [] g k (tr ++ evs))
    ∧ reservations d' = reservations d
    ∧ reservations_id_seq d' = reservations_id_seq d
    ∧ salles d' = salles d
    ∧ utilisateurs d' = utilisateurs d
    ∧ notifications d' = notifications d ++ news
    ∧ sms_recipients evs = map joined_utilisateur_telephone rows
    ∧ map subject news
      = map (λ j, (utilisateur_id (row j), id (row j), ReservationAnnuleePrioritaire)) rows
    ∧ map notification_type news = map sms_type (sms_outcomes evs)
    ∧ Forall (λ n, lu n = false) news.
Proof.
  induction rows as [|conflict rows IH]; intros acc c d g n tr.
  - exists acc, d, n, [], []. simpl. unfold ret. rewrite !app_nil_r. repeat split.
    constructor.
  - simpl. unfold bind at 1.
    destruct (notify_preempted_audit conflict acc c d g n tr)
      as (flags1 & d1 & k1 & sent & Hrun1 & H1 & H2 & H3 & H4 & H5).
    rewrite Hrun1.
    destruct (IH flags1 c d1 g k1
                (tr ++ [SMS (joined_utilisateur_telephone conflict) sent;
                        Query INSERT_notification true]))
      as (flags & d' & k & evs & news & Hrun & H1' & H2' & H3' & H4' & H5' & H6 & H7 & H8 & H9).
    rewrite Hrun.
    eexists flags, d', k, (_ :: _ :: evs), (_ :: news).
    split; [rewrite <- app_assoc; reflexivity|].
    split; [congruence|]. split; [congruence|]. split; [congruence|].
    split; [congruence|].
    split; [rewrite H5', H5, <- app_assoc; reflexivity|].
    simpl. rewrite H6, H7, H8. repeat split. constructor; [reflexivity|exact H9].
Qed.

Lemma joined_rows_row db (P : reservation → bool) rs :
  (∀ x, x ∈ rs → is_Some (utilisateurs db !! utilisateur_id x)
                  ∧ is_Some (salles db !! salle_id x)) →
  map row (flat_map (join db) (List.filter P rs)) = List.filter P rs
  ∧ map joined_utilisateur_telephone (flat_map (join db) (List.filter P rs))
    = map (owner_telephone db) (List.filter P rs).
Proof.
  induction rs as [|x rs IH]; intros Hri; simpl; [split; reflexivity|].
  assert (Hrs : ∀ y, y ∈ rs → is_Some (utilisateurs db !! utilisateur_id y)
                              ∧ is_Some (salles db !! salle_id y)).
  { intros y Hy. apply Hri. now apply list_elem_of_further. }
  destruct (IH Hrs) as [IH1 IH2].
  destruct (P x); simpl; [|now split].
  destruct (Hri x) as [[u Hu] [s Hs]]; [apply list_elem_of_here|].
  unfold join at 1 3, owner_telephone at 1. rewrite Hu, Hs. simpl.
  now rewrite IH1, IH2.
Qed.

Lemma createPriorityReservation_audit today now user value room c g n tr :
  referential_integrity c →
  room_preconditions today c value = inr room →
  wp (createPriorityReservation today now user value)
     (preemptions_notified user value (World c None [] g n tr))
     (World c None [] g n tr).
Proof.
  intros Hri. unfold room_preconditions, createPriorityReservation.
  destruct (utc_midnight (body_date value) <? today) eqn:Hpast; [discriminate|].
  destruct (body_heure_fin value - body_heure_debut value <? 60) eqn:Hshort; [discriminate|].
  destruct (salles c !! body_salle_id value) as [salle0|] eqn:Hsalle; [|discriminate].
  destruct (salle_statut salle0 =? "disponible")%string eqn:Hdispo; [|discriminate].
  intros [= <-].
  apply wp_try, wp_bind. wp_exec.
  apply wp_try, wp_bind, wp_when; [discriminate|intros _].
  apply wp_bind, wp_when; [intros H; exfalso; lia|intros _].
  apply wp_bind. wp_exec. rewrite Hsalle. cbn [option_list].
  apply wp_bind. rewrite Hdispo. apply wp_when; [discriminate|intros _].
  apply wp_bind. wp_exec.
  set (conflicting := priority_conflict_where (body_salle_id value) (body_date value)
                        (body_heure_debut value) (body_heure_fin value)).
  set (conflictResult := flat_map (join c) (List.filter conflicting (reservations c))).
  destruct (joined_rows_row c conflicting (reservations c) Hri) as [Hrows Hphones].
  fold conflictResult in Hrows, Hphones.
  apply wp_bind.
  eapply wp_mono with
    (Q := λ o w',
       ∃ flags d' k evs news,
         o = Returned flags
         ∧ w' = World c (Some d') [] g k
                  (tr ++ [Query BEGIN true; Query SELECT_salle true;
                          Query SELECT_conflict_joined true] ++ evs)
         ∧ reservations_id_seq d' = reservations_id_seq c
         ∧ notifications d' = notifications c ++ news
         ∧ sms_recipients evs = map joined_utilisateur_telephone conflictResult
         ∧ map subject news
           = map (λ j, (utilisateur_id (row j), id (row j),
                        ReservationAnnuleePrioritaire)) conflictResult
         ∧ map notification_type news = map sms_type (sms_outcomes evs)
         ∧ Forall (λ n, lu n = false) news).
  { destruct (0 <? length conflictResult)%nat eqn:Hpos.
    - apply wp_bind. wp_exec. unfold wp, log.
      cbn [committed transaction db_faults gateway dispatched trace].
      match goal with |- context [for_of _ _ ?acc (World ?c (Some ?d1) [] ?g ?n1 ?tr1)] =>
        destruct (notify_loop_audit conflictResult acc c d1 g n1 tr1)
          as (flags & d' & k & evs & news & Hrun & H1 & H2 & H3 & H4 & H5 & H6 & H7 & H8 & H9)
      end.
      rewrite Hrun. simpl in *.
      exists flags, d', k, (Query UPDATE_statut true :: evs), news.
      split; [reflexivity|]. split; [now rewrite <- !app_assoc|]. auto 10.
    - wp_exec. exists (true, true), c, n, [], [].
      destruct conflictResult; [|discriminate]. simpl.
      split; [reflexivity|]. split; [unfold log; cbn; now rewrite <- !app_assoc|].
      rewrite app_nil_r. repeat split. constructor. }
  intros o w'
    ([smsStatus notificationStatus] & d' & k & evs & news & -> & -> & H2 & H5 & H6 & H7 & H8 & H9).
  apply wp_bind. wp_exec.
  apply wp_bind, wp_try, wp_bind. unfold sendSingleReservationSMS, wp at 1.
  match goal with |- context [sendSMS ?a ?b ?w] =>
    destruct (sendSMS_run a b w) as (res & Hres & _ & Hto); rewrite Hres; clear Hres end.
  cbn [fst snd]. cbn [after_sms committed transaction db_faults gateway dispatched trace].
  apply wp_bind, wp_try, wp_bind. wp_exec. wp_exec. wp_exec.
  apply wp_bind. wp_exec. wp_exec.
  unfold preemptions_notified. cbn [committed transaction notifications trace].
  unfold log, set_transaction.
  cbn [committed transaction notifications trace id new_reservation].
  eexists (news ++ [_]),
    ([Query BEGIN true; Query SELECT_salle true; Query SELECT_conflict_joined true]
     ++ evs ++ [Query INSERT_reservation true; sms_event res;
                Query INSERT_notification true; Query COMMIT true]).
  split; [rewrite H5, <- app_assoc; reflexivity|].
  split; [rewrite <- !app_assoc; reflexivity|].
  cbn [app sms_recipients sms_outcomes].
  rewrite sms_recipients_app, sms_outcomes_app, !map_app, H6, H7, H8, H2.
  unfold sms_event. rewrite Hto.
  change (conflict_where (body_salle_id value) (body_date value)
            (body_heure_debut value) (body_heure_fin value)) with conflicting.
  rewrite Hphones, <- Hrows, !map_map. cbn.
  repeat split. apply Forall_app. split; [exact H9|]. now constructor.
Qed.

(** X12. A priority booking tells everyone it concerns. In a world where no
    statement fails, with the foreign keys of the table in place, a priority
    booking that passes the checks 1 to 4 sends one SMS to the telephone
    number of the owner of each reservation it cancels, in the order of the
    table, and then one to the requester, and no other SMS; and it records
    one unread notification for each of these SMS, in the same order: for
    the owner, about the cancelled reservation, and for the requester, about
    the new one. The [type] of each notification says whether its SMS was
    delivered. *)
Theorem priority_booking_notifies_the_preempted
    (today now : Z) (user : principal) (value : request) (room : salle) (w : world) :
  db_faults w = [] → transaction w = None →
  referential_integrity (committed w) →
  room_preconditions today (committed w) value = inr room →
  wp (createPriorityReservation today now user value)
     (preemptions_notified user value w) w.
Proof.
  destruct w as [c t fs g n tr]. simpl. intros -> -> Hri Hpre.
  now apply (createPriorityReservation_audit today now user value room).
Qed.

Lemma priority_booking_notifies_the_preempted_witness :
  wp (createPriorityReservation today_10 100 p_alice (booking 1 10 570 630))
     (preemptions_notified p_alice (booking 1 10 570 630) world1) world1.
Proof.
  apply (priority_booking_notifies_the_preempted today_10 100 p_alice
           (booking 1 10 570 630) salle_A world1); try reflexivity.
  intros x Hx. apply list_elem_of_singleton in Hx as ->. split; vm_compute; eauto.
Defined.

(** ** The conflict check with a reservation left out *)

Lemma checkReservationConflict_run idSalle jour debut fin excludeReservationId w :
  fault_of (db_faults w) = false →
  (checkReservationConflict idSalle jour debut fin excludeReservationId w).1
  = Returned
      (existsb
         (λ r, conflict_where idSalle jour debut fin r
               && match excludeReservationId with
                  | Some p5 => if p5 =? 0 then true else negb (id r =? p5)
                  | None => true
                  end)
         (reservations (current w))).
Proof.
  destruct w as [c t fs g n tr]. simpl. intros Hf.
  unfold checkReservationConflict, bind, pool_query, next_fault. simpl.
  rewrite Hf. simpl. f_equal. unfold current. simpl.
  induction (reservations (default c t)) as [|r rs IH]; simpl; [reflexivity|].
  destruct (conflict_where idSalle jour debut fin r && _); simpl; [reflexivity|exact IH].
Qed.

(** X13. The conflict check can leave one reservation out of the search, and
    then a reservation does not conflict with itself. In a table without
    double bookings whose rows have a positive duration, the check of the
    room, date and window of an active reservation finds a
    conflict (the reservation itself) when nothing is excluded, and finds none
    when the reservation's identifier is given as [excludeReservationId]. The
    identifier 0 excludes nothing: it is falsy, so the check runs as if no
    identifier had been given. *)
Theorem conflict_check_leaves_the_excluded_reservation_out
    (w : world) (x : reservation) :
  fault_of (db_faults w) = false →
  no_double_booking (reservations (current w)) →
  (∀ r, r ∈ reservations (current w) → heure_debut r < heure_fin r) →
  x ∈ reservations (current w) → statut x = "active" → id x ≠ 0 →
  (checkReservationConflict (salle_id x) (date x) (heure_debut x) (heure_fin x)
     None w).1 = Returned true
  ∧ (checkReservationConflict (salle_id x) (date x) (heure_debut x) (heure_fin x)
       (Some (id x)) w).1 = Returned false
  ∧ ∀ idSalle jour debut fin,
      checkReservationConflict idSalle jour debut fin (Some 0)
      = checkReservationConflict idSalle jour debut fin None.
Proof.
  intros Hf Hnd Hlong Hx Hactive Hid.
  pose proof (Hlong x Hx) as Hpos.
  rewrite !checkReservationConflict_run by exact Hf.
  assert (Hself : conflict_where (salle_id x) (date x) (heure_debut x) (heure_fin x) x
                  = true).
  { unfold conflict_where. rewrite !Z.eqb_refl, Hactive. cbn.
    apply conflict_clause_first. unfold overlap. apply andb_true_iff.
    split; now apply Z.ltb_lt. }
  split; [|split; [|reflexivity]]; f_equal.
  - apply existsb_exists. exists x. split; [now apply list_elem_of_In|].
    now rewrite Hself.
  - apply not_true_is_false. intros H. apply existsb_exists in H as (y & Hy & Hw).
    apply Z.eqb_neq in Hid. rewrite Hid in Hw.
    apply andb_true_iff in Hw as [Hw Hne].
    apply negb_true_iff, Z.eqb_neq in Hne.
    unfold conflict_where in Hw.
    apply andb_true_iff in Hw as [Hw Hclause].
    apply andb_true_iff in Hw as [Hw Hstatut].
    apply andb_true_iff in Hw as [Hs Hdt].
    apply Z.eqb_eq in Hs, Hdt. apply String.eqb_eq in Hstatut.
    apply list_elem_of_In in Hy. pose proof (Hlong y Hy) as Hypos.
    apply list_elem_of_lookup in Hy as [j Hj].
    pose proof Hx as Hx'. apply list_elem_of_lookup in Hx' as [i Hi].
    apply (Hnd j i y x); [congruence|exact Hj|exact Hi|].
    split; [exact Hstatut|]. split; [exact Hactive|].
    split; [exact Hs|]. split; [exact Hdt|].
    unfold conflict_clause in Hclause. unfold overlap.
    rewrite !Z.gtb_ltb, Z.geb_leb in Hclause.
    apply andb_true_iff.
    destruct (Z.ltb_spec (heure_debut y) (heure_fin x)),
      (Z.ltb_spec (heure_debut x) (heure_fin y)),
      (Z.ltb_spec (heure_fin x) (heure_fin y)),
      (Z.leb_spec (heure_debut x) (heure_debut y));
      simpl in Hclause; try discriminate; split; try reflexivity;
      exfalso; lia.
Qed.

Lemma conflict_check_leaves_the_excluded_reservation_out_witness :
  (checkReservationConflict 1 10 540 600 None world1).1 = Returned true
  ∧ (checkReservationConflict 1 10 540 600 (Some 1) world1).1 = Returned false
  ∧ ∀ idSalle jour debut fin,
      checkReservationConflict idSalle jour debut fin (Some 0)
      = checkReservationConflict idSalle jour debut fin None.
Proof.
  refine (conflict_check_leaves_the_excluded_reservation_out world1
            {| id := 1; utilisateur_id := 1; salle_id := 1; date := 10;
               heure_debut := 540; heure_fin := 600; motif := None;
               statut := "active"; created_at := 100; updated_at := 100 |}
            eq_refl _ _ _ eq_refl _).
  - intros [|[|i]] [|[|j]] r1 r2 Hij; try discriminate; congruence.
  - intros r Hr. apply list_elem_of_singleton in Hr as ->. reflexivity.
  - apply list_elem_of_here.
  - discriminate.
Defined.

(** ** The times of day of a request *)

Lemma in_range_spec lo hi c :
  in_range lo hi c = true ↔ (nat_of_ascii lo ≤ nat_of_ascii c ≤ nat_of_ascii hi)%nat.
Proof. unfold in_range. rewrite andb_true_iff, !Nat.leb_le. reflexivity. Qed.

Lemma ascii_eqb_nat c d : Ascii.eqb c d = (nat_of_ascii c =? nat_of_ascii d)%nat.
Proof.
  destruct (Ascii.eqb_spec c d) as [->|Hne]; [now rewrite Nat.eqb_refl|].
  symmetry. apply Nat.eqb_neq. intros H. apply Hne.
  rewrite <- (ascii_nat_embedding c), <- (ascii_nat_embedding d). now rewrite H.
Qed.

(** Every minute of the day, written [HH:MM], is accepted and converted back
    to itself. *)
Lemma all_times :
  forallb (λ t, test heure_pattern (write_heure t)
                && bool_decide (minutes_of (write_heure t) = Some t))
    (seqZ 0 1440) = true.
Proof. vm_compute. reflexivity. Qed.

Lemma is_digit_spec c : is_digit c = true ↔ (48 ≤ nat_of_ascii c ≤ 57)%nat.
Proof. unfold is_digit. rewrite andb_true_iff, !Nat.leb_le. reflexivity. Qed.

Lemma is_digit_true c : (48 ≤ nat_of_ascii c ≤ 57)%nat → is_digit c = true.
Proof. apply is_digit_spec. Qed.

Lemma is_colon c : (58 ≤ nat_of_ascii c ≤ 58)%nat → c = ":"%char.
Proof.
  intros H. rewrite <- (ascii_nat_embedding c). replace (nat_of_ascii c) with 58%nat by lia.
  reflexivity.
Qed.

Lemma not_colon c : (nat_of_ascii c ≤ 57)%nat → Ascii.eqb c ":" = false.
Proof.
  intros H. rewrite ascii_eqb_nat. apply Nat.eqb_neq.
  change (nat_of_ascii ":") with 58%nat. lia.
Qed.

(** A string the pattern accepts is converted to the minutes of a time of
    day. *)
Lemma heure_pattern_minutes (s : string) :
  test heure_pattern s = true →
  ∃ h m, 0 ≤ h ≤ 23 ∧ 0 ≤ m ≤ 59 ∧ minutes_of s = Some (h * 60 + m).
Proof.
  unfold test, heure_pattern.
  destruct s as [|c1 [|c2 [|c3 [|c4 [|c5 [|c6 s]]]]]];
    cbn [list_ascii_of_string match_regex];
    rewrite ?andb_false_r, ?orb_false_r; try discriminate.
  all: rewrite ?orb_true_iff, ?andb_true_iff, ?in_range_spec.
  all: change (nat_of_ascii "0") with 48%nat; change (nat_of_ascii "1") with 49%nat;
    change (nat_of_ascii "2") with 50%nat; change (nat_of_ascii "3") with 51%nat;
    change (nat_of_ascii "5") with 53%nat; change (nat_of_ascii "9") with 57%nat;
    change (nat_of_ascii ":") with 58%nat.
  - intros [[=]|(H1 & H2 & H3 & H4 & _)]. apply is_colon in H2 as ->.
    exists (Z.of_nat (nat_of_ascii c1) - 48),
      (10 * (Z.of_nat (nat_of_ascii c3) - 48) + (Z.of_nat (nat_of_ascii c4) - 48)).
    split; [lia|]. split; [lia|]. unfold minutes_of.
    repeat first [rewrite not_colon by lia | rewrite is_digit_true by lia
                 | progress cbn [list_ascii_of_string split_string Ascii.eqb Bool.eqb lookup
                                 list_lookup parseInt leading_digits default from_option]].
    try (f_equal; lia).
  - intros [(H1 & H2 & H3 & H4 & H5 & _)|(H1 & H2 & H3 & H4 & H5 & _)];
      apply is_colon in H3 as ->.
    all: exists (10 * (Z.of_nat (nat_of_ascii c1) - 48) + (Z.of_nat (nat_of_ascii c2) - 48)),
      (10 * (Z.of_nat (nat_of_ascii c4) - 48) + (Z.of_nat (nat_of_ascii c5) - 48)).
    all: split; [lia|]; split; [lia|]; unfold minutes_of.
    all: repeat first [rewrite not_colon by lia | rewrite is_digit_true by lia
                 | progress cbn [list_ascii_of_string split_string Ascii.eqb Bool.eqb lookup
                                 list_lookup parseInt leading_digits default from_option]].
    all: try (f_equal; lia).
Qed.

(** X14. A time the schema accepts is a time of day, and the handlers
    convert it to its minute of the day. For every string that matches the
    pattern of [heure_debut] and [heure_fin], the two calls of [parseInt] on
    the parts around the colon both give a number (never NaN), an hour from 0
    to 23 and a minute from 0 to 59, so the value the handlers compare is
    between 0 and 1439. *)
Theorem accepted_heure_is_a_time_of_day (s : string) :
  test heure_pattern s = true →
  ∃ h m, 0 ≤ h ≤ 23 ∧ 0 ≤ m ≤ 59 ∧ minutes_of s = Some (h * 60 + m).
Proof. apply heure_pattern_minutes. Qed.

Lemma accepted_heure_is_a_time_of_day_witness :
  ∃ h m, 0 ≤ h ≤ 23 ∧ 0 ≤ m ≤ 59 ∧ minutes_of "9:30" = Some (h * 60 + m).
Proof. apply accepted_heure_is_a_time_of_day. reflexivity. Defined.

(** X15. Every minute of the day can be requested: written [HH:MM] it
    matches the pattern of the schema, and the handlers convert it back to
    the same minute. *)
Theorem every_time_of_day_is_accepted (t : Z) :
  0 ≤ t < 1440 →
  test heure_pattern (write_heure t) = true ∧ minutes_of (write_heure t) = Some t.
Proof.
  intros Ht. pose proof all_times as H.
  rewrite forallb_forall in H. specialize (H t).
  rewrite andb_true_iff, bool_decide_eq_true in H. apply H.
  apply list_elem_of_In, elem_of_seqZ. lia.
Qed.

Lemma every_time_of_day_is_accepted_witness :
  test heure_pattern (write_heure 570) = true
  ∧ minutes_of (write_heure 570) = Some 570.
Proof. apply every_time_of_day_is_accepted. lia. Defined.

(** X16. No reservation reaches midnight. When the start and the end of a
    request match the pattern of the schema and pass the check of the
    duration ([endTimeMinutes < startTimeMinutes + 60] is false), the window
    starts at 22:59 at the latest and ends between 1:00 and 23:59: the latest
    window that can be booked is 22:59 to 23:59, and no window spans two
    days. *)
Theorem no_window_reaches_midnight (heure_debut_ heure_fin_ : string) (debut fin : Z) :
  test heure_pattern heure_debut_ = true → test heure_pattern heure_fin_ = true →
  minutes_of heure_debut_ = Some debut → minutes_of heure_fin_ = Some fin →
  (fin <? debut + 60) = false →
  0 ≤ debut ≤ 1379 ∧ 60 ≤ fin ≤ 1439.
Proof.
  intros Hd Hf Hmd Hmf Hlong. apply Z.ltb_ge in Hlong.
  destruct (heure_pattern_minutes _ Hd) as (h1 & m1 & ? & ? & H1).
  destruct (heure_pattern_minutes _ Hf) as (h2 & m2 & ? & ? & H2).
  rewrite Hmd in H1. rewrite Hmf in H2. injection H1 as ->. injection H2 as ->. lia.
Qed.

Lemma no_window_reaches_midnight_witness :
  0 ≤ 1379 ≤ 1379 ∧ 60 ≤ 1439 ≤ 1439.
Proof.
  apply (no_window_reaches_midnight "22:59" "23:59"); reflexivity.
Defined.

(** ** The listings *)

#[export] Instance own_order_total : Total own_order.
Proof. intros o1 o2. unfold own_order, latest_first. simpl. lia. Qed.

#[export] Instance own_order_trans : Transitive own_order.
Proof. intros o1 o2 o3. unfold own_order, latest_first. simpl. lia. Qed.

#[export] Instance listed_order_total : Total listed_order.
Proof. intros l1 l2. apply own_order_total. Qed.

#[export] Instance most_reserved_first_total : Total most_reserved_first.
Proof. intros p1 p2. unfold most_reserved_first. lia. Qed.

#[export] Instance most_reserved_first_trans : Transitive most_reserved_first.
Proof. intros p1 p2 p3. unfold most_reserved_first. lia. Qed.

Lemma pool_read_run {A} (rows : database → A) w :
  pool_read rows w
  = (if fault_of (db_faults w) then Thrown DatabaseError
     else Returned (rows (current w)), (next_fault w).2).
Proof. unfold pool_read. simpl. destruct (fault_of (db_faults w)); reflexivity. Qed.

Lemma elem_of_filter_bool {A} (P : A → bool) (l : list A) x :
  x ∈ List.filter P l ↔ x ∈ l ∧ P x = true.
Proof. rewrite !list_elem_of_In. apply filter_In. Qed.

(** X17. [GET /mes-reservations] lists the reservations of the requester and
    no other. It never throws and changes nothing in the database: when its
    query fails the answer is the error 500, and otherwise it is the list of
    the reservations whose [utilisateur_id] is the requester's and whose room
    exists, each of them once, whatever its status, sorted by date and then
    by start, the latest first. *)
Theorem mesReservations_lists_the_reservations_of_the_requester
    (user : principal) (w : world) :
  mesReservations user w
  = (Returned (if fault_of (db_faults w) then Failure 500 msg_internal
               else Json (select_mes_reservations (user_id user) (current w))),
     (next_fault w).2)
  ∧ select_mes_reservations (user_id user) (current w)
    ≡ₚ omap (own_row (current w))
         (List.filter (λ r, utilisateur_id r =? user_id user)
            (reservations (current w)))
  ∧ (∀ o, o ∈ select_mes_reservations (user_id user) (current w) ↔
          ∃ r, r ∈ reservations (current w)
               ∧ utilisateur_id r = user_id user
               ∧ own_row (current w) r = Some o)
  ∧ Sorted own_order (select_mes_reservations (user_id user) (current w)).
Proof.
  split.
  { unfold mesReservations, try_catch, bind. rewrite pool_read_run.
    destruct (fault_of (db_faults w)); reflexivity. }
  split; [apply merge_sort_Permutation|].
  split; [|apply Sorted_merge_sort, _].
  intros o. unfold select_mes_reservations.
  rewrite merge_sort_Permutation, list_elem_of_omap.
  split.
  - intros (r & Hr & Ho). apply elem_of_filter_bool in Hr as [Hr Hu].
    apply Z.eqb_eq in Hu. eauto.
  - intros (r & Hr & Hu & Ho). exists r. split; [|exact Ho].
    apply elem_of_filter_bool. split; [exact Hr|]. now apply Z.eqb_eq.
Qed.

Lemma omap_length_total {A B} (f : A → option B) (l : list A) :
  (∀ x, x ∈ l → is_Some (f x)) → length (omap f l) = length l.
Proof.
  induction l as [|x l IH]; intros H; simpl; [reflexivity|].
  destruct (H x) as [y Hy]; [apply list_elem_of_here|]. rewrite Hy. simpl.
  f_equal. apply IH. intros z Hz. apply H. now apply list_elem_of_further.
Qed.

(** X18. [GET /all] lists every reservation. It never throws and changes
    nothing in the database: when its query fails the answer is the error 500,
    and otherwise it is the list of the reservations whose user and room
    exist, each of them once with the name and the telephone number of its
    user and the name of its room, sorted by date and then by start, the
    latest first. With the foreign keys of the table in place no reservation
    is missing: the list is as long as the table. *)
Theorem allReservations_lists_every_reservation (w : world) :
  allReservations w
  = (Returned (if fault_of (db_faults w) then Failure 500 msg_internal
               else Json (select_all (current w))),
     (next_fault w).2)
  ∧ select_all (current w) ≡ₚ omap (listed_row (current w)) (reservations (current w))
  ∧ Sorted listed_order (select_all (current w))
  ∧ (referential_integrity (current w) →
     length (select_all (current w)) = length (reservations (current w))).
Proof.
  split.
  { unfold allReservations, try_catch, bind. rewrite pool_read_run.
    destruct (fault_of (db_faults w)); reflexivity. }
  split; [apply merge_sort_Permutation|].
  split; [apply Sorted_merge_sort, _|].
  intros Hri. unfold select_all. rewrite merge_sort_Permutation.
  apply omap_length_total. intros r Hr. destruct (Hri r Hr) as [[u Hu] [s Hs]].
  unfold listed_row, own_row. rewrite Hu, Hs. eauto.
Qed.

Lemma filter_length_le {A} (P : A → bool) (l : list A) :
  (length (List.filter P l) ≤ length l)%nat.
Proof.
  induction l as [|x l IH]; simpl; [lia|]. destruct (P x); simpl; lia.
Qed.

Lemma filter_length_disjoint {A} (P Q : A → bool) (l : list A) :
  (∀ x, P x = true → Q x = true → False) →
  (length (List.filter P l) + length (List.filter Q l) ≤ length l)%nat.
Proof.
  intros H. induction l as [|x l IH]; simpl; [lia|].
  destruct (P x) eqn:HP, (Q x) eqn:HQ; simpl; try lia.
  destruct (H x HP HQ).
Qed.

Lemma filter_length_mono {A} (P Q : A → bool) (l : list A) :
  (∀ x, P x = true → Q x = true) →
  (length (List.filter P l) ≤ length (List.filter Q l))%nat.
Proof.
  intros H. induction l as [|x l IH]; simpl; [lia|].
  destruct (P x) eqn:HP.
  - rewrite (H x HP). simpl. lia.
  - destruct (Q x); simpl; lia.
Qed.

(** X19. The statistics of [GET /stats] are consistent counts. In a world
    where no statement fails the answer carries the five counts and the most
    reserved rooms. The active and the cancelled reservations together are
    no more than the total; the reservations of today are among the
    reservations to come, which are no more than the total. The rooms listed
    are at most five, all the rooms when there are five or fewer, each with
    the number of its reservations, cancelled ones included, and 0 for a room
    without any; they come by decreasing number, and no room left out has
    more reservations than a room that is listed. The request changes
    nothing in the database. *)
Theorem stats_counts_are_consistent (today : Z) (w : world) :
  db_faults w = [] →
  stats today w
  = (Returned (Json (select_statistiques today (current w),
                     select_salles_populaires (current w))), w)
  ∧ (reservations_actives (select_statistiques today (current w))
     + reservations_annulees (select_statistiques today (current w))
     ≤ total_reservations (select_statistiques today (current w)))%nat
  ∧ (reservations_aujourd_hui (select_statistiques today (current w))
     ≤ reservations_futures (select_statistiques today (current w))
     ≤ total_reservations (select_statistiques today (current w)))%nat
  ∧ length (select_salles_populaires (current w))
    = (5 `min` size (salles (current w)))%nat
  ∧ Sorted most_reserved_first (select_salles_populaires (current w))
  ∧ ∃ others,
      select_salles_populaires (current w) ++ others
      ≡ₚ popularite (current w) <$> map_to_list (salles (current w))
      ∧ ∀ p o, p ∈ select_salles_populaires (current w) → o ∈ others →
               (nombre_reservations o ≤ nombre_reservations p)%nat.
Proof.
  intros Hf. split.
  { unfold stats, try_catch, bind. rewrite !pool_read_run.
    destruct w as [c t fs g n tr]. simpl in Hf. subst fs. reflexivity. }
  split.
  { apply filter_length_disjoint. intros r H1 H2.
    apply String.eqb_eq in H1, H2. congruence. }
  split.
  { split; [|apply filter_length_le]. apply filter_length_mono. intros r H.
    apply Z.eqb_eq in H. apply Z.geb_le. lia. }
  unfold select_salles_populaires.
  set (all := popularite (current w) <$> map_to_list (salles (current w))).
  assert (Hsorted : StronglySorted most_reserved_first
                      (merge_sort most_reserved_first all))
    by (apply StronglySorted_merge_sort; apply _).
  split.
  { rewrite length_take, merge_sort_Permutation. unfold all.
    now rewrite length_fmap, length_map_to_list. }
  split.
  { apply StronglySorted_Sorted.
    rewrite <- (take_drop 5 (merge_sort most_reserved_first all)) in Hsorted.
    now apply StronglySorted_app_1_l in Hsorted. }
  exists (drop 5 (merge_sort most_reserved_first all)).
  split; [rewrite take_drop; apply merge_sort_Permutation|].
  intros p o Hp Ho.
  rewrite <- (take_drop 5 (merge_sort most_reserved_first all)) in Hsorted.
  exact (StronglySorted_app_1_elem_of _ _ _ _ _ Hsorted Hp Ho).
Qed.

Lemma stats_counts_are_consistent_witness :
  stats 10 world1
  = (Returned (Json (select_statistiques 10 (current world1),
                     select_salles_populaires (current world1))), world1)
  ∧ (reservations_actives (select_statistiques 10 (current world1))
     + reservations_annulees (select_statistiques 10 (current world1))
     ≤ total_reservations (select_statistiques 10 (current world1)))%nat
  ∧ (reservations_aujourd_hui (select_statistiques 10 (current world1))
     ≤ reservations_futures (select_statistiques 10 (current world1))
     ≤ total_reservations (select_statistiques 10 (current world1)))%nat
  ∧ length (select_salles_populaires (current world1))
    = (5 `min` size (salles (current world1)))%nat
  ∧ Sorted most_reserved_first (select_salles_populaires (current world1))
  ∧ ∃ others,
      select_salles_populaires (current world1) ++ others
      ≡ₚ popularite (current world1) <$> map_to_list (salles (current world1))
      ∧ ∀ p o, p ∈ select_salles_populaires (current world1) → o ∈ others →
               (nombre_reservations o ≤ nombre_reservations p)%nat.
Proof. apply stats_counts_are_consistent. reflexivity. Defined.

(** ** Every answer closes the transaction *)

(** A step whose result does not matter for what follows. *)
Lemma wp_bind_all {A B} (m : M A) (k : A → M B) (Q : outcome B → world → Prop) w :
  (∀ e w', Q (Thrown e) w') → (∀ a w', wp (k a) Q w') → wp (bind m k) Q w.
Proof.
  intros He Hk. unfold wp, bind. destruct (m w) as [[a|e] w']; [apply Hk|apply He].
Qed.

Lemma wp_rollback_closes (resp : response) w :
  wp (bind pool_rollback (λ _, ret resp))
     (λ o w', match o with
              | Returned r => answered_outside_transaction (Returned r) w'
              | Thrown _ => True
              end) w.
Proof.
  unfold wp, bind, pool_rollback, ret. simpl.
  destruct (fault_of (db_faults w)); simpl; [exact I|]. intros r _ _. reflexivity.
Qed.

Lemma wp_commit_closes (resp : response) w :
  wp (bind pool_commit (λ _, ret resp))
     (λ o w', match o with
              | Returned r => answered_outside_transaction (Returned r) w'
              | Thrown _ => True
              end) w.
Proof.
  unfold wp, bind, pool_commit, ret. simpl.
  destruct (fault_of (db_faults w)); simpl; [exact I|]. intros r _ _. reflexivity.
Qed.

Lemma booking_catch_closes e w :
  wp (booking_catch e)
     (λ o w', match o with
              | Returned r => answered_outside_transaction (Returned r) w'
              | Thrown _ => True
              end) w.
Proof. apply wp_rollback_closes. Qed.

Lemma internal_error_closes w :
  answered_outside_transaction (Returned internal_error) w.
Proof. intros resp [= <-] H. now destruct H. Qed.

Lemma createReservation_closes today now user value w :
  wp (createReservation today now user value) answered_outside_transaction w.
Proof.
  unfold createReservation. apply wp_try.
  eapply wp_mono with
    (Q := λ o w', match o with
                  | Returned r => answered_outside_transaction (Returned r) w'
                  | Thrown _ => True
                  end);
    [|intros [r|e] w' H; [exact H|apply internal_error_closes]].
  apply wp_bind_all; [intros; exact I|intros _ w1].
  apply wp_try.
  eapply wp_mono with
    (Q := λ o w', match o with
                  | Returned r => answered_outside_transaction (Returned r) w'
                  | Thrown _ => True
                  end);
    [|intros [r|e] w' H; [exact H|apply booking_catch_closes]].
  apply wp_bind_all; [intros; exact I|intros _ w2].
  apply wp_bind_all; [intros; exact I|intros _ w3].
  apply wp_bind_all; [intros; exact I|intros salleResult w4].
  destruct salleResult as [|salle0 ?]; [exact I|].
  apply wp_bind_all; [intros; exact I|intros _ w5].
  apply wp_bind_all; [intros; exact I|intros hasConflict w6].
  apply wp_bind_all; [intros; exact I|intros _ w7].
  apply wp_bind_all; [intros; exact I|intros reservation_ w8].
  apply wp_bind_all; [intros; exact I|intros [smsResult smsStatus] w9].
  apply wp_bind_all; [intros; exact I|intros notificationStatus w10].
  destruct smsResult as [smsResult|]; [apply wp_commit_closes|].
  apply wp_bind_all; [intros; exact I|intros _ w11]. exact I.
Qed.

Lemma createPriorityReservation_closes today now user value w :
  wp (createPriorityReservation today now user value) answered_outside_transaction w.
Proof.
  unfold createPriorityReservation. apply wp_try.
  eapply wp_mono with
    (Q := λ o w', match o with
                  | Returned r => answered_outside_transaction (Returned r) w'
                  | Thrown _ => True
                  end);
    [|intros [r|e] w' H; [exact H|apply internal_error_closes]].
  apply wp_bind_all; [intros; exact I|intros _ w1].
  apply wp_try.
  eapply wp_mono with
    (Q := λ o w', match o with
                  | Returned r => answered_outside_transaction (Returned r) w'
                  | Thrown _ => True
                  end);
    [|intros [r|e] w' H; [exact H|apply booking_catch_closes]].
  apply wp_bind_all; [intros; exact I|intros _ w2].
  apply wp_bind_all; [intros; exact I|intros _ w3].
  apply wp_bind_all; [intros; exact I|intros salleResult w4].
  destruct salleResult as [|salle0 ?]; [exact I|].
  apply wp_bind_all; [intros; exact I|intros _ w5].
  apply wp_bind_all; [intros; exact I|intros conflictResult w6].
  apply wp_bind_all; [intros; exact I|intros [smsStatus notificationStatus] w7].
  apply wp_bind_all; [intros; exact I|intros reservation_ w8].
  apply wp_bind_all; [intros; exact I|intros [smsStatus' notificationStatus'] w9].
  apply wp_commit_closes.
Qed.

Lemma cancelReservation_closes now user reservationId w :
  wp (cancelReservation now user reservationId) answered_outside_transaction w.
Proof.
  unfold cancelReservation. apply wp_try.
  eapply wp_mono with
    (Q := λ o w', match o with
                  | Returned r => answered_outside_transaction (Returned r) w'
                  | Thrown _ => True
                  end).
  2:{ intros [r|e] w' H; [exact H|]. apply wp_throw. intros resp [=]. }
  apply wp_bind_all; [intros; exact I|intros _ w1].
  apply wp_bind_all; [intros; exact I|intros result w2].
  destruct result as [|reservation_ ?]; [apply wp_rollback_closes|].
  destruct (_ && _); [apply wp_rollback_closes|].
  destruct (negb _); [apply wp_rollback_closes|].
  apply wp_bind_all; [intros; exact I|intros _ w3].
  apply wp_bind_all; [intros; exact I|intros smsStatus w4].
  apply wp_bind_all; [intros; exact I|intros notificationStatus w5].
  apply wp_commit_closes.
Qed.

(** X20. A request that is answered leaves no transaction open, unless the
    answer is the internal error 500. Whatever statements fail and whatever
    the gateway answers, when one of the three requests answers with a success
    or with one of its own errors, the transaction it opened has been ended,
    by its COMMIT or by its ROLLBACK, so the next request starts outside of any
    transaction. *)
Theorem answers_leave_no_transaction_open (op : operation) (w : world) :
  wp (run op) answered_outside_transaction w.
Proof.
  destruct op; simpl.
  - apply createReservation_closes.
  - apply createPriorityReservation_closes.
  - apply cancelReservation_closes.
Qed.

(** The internal error is an exception indeed: when a statement and then the
    ROLLBACK fail, the answer is 500 and the transaction stays open. *)
Example internal_error_can_leave_the_transaction_open :
  let create :=
    createReservation today_10 100 p_bob (booking 1 10 540 600)
      (world0 [false; true; true] (λ _, true)) in
  status_code create.1 = 500 ∧ is_Some (transaction create.2).
Proof. cbv zeta. split; [vm_compute; reflexivity|vm_compute; eauto]. Qed.

(** ** The notice of a cancellation *)

Lemma joined_row_telephone db rs j :
  In j (flat_map (join db) rs) →
  joined_utilisateur_telephone j = owner_telephone db (row j).
Proof.
  intros Hj. apply in_flat_map in Hj as (x & _ & Hj).
  unfold join in Hj. unfold owner_telephone.
  destruct (utilisateurs db !! utilisateur_id x) as [u|] eqn:Hu; [|inversion Hj].
  destruct (salles db !! salle_id x); [|inversion Hj].
  destruct Hj as [<-|[]]. simpl. now rewrite Hu.
Qed.

Lemma cancelReservation_notice now user reservationId x c g n tr :
  referential_integrity c →
  cancel_preconditions user reservationId c = inr x →
  wp (cancelReservation now user reservationId)
     (cancellation_notified now x (World c None [] g n tr))
     (World c None [] g n tr).
Proof.
  intros Hri Hpre. unfold cancel_preconditions in Hpre.
  unfold cancelReservation, cancellation_notified.
  apply wp_try, wp_bind. wp_exec. apply wp_bind. wp_exec.
  pose proof (joined_rows_find c (λ x, id x =? reservationId) (reservations c) Hri) as Hfind.
  pose proof (joined_row_telephone c
                (List.filter (λ x, id x =? reservationId) (reservations c))) as Htel.
  destruct (flat_map _ _) as [|reservation_ others]; rewrite Hfind in Hpre;
    [discriminate|].
  specialize (Htel reservation_ (or_introl eq_refl)).
  apply find_some in Hfind as [_ Hid]. apply Z.eqb_eq in Hid.
  destruct (utilisateur_id (row reservation_) =? user_id user),
    (user_role user =? "admin")%string; cbn [negb andb orb] in *; try discriminate.
  all: destruct (statut (row reservation_) =? "active")%string; cbn [negb];
    [|discriminate].
  all: injection Hpre as <-.
  all: apply wp_bind; wp_exec.
  all: apply wp_bind, wp_try, wp_bind; unfold sendCancellationSMS, wp at 1.
  all: match goal with |- context [sendSMS ?a ?b ?w] =>
         destruct (sendSMS_run a b w) as (res & Hres & _ & Hto); rewrite Hres; clear Hres end.
  all: cbn [fst snd]; apply wp_ret; cbn beta iota.
  all: cbn [after_sms committed transaction db_faults gateway dispatched trace].
  all: apply wp_bind, wp_try, wp_bind; wp_exec; wp_exec; apply wp_bind; wp_exec; wp_exec.
  all: exists (success res); unfold sms_event; rewrite Hto, Htel, <- !app_assoc.
  all: split; [reflexivity|]; split; [reflexivity|].
  all: unfold cancelled; rewrite Hid; reflexivity.
Qed.

(** X21. A cancellation tells the owner of the reservation, whoever cancels
    it. In a world where no statement fails, with the foreign keys of the
    table in place, a cancellation that passes its three checks sends exactly
    one SMS, after the UPDATE and before the COMMIT, to the telephone number of
    the owner of the reservation (not to the administrator who may have asked
    for it), and records one notification for the owner; the [smsStatus] of
    the answer and the [type] of the notification both say whether that SMS
    was delivered. *)
Theorem cancellation_notifies_the_owner
    (now : Z) (user : principal) (reservationId : Z) (x : reservation) (w : world) :
  db_faults w = [] → transaction w = None →
  referential_integrity (committed w) →
  cancel_preconditions user reservationId (committed w) = inr x →
  wp (cancelReservation now user reservationId) (cancellation_notified now x w) w.
Proof.
  destruct w as [c t fs g n tr]. simpl. intros -> -> Hri Hpre.
  now apply cancelReservation_notice.
Qed.

Lemma cancellation_notifies_the_owner_witness :
  wp (cancelReservation 200 p_bob 1)
     (cancellation_notified 200 nine_to_ten
        (World (with_reservations [nine_to_ten] db0) None [] (λ _, true) 0 []))
     (World (with_reservations [nine_to_ten] db0) None [] (λ _, true) 0 []).
Proof.
  apply cancellation_notifies_the_owner; try reflexivity.
  intros x Hx. apply list_elem_of_singleton in Hx as ->. split; vm_compute; eauto.
Defined.
